(** * The ERD generator [database/docs/generate-erd.py]

    A shallow embedding of the diagram renderer: the static schema (entities,
    positions, notes), the geometry helpers [entity_h], [box] and [edge], the
    hand-written route table [routes], and the drawing procedures that paint
    onto the Pillow canvas.

    Numbers.  The script mixes Python [int] and [float].  Integers are [Z].
    Everything that may be a float goes through the interface [PyNum], which
    has two instances:
    - [Q_num]: exact rationals, for properties that rounding cannot change
      (the coordinate that decides is an integer, or a number is compared
      with itself);
    - [b64_num]: IEEE-754 binary64 with round-to-nearest-even, as CPython
      computes, built on the executable specification [SpecFloat].

    Canvas.  Pillow itself is not part of the repository.  The canvas is the
    sequence of [draw_ctx] calls made so far, in paint order; the image is
    whatever Pillow rasterises from that sequence. *)

From Stdlib Require Import ZArith QArith Qminmax Lqa Lia String Ascii List.
From Stdlib Require Import Floats.SpecFloat.
From stdpp Require Import gmap strings list.
Import ListNotations.

Local Open Scope Z_scope.
Local Open Scope string_scope.

(** ** Numbers *)

(** What the script asks of a number: conversion from an [int], decimal
    literals, [+], [-], [*], [<] (inside [min]) and [==]. *)
Class PyNum (num : Type) := {
  nint : Z -> num;            (* int -> float conversion in mixed arithmetic *)
  nlit : Z -> Z -> num;       (* the literal written n/d in decimal, e.g. 0.3 = 3/10 *)
  nadd : num -> num -> num;
  nsub : num -> num -> num;
  nmul : num -> num -> num;
  nltb : num -> num -> bool;
  neqb : num -> num -> bool
}.

Declare Scope num_scope.
Delimit Scope num_scope with num.
Infix "+!" := nadd (at level 50, left associativity) : num_scope.
Infix "-!" := nsub (at level 50, left associativity) : num_scope.
Infix "*!" := nmul (at level 40, left associativity) : num_scope.
Infix "<?!" := nltb (at level 70, no associativity) : num_scope.
Infix "=?!" := neqb (at level 70, no associativity) : num_scope.

(** Exact rationals. *)
#[export] Instance Q_num : PyNum Q := {
  nint := inject_Z;
  nlit := fun n d => Qmake n (Z.to_pos d);
  nadd := Qplus;
  nsub := Qminus;
  nmul := Qmult;
  nltb := fun a b => negb (Qle_bool b a);
  neqb := Qeq_bool
}.

(** IEEE-754 binary64.  A decimal literal is read as the double nearest to
    its value; for n/d with n and d small integers that is the correctly
    rounded quotient. *)
Module B64.
Definition prec : Z := 53.
Definition emax : Z := 1024.
Definition of_Z (z : Z) : spec_float := binary_normalize prec emax z 0 false.
Definition literal (n d : Z) : spec_float := SFdiv prec emax (of_Z n) (of_Z d).
End B64.

#[export] Instance b64_num : PyNum spec_float := {
  nint := B64.of_Z;
  nlit := B64.literal;
  nadd := SFadd B64.prec B64.emax;
  nsub := SFsub B64.prec B64.emax;
  nmul := SFmul B64.prec B64.emax;
  nltb := SFltb;
  neqb := SFeqb
}.

(** ** Exceptions *)

Inductive exn :=
| KeyError (key : string)     (* d[k] with k not in d *)
| TypeError                   (* subscripting None *)
| ValueError.                 (* a coordinate that is not a pair of numbers *)

Inductive res (A : Type) :=
| Ok (a : A)
| Raise (e : exn).
Arguments Ok {A} a.
Arguments Raise {A} e.

#[export] Instance res_ret : MRet res := fun A a => Ok a.
#[export] Instance res_bind : MBind res := fun A B k m =>
  match m with
  | Ok a => k a
  | Raise e => Raise e
  end.

Definition is_Ok {A} (m : res A) : Prop := exists a, m = Ok a.
Definition raises {A} (m : res A) : Prop := exists e, m = Raise e.

(** [m] raises neither TypeError nor ValueError, and when it ends normally its value
    satisfies [Q]. *)
Definition safe {A} (Q : A -> Prop) (m : res A) : Prop :=
  match m with
  | Ok a => Q a
  | Raise (KeyError _) => True
  | Raise TypeError => False
  | Raise ValueError => False
  end.

(** ** Configuration constants *)

Definition COL_W : Z := 220.
Definition TYPE_W : Z := 100.
Definition BOX_W : Z := COL_W + TYPE_W.
Definition ROW_H : Z := 24.
Definition HEADER_H : Z := 30.

Definition HEADER_GREEN := "#90ee90".
Definition FK_PINK := "#ffcccc".
Definition ROW_WHITE := "#f8fff8".
Definition BORDER := "#888888".
Definition NOTE_BG := "#ffffcc".
Definition NOTE_BORDER := "#cccc88".
Definition LINE_COLOR := "#555555".

(** The three module-level font variables.  When a TrueType file is missing
    the script binds all three to Pillow's default font. *)
Inductive font_var := font | font_bold | font_note.

(** ** Schema model *)

(** An attribute: (name, type label, is-foreign-key). *)
Definition attr : Type := string * string * bool.

(** [entities] is a dict that the main loop iterates, so insertion order
    matters: an association list.  [positions] is only ever indexed. *)
Definition dict_get {V} (d : list (string * V)) (k : string) : res V :=
  match List.find (fun kv => String.eqb (fst kv) k) d with
  | Some kv => Ok (snd kv)
  | None => Raise (KeyError k)
  end.

Definition pos_get (positions : gmap string (Z * Z)) (k : string) : res (Z * Z) :=
  match positions !! k with
  | Some p => Ok p
  | None => Raise (KeyError k)
  end.

(** A note: (x, y, width, lines). *)
Definition note : Type := Z * Z * Z * list string.

Definition entities : list (string * list attr) := [
  ("Resource", [
     ("id", "int", false); ("toolID", "int", true); ("conversationID", "int", false);
     ("messageID", "int", false); ("name", "string", false); ("description", "string", false);
     ("metadata", "jsonb", false); ("s3Uri", "string", false); ("createdAt", "datetime", false);
     ("updatedAt", "datetime", false); ("MIMEType", "string", false); ("content", "string", false)]);
  ("Vector", [
     ("id", "int", false); ("toolID", "int", true); ("resourceID", "int", false);
     ("order", "int", false); ("embedding", "jsonb", false); ("content", "string", false);
     ("createdAt", "datetime", false); ("updatedAt", "datetime", false); ("conversationID", "int", false)]);
  ("Message", [
     ("id", "int", false); ("conversationID", "int", false); ("serialNumber", "int", false);
     ("role", "string", false); ("content", "jsonb", false); ("tokens", "int", false);
     ("createdAt", "datetime", false); ("updatedAt", "datetime", false)]);
  ("Conversation", [
     ("id", "int", false); ("agentID", "int", false); ("userID", "int", false);
     ("deleted", "boolean", false); ("deletedAt", "datetime", false);
     ("createdAt", "datetime", false); ("updatedAt", "datetime", false);
     ("title", "string", false); ("latestSummarySN", "int", false)]);
  ("User", [
     ("id", "int", false); ("firstName", "string", false); ("lastName", "string", false);
     ("email", "string", false); ("roleId", "int", false); ("createdAt", "datetime", false);
     ("updatedAt", "datetime", false); ("status", "string", false); ("apiKey", "string", false);
     ("budget", "float", false); ("remaining", "float", false)]);
  ("Roles", [
     ("id", "int", false); ("name", "string", false); ("displayOrder", "int", false);
     ("createdAt", "datetime", false); ("updatedAt", "datetime", false)]);
  ("RolePolicy", [
     ("roleID", "int", false); ("policyID", "int", false);
     ("createdAt", "datetime", false); ("updatedAt", "datetime", false)]);
  ("Policy", [
     ("id", "int", false); ("name", "string", false); ("resource", "string", false);
     ("action", "string", false); ("createdAt", "datetime", false); ("updatedAt", "datetime", false)]);
  ("Agent", [
     ("id", "int", false); ("name", "string", false); ("description", "string", false);
     ("promptId", "int", false); ("modelID", "int", false); ("modelParameters", "jsonb", false);
     ("createdAt", "datetime", false); ("updatedAt", "datetime", false); ("creatorID", "int", false)]);
  ("Prompt", [
     ("id", "int", false); ("agentID", "int", false); ("version", "int", false);
     ("content", "string", false); ("createdAt", "datetime", false);
     ("updatedAt", "datetime", false); ("name", "string", false)]);
  ("Model", [
     ("id", "int", false); ("name", "string", false); ("type", "string", false);
     ("description", "string", false); ("providerId", "int", false);
     ("createdAt", "datetime", false); ("updatedAt", "datetime", false);
     ("internalName", "string", false); ("summarizeThreshold", "int", false);
     ("defaultParameters", "jsonb", false); ("maxContext", "int", false);
     ("maxOutput", "int", false); ("maxReasoning", "int", false);
     ("cost1kInput", "float", false); ("cost1KOutput", "float", false);
     ("cost1kCacheReason", "float", false); ("cost1kCacheWrite", "float", false)]);
  ("Providers", [
     ("id", "int", false); ("name", "string", false); ("apiKey", "string", false);
     ("endpoint", "string", false); ("createdAt", "datetime", false); ("updatedAt", "datetime", false)]);
  ("Tool", [
     ("id", "int", false); ("name", "string", false); ("description", "string", false);
     ("type", "string", false); ("authenticationType", "string", false);
     ("endpoint", "string", false); ("transportType", "string", false);
     ("customConfig", "jsonb", false); ("createdAt", "datetime", false); ("updatedAt", "datetime", false)]);
  ("UserAgent", [
     ("userID", "int", false); ("agentID", "int", false); ("role", "string", false);
     ("createdAt", "datetime", false); ("updatedAt", "datetime", false)]);
  ("UserTool", [
     ("userID", "int", false); ("toolID", "int", false); ("credential", "jsonb", false);
     ("createdAt", "datetime", false); ("updatedAt", "datetime", false)]);
  ("AgentTool", [
     ("toolID", "int", false); ("agentID", "int", false);
     ("createdAt", "datetime", false); ("updatedAt", "datetime", false)]);
  ("Usages", [
     ("id", "int", false); ("type", "string", true); ("userID", "int", false);
     ("agentID", "int", false); ("messageID", "int", false); ("modelId", "int", false);
     ("inputTokens", "float", false); ("outputtokens", "float", false);
     ("cacheReadToken", "float", false); ("cacheWriteToken", "float", false);
     ("cost", "float", false); ("createdAt", "datetime", false); ("updatedAt", "datetime", false)]);
  ("Sessions", [
     ("sid", "string", false); ("expires", "datetime", false); ("data", "string", false);
     ("createdAt", "datetime", false); ("updatedAt", "datetime", false)])
].

Definition positions_items : list (string * (Z * Z)) := [
  (* Col 1 (left): Message, Roles chain *)
  ("Message",      (80,  500));
  ("Roles",        (80,  1050));
  ("RolePolicy",   (80,  1260));
  ("Policy",       (80,  1480));
  (* Col 2: Resource, Conversation, User *)
  ("Resource",     (470, 30));
  ("Conversation", (470, 460));
  ("User",         (470, 840));
  (* Col 3: Vector, Agent, join tables, Usages *)
  ("Vector",       (860, 30));
  ("Agent",        (860, 370));
  ("UserAgent",    (860, 760));
  ("UserTool",     (860, 940));
  ("Usages",       (860, 1180));
  (* Col 4: Prompt, Model, AgentTool *)
  ("Prompt",       (1610, 60));
  ("Model",        (1610, 340));
  ("AgentTool",    (1610, 790));
  (* Col 5 (right): Providers, Tool, Sessions *)
  ("Providers",    (2000, 60));
  ("Tool",         (2000, 640));
  ("Sessions",     (2000, 1020))
].

Definition positions : gmap string (Z * Z) := list_to_map positions_items.

Definition notes : list note := [
  (80,  700, 310, ["role: ['system', 'user', 'assistant', 'tool']"]);
  (470, 1130, 310, ["status: ['Active', 'Inactive', 'Disabled']"]);
  (80,  1190, 300, ["name: ['Admin', 'Super User', 'User']"]);
  (1610, 790, 310, ["type: ['chat', 'embedding', 'reranking']"]);
  (2000, 920, 240, ["type: ['MCP', 'custom']"]);
  (860, 1520, 310, ["type: ['user', 'agent', 'guardrail']"]);
  (860, 910, 280, ["role: ['admin', 'user']"]);
  (1250, 640, 250, [
     "Model Parameters";
     "  temperature"; "  maxToken"; "  topP"; "  topK"; "  ..."]);
  (2000, 1200, 290, [
     "Configuration";
     "  McpType"; "  embeddingModelID"; "  rerankingModelID";
     "  chunkSize"; "  overlap"; "  retrieveTopN"; "  rerankTopN"; "  ...";
     ""; "McpType: ['knowledgebase',"; "  'API', 'database']"])
].

(** ** Geometry, route table and drawing

    The script reads the module-level dicts [entities] and [positions]; here
    they are the section variables [ents] and [poss], so that statements can
    range over every schema and layout. *)
Section Renderer.
Context {num : Type} `{PyNum num}.
Variable ents : list (string * list attr).
Variable poss : gmap string (Z * Z).

Local Open Scope num_scope.

(** A point: an (x, y) tuple whose components may be ints or floats.  An int
    component is carried as its conversion [nint], which is exact for the
    coordinates of this canvas, and [==] compares ints and floats by value. *)
Definition pt : Type := num * num.

Definition entity_h (name : string) : res Z :=
  cols ← dict_get ents name;
  mret (HEADER_H + Z.of_nat (length cols) * ROW_H + 2).

(** Return (x1, y1, x2, y2) of entity. *)
Definition box (name : string) : res (Z * Z * Z * Z) :=
  '(x, y) ← pos_get poss name;
  h ← entity_h name;
  mret (x, y, x + BOX_W, y + h).

(** The if/elif chain of [edge] once the box is known.  No branch matches
    another side string and the function falls off its end: [None]. *)
Definition edge_on (b : Z * Z * Z * Z) (side : string) (frac : num) : option pt :=
  let '(x1, y1, x2, y2) := b in
  if String.eqb side "L" then Some (nint x1, nint y1 +! nint (y2 - y1) *! frac)
  else if String.eqb side "R" then Some (nint x2, nint y1 +! nint (y2 - y1) *! frac)
  else if String.eqb side "T" then Some (nint x1 +! nint (x2 - x1) *! frac, nint y1)
  else if String.eqb side "B" then Some (nint x1 +! nint (x2 - x1) *! frac, nint y2)
  else None.

(** Get a point on an entity edge.  side: L, R, T, B; frac: 0.0 = start of
    edge, 1.0 = end (top-to-bottom for L/R, left-to-right for T/B). *)
Definition edge (name side : string) (frac : num) : res (option pt) :=
  b ← box name;
  mret (edge_on b side frac).

(** [p[0]] and [p[1]]: subscripting [None] raises. *)
Definition item0 (p : option pt) : res num :=
  match p with Some (x, _) => Ok x | None => Raise TypeError end.
Definition item1 (p : option pt) : res num :=
  match p with Some (_, y) => Ok y | None => Raise TypeError end.

(** The builtin [min] on two arguments keeps the first unless the second is
    smaller. *)
Definition py_min (a b : num) : num := if b <?! a then b else a.

(** [R.append(r)] *)
Definition append {A} (l : list A) (r : A) : list A := (l ++ [r])%list.

(** (src, src_side, src_frac, tgt, tgt_side, tgt_frac, waypoints, one_dir, crow_dir) *)
Record route := Route {
  src : string; src_side : string; src_frac : num;
  tgt : string; tgt_side : string; tgt_frac : num;
  waypoints : list pt;
  one_dir : string; crow_dir : string
}.

(** Define all relationship routes explicitly to avoid crossings. *)
Definition routes : res (list route) :=
  let R := [] in
  (* Conversation <-> Message (horizontal, same row) *)
  let R := append R (Route "Conversation" "L" (nlit 3 10) "Message" "R" (nlit 3 10) [] "H" "R") in
  (* Conversation <-> Agent (horizontal) *)
  let R := append R (Route "Agent" "L" (nlit 15 100) "Conversation" "R" (nlit 15 100) [] "H" "L") in
  (* Conversation <-> User (vertical) *)
  let R := append R (Route "Conversation" "B" (nlit 3 10) "User" "T" (nlit 3 10) [] "V" "D") in
  (* Conversation <-> Resource (vertical up) *)
  let R := append R (Route "Conversation" "T" (nlit 3 10) "Resource" "B" (nlit 3 10) [] "V" "U") in
  (* Conversation <-> Vector (line up-right) *)
  cv_s ← edge "Conversation" "T" (nlit 7 10);
  cv_e ← edge "Vector" "B" (nlit 3 10);
  cv_s0 ← item0 cv_s; cv_e1 ← item1 cv_e;
  let R := append R (Route "Conversation" "T" (nlit 7 10) "Vector" "B" (nlit 3 10)
                   [(cv_s0, cv_e1)] "V" "U") in
  (* Resource <-> Vector (horizontal) *)
  let R := append R (Route "Resource" "R" (nlit 15 100) "Vector" "L" (nlit 15 100) [] "H" "L") in
  (* Resource <-> Tool (long horizontal right) *)
  rs ← edge "Resource" "R" (nlit 5 100);
  re ← edge "Tool" "L" (nlit 5 100);
  rs1 ← item1 rs; re1 ← item1 re;
  let mid_y := py_min rs1 re1 -! nint 15 in
  rs0 ← item0 rs; re0 ← item0 re;
  let R := append R (Route "Resource" "R" (nlit 5 100) "Tool" "L" (nlit 5 100)
                   [(rs0 +! nint 10, rs1); (rs0 +! nint 10, mid_y);
                    (re0 -! nint 10, mid_y); (re0 -! nint 10, re1)] "H" "L") in
  (* Vector <-> Tool (horizontal right) *)
  vs ← edge "Vector" "R" (nlit 5 100);
  ve ← edge "Tool" "L" (nlit 15 100);
  vs1 ← item1 vs; ve1 ← item1 ve;
  let mid_y2 := py_min vs1 ve1 -! nint 30 in
  vs0 ← item0 vs; ve0 ← item0 ve;
  let R := append R (Route "Vector" "R" (nlit 5 100) "Tool" "L" (nlit 15 100)
                   [(vs0 +! nint 10, vs1); (vs0 +! nint 10, mid_y2);
                    (ve0 -! nint 10, mid_y2); (ve0 -! nint 10, ve1)] "H" "L") in
  (* Message <-> Resource (vertical up-right) *)
  ms ← edge "Message" "T" (nlit 7 10);
  mre ← edge "Resource" "B" (nlit 7 10);
  ms0 ← item0 ms; mre1 ← item1 mre; mre0 ← item0 mre;
  let R := append R (Route "Message" "T" (nlit 7 10) "Resource" "B" (nlit 7 10)
                   [(ms0, mre1 +! nint 15); (mre0, mre1 +! nint 15)] "V" "U") in
  (* Agent <-> Prompt (horizontal right) *)
  let R := append R (Route "Agent" "R" (nlit 2 10) "Prompt" "L" (nlit 5 10) [] "H" "L") in
  (* Agent <-> Model (line right via Prompt area) *)
  as1 ← edge "Agent" "R" (nlit 35 100);
  ae1 ← edge "Model" "L" (nlit 15 100);
  as1_0 ← item0 as1; as1_1 ← item1 as1; ae1_1 ← item1 ae1;
  let R := append R (Route "Agent" "R" (nlit 35 100) "Model" "L" (nlit 15 100)
                   [(as1_0 +! nint 60, as1_1); (as1_0 +! nint 60, ae1_1)] "H" "L") in
  (* User <-> Agent (creatorID - line up) *)
  let R := append R (Route "User" "T" (nlit 7 10) "Agent" "B" (nlit 7 10) [] "V" "U") in
  (* Providers <-> Model (vertical down or horizontal) *)
  pm_a ← edge "Providers" "B" (nlit 3 10); pm_a0 ← item0 pm_a;
  pm_b ← edge "Model" "T" (nlit 7 10); pm_b1 ← item1 pm_b;
  pm_c ← edge "Model" "T" (nlit 7 10); pm_c0 ← item0 pm_c;
  pm_d ← edge "Model" "T" (nlit 7 10); pm_d1 ← item1 pm_d;
  let R := append R (Route "Providers" "B" (nlit 3 10) "Model" "T" (nlit 7 10)
                   [(pm_a0, pm_b1 -! nint 15); (pm_c0, pm_d1 -! nint 15)] "V" "D") in
  (* User <-> Roles (horizontal left) *)
  let R := append R (Route "User" "L" (nlit 35 100) "Roles" "R" (nlit 3 10) [] "H" "R") in
  (* Roles <-> RolePolicy (vertical down) *)
  let R := append R (Route "Roles" "B" (nlit 5 10) "RolePolicy" "T" (nlit 5 10) [] "V" "D") in
  (* Policy <-> RolePolicy (vertical up) *)
  let R := append R (Route "Policy" "T" (nlit 5 10) "RolePolicy" "B" (nlit 5 10) [] "V" "U") in
  (* User <-> UserAgent (horizontal right) *)
  let R := append R (Route "User" "R" (nlit 15 100) "UserAgent" "L" (nlit 3 10) [] "H" "L") in
  (* Agent <-> UserAgent (vertical down) *)
  let R := append R (Route "Agent" "B" (nlit 3 10) "UserAgent" "T" (nlit 3 10) [] "V" "D") in
  (* User <-> UserTool (horizontal right) *)
  us ← edge "User" "R" (nlit 5 10);
  ue ← edge "UserTool" "L" (nlit 3 10);
  us0 ← item0 us; us1 ← item1 us; ue1 ← item1 ue;
  let R := append R (Route "User" "R" (nlit 5 10) "UserTool" "L" (nlit 3 10)
                   [(us0 +! nint 20, us1); (us0 +! nint 20, ue1)] "H" "L") in
  (* Tool <-> UserTool (horizontal left) *)
  let R := append R (Route "Tool" "L" (nlit 7 10) "UserTool" "R" (nlit 3 10) [] "H" "R") in
  (* Tool <-> AgentTool (horizontal left) *)
  let R := append R (Route "Tool" "L" (nlit 4 10) "AgentTool" "R" (nlit 3 10) [] "H" "R") in
  (* Agent <-> AgentTool (horizontal right) *)
  ags ← edge "Agent" "R" (nlit 8 10);
  age ← edge "AgentTool" "L" (nlit 3 10);
  ags0 ← item0 ags; ags1 ← item1 ags; age1 ← item1 age;
  let R := append R (Route "Agent" "R" (nlit 8 10) "AgentTool" "L" (nlit 3 10)
                   [(ags0 +! nint 30, ags1); (ags0 +! nint 30, age1)] "H" "L") in
  (* User <-> Usages (line down-right) *)
  uus ← edge "User" "B" (nlit 7 10);
  uue ← edge "Usages" "L" (nlit 15 100);
  uus0 ← item0 uus; uue1 ← item1 uue;
  let R := append R (Route "User" "B" (nlit 7 10) "Usages" "L" (nlit 15 100)
                   [(uus0, uue1)] "V" "L") in
  (* Agent <-> Usages (vertical down) *)
  au_a ← edge "Agent" "B" (nlit 5 10); au_a0 ← item0 au_a;
  au_b ← edge "Usages" "T" (nlit 3 10); au_b1 ← item1 au_b;
  au_c ← edge "Usages" "T" (nlit 3 10); au_c0 ← item0 au_c;
  au_d ← edge "Usages" "T" (nlit 3 10); au_d1 ← item1 au_d;
  let R := append R (Route "Agent" "B" (nlit 5 10) "Usages" "T" (nlit 3 10)
                   [(au_a0, au_b1 -! nint 15); (au_c0, au_d1 -! nint 15)] "V" "U") in
  (* Message <-> Usages (line down-right) *)
  mus ← edge "Message" "B" (nlit 5 10);
  mue ← edge "Usages" "L" (nlit 35 100);
  mus0 ← item0 mus; mue1 ← item1 mue;
  let R := append R (Route "Message" "B" (nlit 5 10) "Usages" "L" (nlit 35 100)
                   [(mus0, mue1)] "V" "L") in
  (* Model <-> Usages (line down-left) *)
  mds ← edge "Model" "B" (nlit 3 10);
  mde ← edge "Usages" "R" (nlit 3 10);
  mds0 ← item0 mds; mde1 ← item1 mde;
  let R := append R (Route "Model" "B" (nlit 3 10) "Usages" "R" (nlit 3 10)
                   [(mds0, mde1)] "V" "R") in
  mret R.

(** *** The canvas

    One constructor per [draw_ctx] method the script calls, holding the
    arguments of the call; a keyword argument left out is [None].  A line
    end has the type of what [edge] returns; a call whose end is [None]
    never reaches the canvas (see [draw_ctx_line]). *)
Inductive draw_op :=
| rectangle (xy : Z * Z * Z * Z) (fill outline : option string)
| line (p q : option pt) (fill : string) (width : option Z)
| text (xy : Z * Z) (s : string) (fill : string) (f : font_var).

Definition canvas : Type := list draw_op.

(** A draw call mutates the canvas in place: it paints over what is there. *)
Definition paint (c : canvas) (op : draw_op) : canvas := (c ++ [op])%list.

Definition ipt (x y : Z) : option pt := Some (nint x, nint y).

Fixpoint draw_columns (c : canvas) (x y i : Z) (cols : list attr) : canvas :=
  match cols with
  | [] => c
  | (col_name, col_type, is_fk) :: rest =>
      let ry := y + HEADER_H + i * ROW_H in
      let bg := if is_fk then FK_PINK else ROW_WHITE in
      let c := paint c (rectangle (x, ry, x + BOX_W, ry + ROW_H) (Some bg) (Some BORDER)) in
      let c := paint c (line (ipt (x + COL_W) ry) (ipt (x + COL_W) (ry + ROW_H)) BORDER None) in
      let c := paint c (text (x + 6, ry + 3) col_name "black" font) in
      let c := paint c (text (x + COL_W + 6, ry + 3) col_type "black" font) in
      draw_columns c x y (i + 1) rest
  end.

Definition draw_entity (c : canvas) (name : string) : res canvas :=
  '(x, y) ← pos_get poss name;
  cols ← dict_get ents name;
  h ← entity_h name;
  (* Shadow *)
  let c := paint c (rectangle (x + 3, y + 3, x + BOX_W + 3, y + h + 3) (Some "#dddddd") None) in
  (* Header *)
  let c := paint c (rectangle (x, y, x + BOX_W, y + HEADER_H) (Some HEADER_GREEN) (Some BORDER)) in
  let c := paint c (text (x + 8, y + 5) name "black" font_bold) in
  (* Columns *)
  let c := draw_columns c x y 0 cols in
  (* Outer border *)
  mret (paint c (rectangle (x, y, x + BOX_W, y + h) None (Some BORDER))).

(** [needle in hay] on strings: substring test. *)
Fixpoint py_in (needle hay : string) : bool :=
  String.prefix needle hay ||
  match hay with
  | EmptyString => false
  | String _ rest => py_in needle rest
  end.

(** The font chosen for line [i] of a note. *)
Definition note_font (i : Z) (line : string) : font_var :=
  if Z.eqb i 0 && negb (String.prefix " " line)
     && negb (py_in ":" line) && negb (py_in "[" line)
  then font_bold else font_note.

Fixpoint draw_note_lines (c : canvas) (x y i : Z) (lines : list string) : canvas :=
  match lines with
  | [] => c
  | ln :: rest =>
      let f := note_font i ln in
      let c := paint c (text (x + 8, y + 6 + i * 20) ln "#333333" f) in
      draw_note_lines c x y (i + 1) rest
  end.

Definition draw_note (c : canvas) (n : note) : canvas :=
  let '(x, y, w, lines) := n in
  let h := Z.of_nat (length lines) * 20 + 12 in
  let c := paint c (rectangle (x, y, x + w, y + h) (Some NOTE_BG) (Some NOTE_BORDER)) in
  draw_note_lines c x y 0 lines.

(** Draw the 1 mark.  direction: H or V. *)
Definition draw_one_mark (c : canvas) (x y : num) (direction : string) : canvas :=
  let sz := nint 8 in
  if String.eqb direction "H"
  then paint c (line (Some (x, y -! sz)) (Some (x, y +! sz)) LINE_COLOR (Some 2))
  else paint c (line (Some (x -! sz, y)) (Some (x +! sz, y)) LINE_COLOR (Some 2)).

(** Draw crow's foot.  toward: L, R, U, D = direction the foot points. *)
Definition draw_crow_foot (c : canvas) (x y : num) (toward : string) : canvas :=
  let sz := nint 10 in
  let sp := nint 7 in
  if String.eqb toward "L" then
    let c := paint c (line (Some (x, y)) (Some (x +! sz, y -! sp)) LINE_COLOR (Some 2)) in
    let c := paint c (line (Some (x, y)) (Some (x +! sz, y)) LINE_COLOR (Some 2)) in
    paint c (line (Some (x, y)) (Some (x +! sz, y +! sp)) LINE_COLOR (Some 2))
  else if String.eqb toward "R" then
    let c := paint c (line (Some (x, y)) (Some (x -! sz, y -! sp)) LINE_COLOR (Some 2)) in
    let c := paint c (line (Some (x, y)) (Some (x -! sz, y)) LINE_COLOR (Some 2)) in
    paint c (line (Some (x, y)) (Some (x -! sz, y +! sp)) LINE_COLOR (Some 2))
  else if String.eqb toward "U" then
    let c := paint c (line (Some (x, y)) (Some (x -! sp, y +! sz)) LINE_COLOR (Some 2)) in
    let c := paint c (line (Some (x, y)) (Some (x, y +! sz)) LINE_COLOR (Some 2)) in
    paint c (line (Some (x, y)) (Some (x +! sp, y +! sz)) LINE_COLOR (Some 2))
  else if String.eqb toward "D" then
    let c := paint c (line (Some (x, y)) (Some (x -! sp, y -! sz)) LINE_COLOR (Some 2)) in
    let c := paint c (line (Some (x, y)) (Some (x, y -! sz)) LINE_COLOR (Some 2)) in
    paint c (line (Some (x, y)) (Some (x +! sp, y -! sz)) LINE_COLOR (Some 2))
  else c.

(** [draw_ctx.line([p, q], fill=..., width=...)] with ends that may be
    [None].  Pillow accepts a coordinate list of pairs of numbers and raises
    ValueError on any other element, so a [None] end aborts the call.  The
    other drawing procedures always pass pairs of numbers and paint
    directly. *)
Definition draw_ctx_line (c : canvas) (p q : option pt) (fill : string)
  (width : option Z) : res canvas :=
  match p, q with
  | Some _, Some _ => Ok (paint c (line p q fill width))
  | _, _ => Raise ValueError
  end.

(** Draw an orthogonal polyline through a list of (x,y) points: one
    segment for each index i in range(len(points) - 1). *)
Fixpoint draw_ortho_line (c : canvas) (points : list (option pt)) : res canvas :=
  match points with
  | p :: (q :: _) as rest =>
      c ← draw_ctx_line c p q LINE_COLOR (Some 1);
      draw_ortho_line c rest
  | _ => mret c
  end.

(** The list [[sp] + waypoints + [tp]] handed to [draw_ortho_line]. *)
Definition polyline (sp : option pt) (wps : list pt) (tp : option pt) : list (option pt) :=
  ([sp] ++ map Some wps ++ [tp])%list.

(** The one-mark block of [draw_relationship]. *)
Definition draw_source_mark (c : canvas) (one_dir src_side : string) (sp : option pt)
  : res canvas :=
  if String.eqb one_dir "H" then
    if String.eqb src_side "R" then
      x ← item0 sp; y ← item1 sp; mret (draw_one_mark c (x +! nint 12) y "H")
    else if String.eqb src_side "L" then
      x ← item0 sp; y ← item1 sp; mret (draw_one_mark c (x -! nint 12) y "H")
    else if String.eqb src_side "T" then
      x ← item0 sp; y ← item1 sp; mret (draw_one_mark c x (y -! nint 12) "V")
    else if String.eqb src_side "B" then
      x ← item0 sp; y ← item1 sp; mret (draw_one_mark c x (y +! nint 12) "V")
    else mret c
  else (* V *)
    if String.eqb src_side "B" then
      x ← item0 sp; y ← item1 sp; mret (draw_one_mark c x (y +! nint 12) "V")
    else if String.eqb src_side "T" then
      x ← item0 sp; y ← item1 sp; mret (draw_one_mark c x (y -! nint 12) "V")
    else if String.eqb src_side "R" then
      x ← item0 sp; y ← item1 sp; mret (draw_one_mark c (x +! nint 12) y "H")
    else if String.eqb src_side "L" then
      x ← item0 sp; y ← item1 sp; mret (draw_one_mark c (x -! nint 12) y "H")
    else mret c.

Definition draw_relationship (c : canvas) (r : route) : res canvas :=
  sp ← edge (src r) (src_side r) (src_frac r);
  tp ← edge (tgt r) (tgt_side r) (tgt_frac r);
  let points := polyline sp (waypoints r) tp in
  c ← draw_ortho_line c points;
  (* One mark near source (12px in from edge) *)
  c ← draw_source_mark c (one_dir r) (src_side r) sp;
  (* Crow's foot near target *)
  x ← item0 tp; y ← item1 tp;
  mret (draw_crow_foot c x y (crow_dir r)).

(** *** Main *)

(** [for a in l: body(d, a)] *)
Fixpoint for_each {A} (body : canvas -> A -> res canvas) (c : canvas) (l : list A)
  : res canvas :=
  match l with
  | [] => Ok c
  | a :: rest => c' ← body c a; for_each body c' rest
  end.

Variable nts : list note.

(** The three drawing loops of the script body, for a given route table:
    relationships first (behind entities), entities on top, then notes.
    The result is the canvas handed to [img.save]. *)
Definition render (R : list route) : res canvas :=
  let d : canvas := [] in
  d ← for_each draw_relationship d R;
  d ← for_each draw_entity d (map fst ents);
  d ← for_each (fun c n => Ok (draw_note c n)) d nts;
  mret d.

(** The script body: the route table is [routes()], evaluated once in the
    header of the first loop. *)
Definition main : res canvas :=
  R ← routes;
  render R.

(** [shift c m]: the outcome [m] of drawing on some canvas, replayed on top
    of [c]. *)
Definition shift (c : canvas) (m : res canvas) : res canvas :=
  match m with
  | Ok e => Ok (c ++ e)%list
  | Raise e => Raise e
  end.

(** *** The script body as a machine

    One transition per loop iteration; an uncaught exception ends the run
    before anything is saved. *)
Inductive state :=
| Start                                         (* fresh image, nothing drawn *)
| Relationships (todo : list route) (d : canvas)
| Entities (todo : list string) (d : canvas)
| Notes (todo : list note) (d : canvas)
| Saved (d : canvas)                            (* img.save(...) *)
| Crashed (e : exn).

Inductive step : state -> state -> Prop :=
| step_routes_ok R :
    routes = Ok R -> step Start (Relationships R [])
| step_routes_raise e :
    routes = Raise e -> step Start (Crashed e)
| step_rel_ok r todo d d' :
    draw_relationship d r = Ok d' ->
    step (Relationships (r :: todo) d) (Relationships todo d')
| step_rel_raise r todo d e :
    draw_relationship d r = Raise e ->
    step (Relationships (r :: todo) d) (Crashed e)
| step_rel_done d :
    step (Relationships [] d) (Entities (map fst ents) d)
| step_ent_ok name todo d d' :
    draw_entity d name = Ok d' ->
    step (Entities (name :: todo) d) (Entities todo d')
| step_ent_raise name todo d e :
    draw_entity d name = Raise e ->
    step (Entities (name :: todo) d) (Crashed e)
| step_ent_done d :
    step (Entities [] d) (Notes nts d)
| step_note n todo d :
    step (Notes (n :: todo) d) (Notes todo (draw_note d n))
| step_note_done d :
    step (Notes [] d) (Saved d).

Inductive steps : state -> state -> Prop :=
| steps_refl s : steps s s
| steps_step s s' s'' : step s s' -> steps s' s'' -> steps s s''.

Definition final (s : state) : Prop :=
  match s with
  | Saved _ | Crashed _ => True
  | _ => False
  end.

(** A complete run of the script ending in [s]. *)
Definition run_ends_in (s : state) : Prop := steps Start s /\ final s.

(** *** Vocabulary of the specification *)

(** The state a run ends in, read off the functional model. *)
Definition outcome (m : res canvas) : state :=
  match m with
  | Ok d => Saved d
  | Raise e => Crashed e
  end.

Definition valid_side (side : string) : Prop :=
  side = "L" \/ side = "R" \/ side = "T" \/ side = "B".

Definition valid_sideb (side : string) : bool :=
  String.eqb side "L" || String.eqb side "R" || String.eqb side "T" || String.eqb side "B".

Definition route_sides_valid (r : route) : Prop :=
  valid_side (src_side r) /\ valid_side (tgt_side r).

(** The route with its [one_dir] field replaced. *)
Definition with_one_dir (d : string) (r : route) : route :=
  Route (src r) (src_side r) (src_frac r) (tgt r) (tgt_side r) (tgt_frac r)
        (waypoints r) d (crow_dir r).

(** A segment is horizontal or vertical: [x1 == x2 or y1 == y2]. *)
Definition segment_orthogonal (p q : option pt) : bool :=
  match p, q with
  | Some (x1, y1), Some (x2, y2) => (x1 =?! x2) || (y1 =?! y2)
  | _, _ => false
  end.

Fixpoint orthogonal (points : list (option pt)) : bool :=
  match points with
  | p :: (q :: _) as rest => segment_orthogonal p q && orthogonal rest
  | _ => true
  end.

(** The point sequence [draw_relationship] builds for a route. *)
Definition route_points (r : route) : res (list (option pt)) :=
  sp ← edge (src r) (src_side r) (src_frac r);
  tp ← edge (tgt r) (tgt_side r) (tgt_frac r);
  mret (polyline sp (waypoints r) tp).

Definition route_orthogonal (r : route) : bool :=
  match route_points r with
  | Ok points => orthogonal points
  | Raise _ => false
  end.

(** *** What is to be on the canvas (section 4.3 of the specification)

    The paint of each item as a list of calls, written without reference to
    the drawing procedures. *)

(** A polyline: plain line segments joining each point to the next. *)
Fixpoint segments (points : list pt) : canvas :=
  match points with
  | p :: (q :: _) as rest =>
      line (Some p) (Some q) LINE_COLOR (Some 1) :: segments rest
  | _ => []
  end.

(** The cardinality mark: a tick of half-length 8 across the line, 12 off
    the source anchor on the outer side of the box. *)
Definition one_mark_of (side : string) (sp : pt) : canvas :=
  let '(x, y) := sp in
  let tick (p q : pt) := [line (Some p) (Some q) LINE_COLOR (Some 2)] in
  if String.eqb side "R" then tick (x +! nint 12, y -! nint 8) (x +! nint 12, y +! nint 8)
  else if String.eqb side "L" then tick (x -! nint 12, y -! nint 8) (x -! nint 12, y +! nint 8)
  else if String.eqb side "T" then tick (x -! nint 8, y -! nint 12) (x +! nint 8, y -! nint 12)
  else if String.eqb side "B" then tick (x -! nint 8, y +! nint 12) (x +! nint 8, y +! nint 12)
  else [].

(** The crow's foot: three prongs from the target anchor, 10 long and
    splayed by 7, opening away from the direction [toward]. *)
Definition crow_foot_of (toward : string) (tp : pt) : canvas :=
  let '(x, y) := tp in
  let prong (q : pt) := line (Some (x, y)) (Some q) LINE_COLOR (Some 2) in
  if String.eqb toward "L" then
    [prong (x +! nint 10, y -! nint 7); prong (x +! nint 10, y); prong (x +! nint 10, y +! nint 7)]
  else if String.eqb toward "R" then
    [prong (x -! nint 10, y -! nint 7); prong (x -! nint 10, y); prong (x -! nint 10, y +! nint 7)]
  else if String.eqb toward "U" then
    [prong (x -! nint 7, y +! nint 10); prong (x, y +! nint 10); prong (x +! nint 7, y +! nint 10)]
  else if String.eqb toward "D" then
    [prong (x -! nint 7, y -! nint 10); prong (x, y -! nint 10); prong (x +! nint 7, y -! nint 10)]
  else [].

(** A route between the anchors [sp] and [tp]: its polyline, then the mark
    at the source, then the crow's foot at the target. *)
Definition route_ops (r : route) (sp tp : pt) : canvas :=
  (segments (sp :: waypoints r ++ [tp])
   ++ one_mark_of (src_side r) sp
   ++ crow_foot_of (crow_dir r) tp)%list.

(** One row per attribute: background, column divider, name, type. *)
Fixpoint row_ops (x y i : Z) (cols : list attr) : canvas :=
  match cols with
  | [] => []
  | (col_name, col_type, is_fk) :: rest =>
      let ry := y + HEADER_H + i * ROW_H in
      rectangle (x, ry, x + BOX_W, ry + ROW_H)
                (Some (if is_fk then FK_PINK else ROW_WHITE)) (Some BORDER)
      :: line (ipt (x + COL_W) ry) (ipt (x + COL_W) (ry + ROW_H)) BORDER None
      :: text (x + 6, ry + 3) col_name "black" font
      :: text (x + COL_W + 6, ry + 3) col_type "black" font
      :: row_ops x y (i + 1) rest
  end.

(** An entity box at (x, y): drop shadow, header band with the name, the
    rows, the outer border. *)
Definition entity_ops (x y : Z) (name : string) (cols : list attr) : canvas :=
  let h := HEADER_H + Z.of_nat (length cols) * ROW_H + 2 in
  (rectangle (x + 3, y + 3, x + BOX_W + 3, y + h + 3) (Some "#dddddd") None
   :: rectangle (x, y, x + BOX_W, y + HEADER_H) (Some HEADER_GREEN) (Some BORDER)
   :: text (x + 8, y + 5) name "black" font_bold
   :: row_ops x y 0 cols
   ++ [rectangle (x, y, x + BOX_W, y + h) None (Some BORDER)])%list.

Fixpoint note_text_ops (x y i : Z) (lines : list string) : canvas :=
  match lines with
  | [] => []
  | ln :: rest =>
      text (x + 8, y + 6 + i * 20) ln "#333333" (note_font i ln)
      :: note_text_ops x y (i + 1) rest
  end.

(** A note: the background rectangle sized to the line count, then its
    lines. *)
Definition note_ops (n : note) : canvas :=
  let '(x, y, w, lines) := n in
  rectangle (x, y, x + w, y + (Z.of_nat (length lines) * 20 + 12))
            (Some NOTE_BG) (Some NOTE_BORDER)
  :: note_text_ops x y 0 lines.

(** [ops] is the paint of route [r]: both anchors exist. *)
Definition route_painted (r : route) (ops : canvas) : Prop :=
  exists sp tp : pt,
    edge (src r) (src_side r) (src_frac r) = Ok (Some sp)
    /\ edge (tgt r) (tgt_side r) (tgt_frac r) = Ok (Some tp)
    /\ ops = route_ops r sp tp.

(** [ops] is the paint of the entity [name]. *)
Definition entity_painted (name : string) (ops : canvas) : Prop :=
  exists x y cols,
    poss !! name = Some (x, y)
    /\ dict_get ents name = Ok cols
    /\ ops = entity_ops x y name cols.

End Renderer.

Arguments Route {num}.
Arguments route : clear implicits.
Arguments rectangle {num}.
Arguments text {num}.
Arguments draw_op : clear implicits.
Arguments canvas : clear implicits.
Arguments state : clear implicits.
Arguments Start {num}.
Arguments Crashed {num}.

Local Open Scope Q_scope.

(** ** Sides of a box, and the closed box over the rationals *)

(** The corner where a side starts (fraction 0) and the one where it ends
    (fraction 1): top-to-bottom for L and R, left-to-right for T and B. *)
Definition side_start (b : Z * Z * Z * Z) (side : string) : Z * Z :=
  let '(x1, y1, x2, y2) := b in
  if String.eqb side "L" then (x1, y1)
  else if String.eqb side "R" then (x2, y1)
  else if String.eqb side "T" then (x1, y1)
  else (x1, y2).

Definition side_end (b : Z * Z * Z * Z) (side : string) : Z * Z :=
  let '(x1, y1, x2, y2) := b in
  if String.eqb side "L" then (x1, y2)
  else if String.eqb side "R" then (x2, y2)
  else if String.eqb side "T" then (x2, y1)
  else (x2, y2).

(** [p] lies in the closed rectangle [b]. *)
Definition in_box (b : Z * Z * Z * Z) (p : Q * Q) : Prop :=
  let '(x1, y1, x2, y2) := b in
  let '(x, y) := p in
  inject_Z x1 <= x <= inject_Z x2 /\ inject_Z y1 <= y <= inject_Z y2.

Local Close Scope Q_scope.

(** ** Vocabulary over binary64

    Comparison by value of a binary64 number with an integer, the way Python
    compares a float with an int.  The value of [S754_finite s m e] is
    [(-1)^s * m * 2^e].  The exponent of a binary64 number is at least -1074
    and that of the exact product of two of them at least -2148, so both
    sides of a comparison are multiplied by [2^scale] and compared as
    integers. *)
Definition scale : Z := 2200.

(** [m * 2^e], times [2^scale]. *)
Definition scaled (m e : Z) : Z := m * 2 ^ (e + scale).

(** [x <= c].  Minus infinity is below every integer; NaN compares with
    nothing. *)
Definition b64_le_int (x : spec_float) (c : Z) : Prop :=
  match x with
  | S754_zero _ => 0 <= c
  | S754_finite s m e => cond_Zopp s (scaled (Zpos m) e) <= c * 2 ^ scale
  | S754_infinity s => s = true
  | S754_nan => False
  end.

(** [c <= x]. *)
Definition int_le_b64 (c : Z) (x : spec_float) : Prop :=
  match x with
  | S754_zero _ => c <= 0
  | S754_finite s m e => c * 2 ^ scale <= cond_Zopp s (scaled (Zpos m) e)
  | S754_infinity s => s = false
  | S754_nan => False
  end.


(** A binary64 number other than NaN: what a Python float that is not a
    NaN holds. *)
Definition b64_number (x : spec_float) : Prop :=
  valid_binary B64.prec B64.emax x = true /\ x <> S754_nan.

(** Not a NaN, and an exponent that a binary64 number can have. *)
Definition exp_ok (x : spec_float) : Prop :=
  match x with
  | S754_finite _ _ e => -1074 <= e
  | S754_nan => False
  | _ => True
  end.

(** The result [r] of rounding a positive value that is at most [c]
    (respectively at least [c]), with sign [sx]: its magnitude is still at
    most [c] (at least [c], or it overflowed to infinity). *)
Definition rounds_below (sx : bool) (c : Z) (r : spec_float) : Prop :=
  match r with
  | S754_zero s => s = sx
  | S754_finite s m e => s = sx /\ -1074 <= e /\ scaled (Zpos m) e <= c * 2 ^ scale
  | _ => False
  end.

Definition rounds_above (sx : bool) (c : Z) (r : spec_float) : Prop :=
  match r with
  | S754_zero s => s = sx /\ c = 0
  | S754_finite s m e => s = sx /\ -1074 <= e /\ c * 2 ^ scale <= scaled (Zpos m) e
  | S754_infinity s => s = sx
  | S754_nan => False
  end.








(** Coordinates far inside the range where every integer is a binary64
    number (a canvas is a few thousand pixels wide). *)
Definition box_in_range (b : Z * Z * Z * Z) : Prop :=
  let '(x1, y1, x2, y2) := b in
  - 2 ^ 40 <= x1 /\ x2 <= 2 ^ 40 /\ - 2 ^ 40 <= y1 /\ y2 <= 2 ^ 40.

Definition after_three_tenths : spec_float := S754_finite false 5404319552844596 (-54).

(** *** Round to nearest, ties to even

    On values scaled by [2^scale].  Around a non-negative value [U] the
    binary64 numbers are the multiples of [grid U] (53 significant bits, or
    the subnormal spacing 2^-1074); [rne U] is the nearest of them, the one
    with an even multiplier on a tie.  (Overflow to infinity is not part of
    [rne]: it is used below 2^1024 only.) *)
Definition grid (U : Z) : Z := 2 ^ Z.max (Z.log2 U + 1 - 53) (scale - 1074).

Definition rne (U : Z) : Z :=
  let G := grid U in
  let q := U / G in
  let rem := U mod G in
  if Z.ltb (2 * rem) G then q * G
  else if Z.eqb (2 * rem) G && Z.even q then q * G
  else (q + 1) * G.

Definition rne_signed (z : Z) : Z := if Z.leb 0 z then rne z else - rne (- z).

(** The value of a zero or of a finite number, scaled by [2^scale]. *)
Definition b64_scaled (x : spec_float) : Z :=
  match x with
  | S754_finite s m e => cond_Zopp s (scaled (Zpos m) e)
  | _ => 0
  end.

(** Zero or finite: neither an infinity nor NaN. *)
Definition b64_real (x : spec_float) : Prop :=
  match x with
  | S754_zero _ | S754_finite _ _ _ => True
  | _ => False
  end.

(** [x <= y] by value, between numbers that are zero or finite. *)
Definition b64_le (x y : spec_float) : Prop :=
  b64_real x /\ b64_real y /\ b64_scaled x <= b64_scaled y.


(** ** The bold-line heuristic as the specification words it

    A first line that has no leading indentation, no colon and no bracket. *)

Definition is_indentation (a : ascii) : bool :=
  Ascii.eqb a " " || Ascii.eqb a "009".

Definition is_bracket (a : ascii) : bool :=
  existsb (Ascii.eqb a) ["["; "]"; "("; ")"; "{"; "}"]%char.

Definition has_leading_indentation (line : string) : bool :=
  match line with
  | String a _ => is_indentation a
  | EmptyString => false
  end.

Definition claimed_bold (i : Z) (line : string) : bool :=
  Z.eqb i 0
  && negb (has_leading_indentation line)
  && negb (existsb (Ascii.eqb ":") (list_ascii_of_string line))
  && negb (existsb is_bracket (list_ascii_of_string line)).

Local Open Scope list_scope.

(** ** Vocabulary for the script's own data *)

(** [name] is a key of [entities] and of [positions]. *)
Definition known_name (name : string) : Prop :=
  In name (map fst entities) /\ is_Some (positions !! name).

Definition known_nameb (name : string) : bool :=
  existsb (String.eqb name) (map fst entities)
  && match positions !! name with Some _ => true | None => false end.

(** For each route of [routes()], in order: is its point sequence
    orthogonal? *)
Definition orthogonality_flags {num} `{PyNum num} : res (list bool) :=
  R ← routes entities positions;
  mret (map (route_orthogonal entities positions) R).

(** In binary64, on the script's data: do fractions 0.0 and 1.0 of [side] of
    [name] land exactly on the two corners of that side? *)
Definition corners_agree_b64 (name side : string) : bool :=
  match box entities positions name with
  | Ok b =>
      match edge_on b side (nlit 0 1 : spec_float), edge_on b side (nlit 1 1 : spec_float) with
      | Some (x0, y0), Some (x1, y1) =>
          let '(sx, sy) := side_start b side in
          let '(ex, ey) := side_end b side in
          (x0 =?! nint sx)%num && (y0 =?! nint sy)%num
          && (x1 =?! nint ex)%num && (y1 =?! nint ey)%num
      | _, _ => false
      end
  | Raise _ => false
  end.

(** The canvas the script saves, computed in binary64. *)
Definition saved_canvas : canvas spec_float :=
  match main entities positions notes with
  | Ok d => d
  | Raise _ => []
  end.

(** A schema with one entity of three attributes. *)
Definition three_attrs : list (string * list attr) :=
  [("E", [("id", "int", false); ("name", "string", false); ("ownerID", "int", true)])].

(** ** Fonts

    The script loads three TrueType fonts inside one [try]; a bare [except]
    then rebinds all three names to Pillow's default font. *)

Definition FONT_SIZE : Z := 16.
Definition HEADER_FONT_SIZE : Z := 18.
Definition NOTE_FONT_SIZE : Z := 14.

(** What a font name can be bound to. *)
Inductive font_obj :=
| TrueType (path : string) (size : Z)
| DefaultFont.

Section Fonts.
(** Whether [ImageFont.truetype(path, size)] returns rather than raises. *)
Variable readable : string -> Z -> bool.

Definition truetype (path : string) (size : Z) : option font_obj :=
  if readable path size then Some (TrueType path size) else None.

(** The bindings of (font, font_bold, font_note) after the try/except. *)
Definition load_fonts : font_obj * font_obj * font_obj :=
  match
    f ← truetype "arial.ttf" FONT_SIZE;
    fb ← truetype "arialbd.ttf" HEADER_FONT_SIZE;
    fn ← truetype "arial.ttf" NOTE_FONT_SIZE;
    Some (f, fb, fn)
  with
  | Some fonts => fonts
  | None => let f := DefaultFont in (f, f, f)
  end.

(** The font object a text call receives for a font name. *)
Definition font_of (v : font_var) : font_obj :=
  let '(f, fb, fn) := load_fonts in
  match v with
  | font => f
  | font_bold => fb
  | font_note => fn
  end.

End Fonts.

(** ** Vocabulary for the route table and the drawing procedures *)

(** The entities whose anchors [routes()] computes with [edge]. *)
Definition anchor_names : list string :=
  ["Conversation"; "Vector"; "Resource"; "Tool"; "Message"; "Agent";
   "Model"; "Providers"; "User"; "UserTool"; "AgentTool"; "Usages"].

(** The entities that are the source or the target of a route. *)
Definition route_names : list string :=
  ["Conversation"; "Message"; "Agent"; "User"; "Resource"; "Vector"; "Tool";
   "Prompt"; "Model"; "Providers"; "Roles"; "RolePolicy"; "Policy";
   "UserAgent"; "UserTool"; "AgentTool"; "Usages"].

(** The two ends of each route of [routes()], in order:
    (src, src_side, tgt, tgt_side, one_dir, crow_dir). *)
Definition route_ends : list (string * string * string * string * string * string) :=
  [("Conversation", "L", "Message", "R", "H", "R");
   ("Agent", "L", "Conversation", "R", "H", "L");
   ("Conversation", "B", "User", "T", "V", "D");
   ("Conversation", "T", "Resource", "B", "V", "U");
   ("Conversation", "T", "Vector", "B", "V", "U");
   ("Resource", "R", "Vector", "L", "H", "L");
   ("Resource", "R", "Tool", "L", "H", "L");
   ("Vector", "R", "Tool", "L", "H", "L");
   ("Message", "T", "Resource", "B", "V", "U");
   ("Agent", "R", "Prompt", "L", "H", "L");
   ("Agent", "R", "Model", "L", "H", "L");
   ("User", "T", "Agent", "B", "V", "U");
   ("Providers", "B", "Model", "T", "V", "D");
   ("User", "L", "Roles", "R", "H", "R");
   ("Roles", "B", "RolePolicy", "T", "V", "D");
   ("Policy", "T", "RolePolicy", "B", "V", "U");
   ("User", "R", "UserAgent", "L", "H", "L");
   ("Agent", "B", "UserAgent", "T", "V", "D");
   ("User", "R", "UserTool", "L", "H", "L");
   ("Tool", "L", "UserTool", "R", "H", "R");
   ("Tool", "L", "AgentTool", "R", "H", "R");
   ("Agent", "R", "AgentTool", "L", "H", "L");
   ("User", "B", "Usages", "L", "V", "L");
   ("Agent", "B", "Usages", "T", "V", "U");
   ("Message", "B", "Usages", "L", "V", "L");
   ("Model", "B", "Usages", "R", "V", "R")].

Definition ends_of {num} (r : route num)
  : string * string * string * string * string * string :=
  (src r, src_side r, tgt r, tgt_side r, one_dir r, crow_dir r).

(** When [m] returns, its value satisfies [P]. *)
Definition on_Ok {A} (P : A -> Prop) (m : res A) : Prop :=
  forall a, m = Ok a -> P a.

(** An exception out of [m] is the KeyError of an entity of [anchor_names]
    that has no box. *)
Definition raises_anchor (ents : list (string * list attr)) (poss : gmap string (Z * Z))
    {A} (m : res A) : Prop :=
  forall e, m = Raise e ->
  exists name, In name anchor_names /\ e = KeyError name /\ box ents poss name = Raise e.

(** A direction for which [draw_crow_foot] has a branch. *)
Definition valid_towardb (toward : string) : bool :=
  String.eqb toward "L" || String.eqb toward "R"
  || String.eqb toward "U" || String.eqb toward "D".

(** The route table of the script on the rationals ([[]] if it raises). *)
Definition script_routes : list (route Q) :=
  match routes entities positions with
  | Ok R => R
  | Raise _ => []
  end.

(** L and R are the vertical sides of a box. *)
Definition side_is_vertical (side : string) : bool :=
  String.eqb side "L" || String.eqb side "R".

(** The fifth route of the script (the first with a waypoint). *)
Definition fifth_route : route Q :=
  nth 4 script_routes
      (Route "Conversation" "L" (nlit 3 10) "Message" "R" (nlit 3 10) [] "H" "R").

Local Open Scope Q_scope.

(** Pairs (target side, crow_dir) for which the prongs of the crow's foot
    run from the anchor into the box, and those for which they run away
    from it. *)
Definition foot_inward (side toward : string) : bool :=
  (String.eqb side "R" && String.eqb toward "R")
  || (String.eqb side "L" && String.eqb toward "L")
  || (String.eqb side "T" && String.eqb toward "U")
  || (String.eqb side "B" && String.eqb toward "D").

Definition foot_outward (side toward : string) : bool :=
  (String.eqb side "R" && String.eqb toward "L")
  || (String.eqb side "L" && String.eqb toward "R")
  || (String.eqb side "T" && String.eqb toward "D")
  || (String.eqb side "B" && String.eqb toward "U").

(** The far end of a painted line lies in the closed rectangle [b]; lies
    outside it. *)
Definition line_end_in (b : Z * Z * Z * Z) (op : draw_op Q) : Prop :=
  match op with
  | line _ (Some e) _ _ => in_box b e
  | _ => False
  end.

Definition line_end_out (b : Z * Z * Z * Z) (op : draw_op Q) : Prop :=
  match op with
  | line _ (Some e) _ _ => ~ in_box b e
  | _ => False
  end.

(** The anchor [p] on [side] of [b] is at least 7 pixels from both ends of
    that side. *)
Definition clear_of_corners (b : Z * Z * Z * Z) (side : string) (p : Q * Q) : Prop :=
  let '(x1, y1, x2, y2) := b in
  if side_is_vertical side
  then inject_Z y1 + 7 <= snd p <= inject_Z y2 - 7
  else inject_Z x1 + 7 <= fst p <= inject_Z x2 - 7.

Local Close Scope Q_scope.

(** * Properties *)

(** ** The exception monad and loops *)

Lemma bind_inv_Ok {A B} (m : res A) (k : A -> res B) b :
  (m ≫= k) = Ok b -> exists a, m = Ok a /\ k a = Ok b.
Proof. destruct m as [a|e]; [eauto | discriminate]. Qed.

Section Facts.
Context {num : Type} `{PyNum num}.
Variable ents : list (string * list attr).
Variable poss : gmap string (Z * Z).

Local Abbreviation canvas := (canvas num).
Local Abbreviation route := (route num).
Local Abbreviation pt := (@pt num).

Local Arguments draw_ortho_line : simpl never.

Lemma for_each_app {A} (body : canvas -> A -> res canvas) c l1 l2 :
  for_each body c (l1 ++ l2) = (for_each body c l1 ≫= fun c' => for_each body c' l2).
Proof.
  revert c. induction l1 as [|a l1 IH]; intros c; simpl; [reflexivity|].
  destruct (body c a) as [c'|e]; simpl; [apply IH | reflexivity].
Qed.

(** A loop whose body raises on some element, whatever the canvas, raises. *)
Lemma for_each_raises {A} (body : canvas -> A -> res canvas) c l a :
  In a l -> (forall c', raises (body c' a)) -> raises (for_each body c l).
Proof.
  revert c. induction l as [|b l IH]; intros c Hin Hr; [destruct Hin|].
  simpl. destruct (body c b) as [c'|e] eqn:E.
  - destruct Hin as [-> | Hin]; [|apply IH; assumption].
    destruct (Hr c) as [e He]. congruence.
  - exists e. reflexivity.
Qed.

(** ** Geometry *)

Lemma pos_get_Some name p : poss !! name = Some p -> pos_get poss name = Ok p.
Proof. unfold pos_get. intros ->. reflexivity. Qed.

Lemma pos_get_None name : poss !! name = None -> pos_get poss name = Raise (KeyError name).
Proof. unfold pos_get. intros ->. reflexivity. Qed.

Lemma entity_h_eq name cols :
  dict_get ents name = Ok cols ->
  entity_h ents name = Ok (HEADER_H + Z.of_nat (length cols) * ROW_H + 2).
Proof. unfold entity_h. intros ->. reflexivity. Qed.

Lemma box_eq name cols x y :
  dict_get ents name = Ok cols -> poss !! name = Some (x, y) ->
  box ents poss name
  = Ok (x, y, x + BOX_W, y + (HEADER_H + Z.of_nat (length cols) * ROW_H + 2)).
Proof.
  intros Hc Hp. unfold box. rewrite (pos_get_Some _ _ Hp). simpl.
  rewrite (entity_h_eq _ _ Hc). reflexivity.
Qed.

(** A box has a positive width and a positive height. *)
Lemma box_inv name x1 y1 x2 y2 :
  box ents poss name = Ok (x1, y1, x2, y2) -> x1 < x2 /\ y1 < y2.
Proof.
  unfold box, entity_h. intros Hb.
  apply bind_inv_Ok in Hb as ([x y] & _ & Hb).
  apply bind_inv_Ok in Hb as (h & Hh & Hb).
  apply bind_inv_Ok in Hh as (cols & _ & Hh).
  injection Hh as <-. injection Hb as <- <- <- <-.
  unfold BOX_W, COL_W, TYPE_W, HEADER_H, ROW_H. lia.
Qed.

Lemma box_no_position name :
  poss !! name = None -> box ents poss name = Raise (KeyError name).
Proof. intros Hp. unfold box. rewrite (pos_get_None _ Hp). reflexivity. Qed.

Lemma edge_no_position name side (frac : num) :
  poss !! name = None -> edge ents poss name side frac = Raise (KeyError name).
Proof. intros Hp. unfold edge. rewrite (box_no_position _ Hp). reflexivity. Qed.

Lemma edge_eq name side (frac : num) b :
  box ents poss name = Ok b -> edge ents poss name side frac = Ok (edge_on b side frac).
Proof. intros Hb. unfold edge. rewrite Hb. reflexivity. Qed.

(** ** Box height *)

(** C3.  For every entity with n attributes the box height is exactly
    header height + n * row height + margin, with header height 30, row
    height 24 and margin 2 (so 104 for 3 attributes), and [box] returns
    (x, y, x + BOX_W, y + height) for the entity's position (x, y). *)
Theorem box_height_exact name cols x y :
  dict_get ents name = Ok cols ->
  poss !! name = Some (x, y) ->
  let n := Z.of_nat (length cols) in
  entity_h ents name = Ok (HEADER_H + n * ROW_H + 2)
  /\ box ents poss name = Ok (x, y, x + BOX_W, y + (HEADER_H + n * ROW_H + 2))
  /\ HEADER_H = 30 /\ ROW_H = 24
  /\ (n = 3 -> entity_h ents name = Ok 104).
Proof.
  intros Hc Hp n. pose proof (entity_h_eq _ _ Hc) as Hh. fold n in Hh.
  split; [exact Hh|]. split; [exact (box_eq _ _ _ _ Hc Hp)|].
  split; [reflexivity|]. split; [reflexivity|].
  intros Hn. rewrite Hh, Hn. reflexivity.
Qed.

(** ** Missing positions *)

Lemma draw_relationship_src_raises c (r : route) e :
  edge ents poss (src r) (src_side r) (src_frac r) = Raise e ->
  draw_relationship ents poss c r = Raise e.
Proof. intros He. unfold draw_relationship. rewrite He. reflexivity. Qed.

Lemma draw_relationship_tgt_raises c (r : route) sp e :
  edge ents poss (src r) (src_side r) (src_frac r) = Ok sp ->
  edge ents poss (tgt r) (tgt_side r) (tgt_frac r) = Raise e ->
  draw_relationship ents poss c r = Raise e.
Proof. intros Hs He. unfold draw_relationship. rewrite Hs. simpl. rewrite He. reflexivity. Qed.

Lemma draw_relationship_no_position c (r : route) name :
  poss !! name = None -> src r = name \/ tgt r = name ->
  raises (draw_relationship ents poss c r).
Proof.
  intros Hp Hr.
  destruct (edge ents poss (src r) (src_side r) (src_frac r)) as [sp|e] eqn:Es.
  - destruct Hr as [Hr|Hr].
    + rewrite Hr, (edge_no_position _ _ _ Hp) in Es. discriminate.
    + exists (KeyError name). apply (draw_relationship_tgt_raises _ _ sp); [exact Es|].
      rewrite Hr. apply edge_no_position, Hp.
  - exists e. apply draw_relationship_src_raises, Es.
Qed.

Lemma render_relationships_raise nts R e :
  for_each (draw_relationship ents poss) [] R = Raise e ->
  render ents poss nts R = Raise e.
Proof. intros Hr. unfold render. rewrite Hr. reflexivity. Qed.

(** C4.  An entity name with no Position entry makes [box], [edge] and
    [draw_entity] raise KeyError, never a default point; a route table that
    holds a Route naming such an entity aborts the run, and the exception is
    the KeyError for that name when the routes before it were drawn. *)
Theorem missing_position_fails_loudly nts name :
  poss !! name = None ->
  box ents poss name = Raise (KeyError name)
  /\ (forall side (frac : num), edge ents poss name side frac = Raise (KeyError name))
  /\ (forall c : canvas, draw_entity ents poss c name = Raise (KeyError name))
  /\ (forall c (r : route), src r = name ->
        draw_relationship ents poss c r = Raise (KeyError name))
  /\ (forall c (r : route), tgt r = name ->
        is_Ok (edge ents poss (src r) (src_side r) (src_frac r)) ->
        draw_relationship ents poss c r = Raise (KeyError name))
  /\ (forall (R : list route) r, In r R -> src r = name \/ tgt r = name ->
        raises (render ents poss nts R))
  /\ (forall (R1 R2 : list route) r c1,
        for_each (draw_relationship ents poss) [] R1 = Ok c1 ->
        src r = name \/
          (tgt r = name /\ is_Ok (edge ents poss (src r) (src_side r) (src_frac r))) ->
        render ents poss nts (R1 ++ r :: R2) = Raise (KeyError name)).
Proof.
  intros Hp.
  assert (Hsrc : forall c (r : route), src r = name ->
            draw_relationship ents poss c r = Raise (KeyError name)).
  { intros c r Hr. apply draw_relationship_src_raises.
    rewrite Hr. apply edge_no_position, Hp. }
  assert (Htgt : forall c (r : route), tgt r = name ->
            is_Ok (edge ents poss (src r) (src_side r) (src_frac r)) ->
            draw_relationship ents poss c r = Raise (KeyError name)).
  { intros c r Hr [sp Hs]. apply (draw_relationship_tgt_raises _ _ sp _ Hs).
    rewrite Hr. apply edge_no_position, Hp. }
  repeat split.
  - apply box_no_position, Hp.
  - intros side frac. apply edge_no_position, Hp.
  - intros c. unfold draw_entity. rewrite (pos_get_None _ Hp). reflexivity.
  - exact Hsrc.
  - exact Htgt.
  - intros R r Hin Hr.
    destruct (for_each_raises (draw_relationship ents poss) [] R r Hin) as [e He].
    + intros c. apply (draw_relationship_no_position c r name Hp Hr).
    + exists e. apply render_relationships_raise, He.
  - intros R1 R2 r c1 H1 Hr. apply render_relationships_raise.
    rewrite for_each_app, H1. simpl.
    destruct Hr as [Hr|[Hr Hs]]; [rewrite (Hsrc c1 r Hr) | rewrite (Htgt c1 r Hr Hs)];
      reflexivity.
Qed.

(** [route_points] is the list [draw_relationship] hands to
    [draw_ortho_line]. *)
Lemma draw_relationship_points c (r : route) points :
  route_points ents poss r = Ok points ->
  exists sp tp,
    points = polyline sp (waypoints r) tp
    /\ draw_relationship ents poss c r
       = (c ← draw_ortho_line c points;
          c' ← draw_source_mark c (one_dir r) (src_side r) sp;
          x ← item0 tp; y ← item1 tp;
          mret (draw_crow_foot c' x y (crow_dir r))).
Proof.
  unfold route_points, draw_relationship. intros Hp.
  apply bind_inv_Ok in Hp as (sp & -> & Hp).
  apply bind_inv_Ok in Hp as (tp & -> & Hp).
  injection Hp as <-. exists sp, tp. split; reflexivity.
Qed.

(** ** Sides *)

Lemma valid_sideb_spec side : valid_sideb side = true <-> valid_side side.
Proof.
  unfold valid_sideb, valid_side.
  rewrite !orb_true_iff, !String.eqb_eq. tauto.
Qed.

Lemma edge_on_valid_side b side (frac : num) :
  valid_side side -> exists p, edge_on b side frac = Some p.
Proof.
  destruct b as [[[x1 y1] x2] y2].
  intros [-> | [-> | [-> | ->]]]; eexists; reflexivity.
Qed.

Lemma edge_on_invalid_side b side (frac : num) :
  ~ valid_side side -> edge_on b side frac = None.
Proof.
  destruct b as [[[x1 y1] x2] y2]. unfold valid_side, edge_on. intros Hn.
  destruct (String.eqb_spec side "L"); [tauto|].
  destruct (String.eqb_spec side "R"); [tauto|].
  destruct (String.eqb_spec side "T"); [tauto|].
  destruct (String.eqb_spec side "B"); [tauto|].
  reflexivity.
Qed.

Lemma Forall_route_sides_valid (R : list route) :
  forallb (fun r => valid_sideb (src_side r) && valid_sideb (tgt_side r)) R = true ->
  Forall route_sides_valid R.
Proof.
  rewrite forallb_forall, List.Forall_forall. intros Hb r Hr.
  specialize (Hb r Hr). apply andb_true_iff in Hb as [Hs Ht].
  split; apply valid_sideb_spec; assumption.
Qed.

(** With a valid side letter [edge] raises KeyError or returns a point. *)
Lemma edge_valid_cases name side (frac : num) :
  valid_side side ->
  (exists k, edge ents poss name side frac = Raise (KeyError k))
  \/ (exists x y, edge ents poss name side frac = Ok (Some (x, y))).
Proof.
  intros Hs. unfold edge, box, entity_h, pos_get, dict_get.
  destruct (poss !! name) as [[x y]|]; simpl; [|eauto].
  destruct (List.find _ ents) as [kv|]; simpl; [|eauto].
  right. destruct Hs as [-> | [-> | [-> | ->]]]; simpl; eauto.
Qed.

Lemma safe_bind {A B} (P : A -> Prop) (Q : B -> Prop) (m : res A) (k : A -> res B) :
  safe P m -> (forall a, P a -> safe Q (k a)) -> safe Q (m ≫= k).
Proof. destruct m as [a|[key| |]]; simpl; auto. Qed.

Lemma safe_bind_edge {B} (Q : B -> Prop) name side (frac : num) (k : option pt -> res B) :
  valid_side side ->
  (forall x y, safe Q (k (Some (x, y)))) ->
  safe Q (edge ents poss name side frac ≫= k).
Proof.
  intros Hs Hk.
  destruct (edge_valid_cases name side frac Hs) as [[key ->] | (x & y & ->)];
    [exact I | apply Hk].
Qed.

Lemma safe_bind_item0 {B} (Q : B -> Prop) (x y : num) (k : num -> res B) :
  safe Q (k x) -> safe Q (item0 (Some (x, y)) ≫= k).
Proof. trivial. Qed.

Lemma safe_bind_item1 {B} (Q : B -> Prop) (x y : num) (k : num -> res B) :
  safe Q (k y) -> safe Q (item1 (Some (x, y)) ≫= k).
Proof. trivial. Qed.

Lemma safe_not_TypeError {A} (Q : A -> Prop) (m : res A) :
  safe Q m -> m <> Raise TypeError.
Proof. intros Hs ->. exact Hs. Qed.

Lemma safe_Ok {A} (Q : A -> Prop) (m : res A) a : safe Q m -> m = Ok a -> Q a.
Proof. intros Hs ->. exact Hs. Qed.

Ltac valid_side_tac := unfold valid_side; auto 6.

(** Whatever the schema and the layout, [routes()] subscripts no None, and
    the records it builds carry valid side letters. *)
Lemma routes_safe : safe (Forall route_sides_valid) (routes ents poss).
Proof.
  unfold routes. cbv zeta.
  repeat first [ apply safe_bind_edge; [valid_side_tac | intros ? ?]
               | apply safe_bind_item0
               | apply safe_bind_item1 ].
  apply Forall_route_sides_valid. reflexivity.
Qed.

Lemma draw_source_mark_Some c d side (x y : num) :
  is_Ok (draw_source_mark c d side (Some (x, y))).
Proof.
  unfold draw_source_mark.
  destruct (String.eqb d "H"), (String.eqb side "R"), (String.eqb side "L"),
           (String.eqb side "T"), (String.eqb side "B"); eexists; reflexivity.
Qed.

(** *** What one relationship paints *)

Lemma polyline_Some (sp tp : pt) (wps : list pt) :
  polyline (Some sp) wps (Some tp) = map Some (sp :: wps ++ [tp]).
Proof. unfold polyline. simpl. rewrite map_app. reflexivity. Qed.

Lemma draw_ortho_line_Some (pts : list pt) (c : canvas) :
  draw_ortho_line c (map Some pts) = Ok (c ++ segments pts).
Proof.
  revert c. induction pts as [|p pts IH]; intros c.
  - simpl. rewrite app_nil_r. reflexivity.
  - destruct pts as [|q pts].
    + simpl. rewrite app_nil_r. reflexivity.
    + change (draw_ortho_line c (map Some (p :: q :: pts)))
        with (draw_ortho_line (paint c (line (Some p) (Some q) LINE_COLOR (Some 1)))
                (map Some (q :: pts))).
      rewrite IH. unfold paint. rewrite <- app_assoc. reflexivity.
Qed.

Lemma draw_ortho_line_None_start (q : option pt) rest (c : canvas) :
  draw_ortho_line c (None :: q :: rest) = Raise ValueError.
Proof. reflexivity. Qed.

Lemma draw_ortho_line_None_end (pts : list pt) (c : canvas) :
  pts <> [] -> draw_ortho_line c (map Some pts ++ [None]) = Raise ValueError.
Proof.
  revert c. induction pts as [|p pts IH]; intros c Hne; [congruence|].
  destruct pts as [|q pts]; [reflexivity|].
  change (draw_ortho_line c (map Some (p :: q :: pts) ++ [None]))
    with (draw_ortho_line (paint c (line (Some p) (Some q) LINE_COLOR (Some 1)))
            (map Some (q :: pts) ++ [None])).
  apply IH. discriminate.
Qed.

Lemma draw_source_mark_ops (c : canvas) d side (sp : pt) :
  draw_source_mark c d side (Some sp) = Ok (c ++ one_mark_of side sp).
Proof.
  destruct sp as [x y]. unfold draw_source_mark, one_mark_of.
  destruct (String.eqb_spec side "R") as [-> | _];
    [destruct (String.eqb d "H"); reflexivity|].
  destruct (String.eqb_spec side "L") as [-> | _];
    [destruct (String.eqb d "H"); reflexivity|].
  destruct (String.eqb_spec side "T") as [-> | _];
    [destruct (String.eqb d "H"); reflexivity|].
  destruct (String.eqb_spec side "B") as [-> | _];
    [destruct (String.eqb d "H"); reflexivity|].
  destruct (String.eqb d "H"); simpl; rewrite app_nil_r; reflexivity.
Qed.

Lemma draw_crow_foot_ops (c : canvas) (x y : num) toward :
  draw_crow_foot c x y toward = c ++ crow_foot_of toward (x, y).
Proof.
  unfold draw_crow_foot, crow_foot_of, paint.
  destruct (String.eqb toward "L"); [rewrite <- !app_assoc; reflexivity|].
  destruct (String.eqb toward "R"); [rewrite <- !app_assoc; reflexivity|].
  destruct (String.eqb toward "U"); [rewrite <- !app_assoc; reflexivity|].
  destruct (String.eqb toward "D"); [rewrite <- !app_assoc; reflexivity|].
  rewrite app_nil_r. reflexivity.
Qed.

(** With both anchors in hand a relationship paints its polyline, its
    mark and its crow's foot on top of what is there. *)
Lemma draw_relationship_ops c (r : route) (sp tp : pt) :
  edge ents poss (src r) (src_side r) (src_frac r) = Ok (Some sp) ->
  edge ents poss (tgt r) (tgt_side r) (tgt_frac r) = Ok (Some tp) ->
  draw_relationship ents poss c r = Ok (c ++ route_ops r sp tp).
Proof.
  intros Es Et. unfold draw_relationship. rewrite Es, Et.
  cbn [mbind res_bind]. cbv zeta.
  rewrite polyline_Some, draw_ortho_line_Some. cbn [mbind res_bind].
  rewrite draw_source_mark_ops. cbn [mbind res_bind].
  destruct tp as [tx ty]. cbn [item0 item1 mbind res_bind mret res_ret].
  rewrite draw_crow_foot_ops. unfold route_ops.
  rewrite <- !app_assoc. reflexivity.
Qed.

(** An anchor that is [None] stops the polyline: Pillow raises. *)
Lemma draw_relationship_None c (r : route) sp tp :
  edge ents poss (src r) (src_side r) (src_frac r) = Ok sp ->
  edge ents poss (tgt r) (tgt_side r) (tgt_frac r) = Ok tp ->
  sp = None \/ tp = None ->
  draw_relationship ents poss c r = Raise ValueError.
Proof.
  intros Es Et Hn. unfold draw_relationship. rewrite Es, Et.
  cbn [mbind res_bind]. cbv zeta.
  destruct sp as [sp|].
  - destruct Hn as [Hn | ->]; [discriminate|].
    unfold polyline.
    change ([Some sp] ++ map Some (waypoints r) ++ [None])%list
      with (map Some (sp :: waypoints r) ++ [None])%list.
    rewrite draw_ortho_line_None_end by discriminate. reflexivity.
  - unfold polyline. destruct (map Some (waypoints r) ++ [tp])%list eqn:E.
    + destruct (map Some (waypoints r)); discriminate.
    + reflexivity.
Qed.

Lemma draw_relationship_inv c (r : route) c' :
  draw_relationship ents poss c r = Ok c' ->
  exists sp tp : pt,
    edge ents poss (src r) (src_side r) (src_frac r) = Ok (Some sp)
    /\ edge ents poss (tgt r) (tgt_side r) (tgt_frac r) = Ok (Some tp)
    /\ c' = c ++ route_ops r sp tp.
Proof.
  intros Hd.
  destruct (edge ents poss (src r) (src_side r) (src_frac r)) as [sp|e] eqn:Es;
    [|unfold draw_relationship in Hd; rewrite Es in Hd; discriminate].
  destruct (edge ents poss (tgt r) (tgt_side r) (tgt_frac r)) as [tp|e] eqn:Et;
    [|unfold draw_relationship in Hd; rewrite Es, Et in Hd; discriminate].
  destruct sp as [sp|];
    [|rewrite (draw_relationship_None c r None tp Es Et) in Hd; [discriminate | auto]].
  destruct tp as [tp|];
    [|rewrite (draw_relationship_None c r (Some sp) None Es Et) in Hd; [discriminate | auto]].
  exists sp, tp. rewrite (draw_relationship_ops c r sp tp Es Et) in Hd.
  injection Hd as <-. auto.
Qed.

Lemma draw_relationship_safe c (r : route) :
  route_sides_valid r -> safe (fun _ => True) (draw_relationship ents poss c r).
Proof.
  intros [Hs Ht].
  destruct (edge_valid_cases (src r) (src_side r) (src_frac r) Hs)
    as [[key Es] | (sx & sy & Es)].
  { unfold draw_relationship. rewrite Es. exact I. }
  destruct (edge_valid_cases (tgt r) (tgt_side r) (tgt_frac r) Ht)
    as [[key Et] | (tx & ty & Et)].
  { unfold draw_relationship. rewrite Es, Et. exact I. }
  rewrite (draw_relationship_ops c r _ _ Es Et). exact I.
Qed.

Lemma draw_entity_safe c name : safe (fun _ => True) (draw_entity ents poss c name).
Proof.
  unfold draw_entity, entity_h, pos_get, dict_get.
  destruct (poss !! name) as [[x y]|]; simpl; [|exact I].
  destruct (List.find _ ents) as [kv|]; simpl; exact I.
Qed.

Lemma for_each_safe {A} (body : canvas -> A -> res canvas) (l : list A) :
  (forall c a, In a l -> safe (fun _ => True) (body c a)) ->
  forall c, safe (fun _ => True) (for_each body c l).
Proof.
  induction l as [|a l IH]; intros Hb c; simpl; [exact I|].
  apply (safe_bind (fun _ => True)); [apply Hb; left; reflexivity|].
  intros c' _. apply IH. intros c'' b Hin. apply Hb. right. exact Hin.
Qed.

Lemma render_safe nts (R : list route) :
  Forall route_sides_valid R -> safe (fun _ => True) (render ents poss nts R).
Proof.
  intros HR. unfold render. cbv zeta.
  apply (safe_bind (fun _ => True)).
  { apply for_each_safe. intros c r Hin. apply draw_relationship_safe.
    rewrite List.Forall_forall in HR. apply HR, Hin. }
  intros d1 _. apply (safe_bind (fun _ => True)).
  { apply for_each_safe. intros c name _. apply draw_entity_safe. }
  intros d2 _. apply (safe_bind (fun _ => True)).
  { apply for_each_safe. intros c n _. exact I. }
  intros d3 _. exact I.
Qed.

Lemma main_safe nts : safe (fun _ => True) (main ents poss nts).
Proof.
  unfold main. apply (safe_bind _ _ _ _ routes_safe).
  intros R HR. apply render_safe, HR.
Qed.

(** C9.  For an entity that has a box, [edge] with a side string outside
    L, R, T, B returns None without raising; with one of the four letters it
    never returns None.  Every call passes one of the four letters: the calls
    inside [routes()] are written with them and the route records carry them,
    for whatever schema and layout, so no run subscripts a None (which would
    raise TypeError).  On the script's own data the run ends normally. *)
Theorem edge_unknown_side_returns_None :
  (forall name side (frac : num) b,
     box ents poss name = Ok b -> ~ valid_side side ->
     edge ents poss name side frac = Ok None)
  /\ (forall name side (frac : num),
        valid_side side -> edge ents poss name side frac <> Ok None)
  /\ (forall name side (frac : num) b,
        box ents poss name = Ok b -> valid_side side ->
        exists p, edge ents poss name side frac = Ok (Some p))
  /\ (forall p : option pt, p = None -> item0 p = Raise TypeError /\ item1 p = Raise TypeError)
  /\ (forall R : list route, routes ents poss = Ok R -> Forall route_sides_valid R)
  /\ routes ents poss <> Raise TypeError
  /\ (forall nts, main ents poss nts <> Raise TypeError)
  /\ is_Ok (main (num:=num) entities positions notes).
Proof.
  split; [|split; [|split; [|split; [|split; [|split; [|split]]]]]].
  - intros name side frac b Hb Hs.
    rewrite (edge_eq _ _ _ _ Hb), (edge_on_invalid_side _ _ _ Hs). reflexivity.
  - intros name side frac Hs.
    destruct (edge_valid_cases name side frac Hs) as [[k ->] | (x & y & ->)]; discriminate.
  - intros name side frac b Hb Hs.
    destruct (edge_on_valid_side b side frac Hs) as [p Hp].
    exists p. rewrite (edge_eq _ _ _ _ Hb), Hp. reflexivity.
  - intros p ->. split; reflexivity.
  - intros R. apply (safe_Ok _ _ _ routes_safe).
  - apply (safe_not_TypeError _ _ routes_safe).
  - intros nts. apply (safe_not_TypeError _ _ (main_safe nts)).
  - eexists. vm_compute. reflexivity.
Qed.

(** ** The one mark *)

Lemma draw_source_mark_one_dir c d d' side (sp : option pt) :
  draw_source_mark c d side sp = draw_source_mark c d' side sp.
Proof.
  unfold draw_source_mark.
  destruct (String.eqb_spec side "R") as [-> | nR];
    [destruct (String.eqb d "H"), (String.eqb d' "H"); reflexivity|].
  destruct (String.eqb_spec side "L") as [-> | nL];
    [destruct (String.eqb d "H"), (String.eqb d' "H"); reflexivity|].
  destruct (String.eqb_spec side "T") as [-> | nT];
    [destruct (String.eqb d "H"), (String.eqb d' "H"); reflexivity|].
  destruct (String.eqb_spec side "B") as [-> | nB];
    destruct (String.eqb d "H"), (String.eqb d' "H"); reflexivity.
Qed.

Lemma draw_relationship_one_dir c d (r : route) :
  draw_relationship ents poss c (with_one_dir d r) = draw_relationship ents poss c r.
Proof.
  unfold draw_relationship, with_one_dir. simpl.
  destruct (edge ents poss (src r) (src_side r) (src_frac r)) as [sp|e]; [|reflexivity].
  simpl. destruct (edge ents poss (tgt r) (tgt_side r) (tgt_frac r)) as [tp|e]; [|reflexivity].
  simpl. destruct (draw_ortho_line c (polyline sp (waypoints r) tp)) as [c'|e];
    [|reflexivity].
  simpl. rewrite (draw_source_mark_one_dir _ d (one_dir r)). reflexivity.
Qed.

(** C10.  The one mark does not depend on [one_dir]: both branches of
    [draw_relationship] place the same tick, 12 pixels outward from the
    source anchor (left of an L anchor, right of an R anchor, above a T
    anchor, below a B anchor), so changing the [one_dir] of a route, or of
    every route of a table, leaves the drawing unchanged. *)
Theorem one_mark_independent_of_one_dir :
  (forall c d d' side (sp : option pt),
     draw_source_mark c d side sp = draw_source_mark c d' side sp)
  /\ (forall c d (x y : num),
        draw_source_mark c d "L" (Some (x, y))
        = Ok (paint c (line (Some (x -! nint 12, y -! nint 8))
                            (Some (x -! nint 12, y +! nint 8)) LINE_COLOR (Some 2)))
        /\ draw_source_mark c d "R" (Some (x, y))
           = Ok (paint c (line (Some (x +! nint 12, y -! nint 8))
                               (Some (x +! nint 12, y +! nint 8)) LINE_COLOR (Some 2)))
        /\ draw_source_mark c d "T" (Some (x, y))
           = Ok (paint c (line (Some (x -! nint 8, y -! nint 12))
                               (Some (x +! nint 8, y -! nint 12)) LINE_COLOR (Some 2)))
        /\ draw_source_mark c d "B" (Some (x, y))
           = Ok (paint c (line (Some (x -! nint 8, y +! nint 12))
                               (Some (x +! nint 8, y +! nint 12)) LINE_COLOR (Some 2))))%num
  /\ (forall c d (r : route),
        draw_relationship ents poss c (with_one_dir d r) = draw_relationship ents poss c r)
  /\ (forall nts (d : route -> string) (R : list route),
        render ents poss nts (map (fun r => with_one_dir (d r) r) R)
        = render ents poss nts R).
Proof.
  split; [exact draw_source_mark_one_dir|]. split; [|split].
  - intros c d x y. unfold draw_source_mark.
    destruct (String.eqb d "H"); repeat split; reflexivity.
  - exact draw_relationship_one_dir.
  - intros nts d R. unfold render. cbv zeta. f_equal.
    generalize ([] : canvas). induction R as [|r R IH]; intros c; simpl; [reflexivity|].
    rewrite draw_relationship_one_dir.
    destruct (draw_relationship ents poss c r) as [c'|e]; simpl; [apply IH | reflexivity].
Qed.

(** ** Drawing only appends to the canvas *)

Lemma paint_frame (c l : canvas) op : paint (c ++ l) op = (c ++ paint l op)%list.
Proof. unfold paint. symmetry. apply List.app_assoc. Qed.

Lemma draw_columns_frame cols (c l : canvas) x y i :
  draw_columns (c ++ l) x y i cols = (c ++ draw_columns l x y i cols)%list.
Proof.
  revert l i. induction cols as [|[[cn ct] fk] cols IH]; intros l i; simpl; [reflexivity|].
  rewrite !paint_frame. apply IH.
Qed.

Lemma draw_entity_frame (c l : canvas) name :
  draw_entity ents poss (c ++ l) name = shift c (draw_entity ents poss l name).
Proof.
  unfold draw_entity.
  destruct (pos_get poss name) as [[x y]|e]; [simpl|reflexivity].
  destruct (dict_get ents name) as [cols|e]; [simpl|reflexivity].
  destruct (entity_h ents name) as [h|e]; [simpl|reflexivity].
  rewrite !paint_frame, draw_columns_frame, paint_frame. reflexivity.
Qed.

Lemma draw_note_lines_frame lines (c l : canvas) x y i :
  draw_note_lines (c ++ l) x y i lines = (c ++ draw_note_lines l x y i lines)%list.
Proof.
  revert l i. induction lines as [|ln lines IH]; intros l i; simpl; [reflexivity|].
  rewrite paint_frame. apply IH.
Qed.

Lemma draw_note_frame (c l : canvas) n :
  draw_note (c ++ l) n = (c ++ draw_note l n)%list.
Proof.
  destruct n as [[[x y] w] lines]. unfold draw_note.
  rewrite paint_frame. apply draw_note_lines_frame.
Qed.

Lemma draw_ortho_line_frame points (c l : canvas) :
  draw_ortho_line (c ++ l) points = shift c (draw_ortho_line l points).
Proof.
  revert l. induction points as [|p points IH]; intros l; [reflexivity|].
  destruct points as [|q points]; [reflexivity|].
  destruct p as [p|], q as [q|]; try reflexivity.
  change (draw_ortho_line (paint (c ++ l) (line (Some p) (Some q) LINE_COLOR (Some 1)))
            (Some q :: points)
          = shift c (draw_ortho_line (paint l (line (Some p) (Some q) LINE_COLOR (Some 1)))
                       (Some q :: points))).
  rewrite paint_frame. apply IH.
Qed.

Lemma draw_one_mark_frame (c l : canvas) x y d :
  draw_one_mark (c ++ l) x y d = (c ++ draw_one_mark l x y d)%list.
Proof. unfold draw_one_mark. destruct (String.eqb d "H"); apply paint_frame. Qed.

Lemma draw_crow_foot_frame (c l : canvas) x y d :
  draw_crow_foot (c ++ l) x y d = (c ++ draw_crow_foot l x y d)%list.
Proof.
  unfold draw_crow_foot.
  repeat (match goal with |- context [String.eqb d ?s] => destruct (String.eqb d s) end;
          [rewrite !paint_frame; reflexivity|]).
  reflexivity.
Qed.

Lemma draw_source_mark_frame (c l : canvas) d side sp :
  draw_source_mark (c ++ l) d side sp = shift c (draw_source_mark l d side sp).
Proof.
  unfold draw_source_mark.
  destruct sp as [[x y]|]; simpl;
    destruct (String.eqb d "H");
    destruct (String.eqb side "R"), (String.eqb side "L"),
             (String.eqb side "T"), (String.eqb side "B");
    simpl; rewrite ?draw_one_mark_frame; reflexivity.
Qed.


Lemma draw_relationship_frame (c l : canvas) r :
  draw_relationship ents poss (c ++ l) r = shift c (draw_relationship ents poss l r).
Proof.
  unfold draw_relationship.
  destruct (edge ents poss (src r) (src_side r) (src_frac r)) as [sp|e]; [simpl|reflexivity].
  destruct (edge ents poss (tgt r) (tgt_side r) (tgt_frac r)) as [tp|e]; [simpl|reflexivity].
  rewrite draw_ortho_line_frame.
  destruct (draw_ortho_line l (polyline sp (waypoints r) tp)) as [c0|e];
    [simpl|reflexivity].
  rewrite draw_source_mark_frame.
  destruct (draw_source_mark _ (one_dir r) (src_side r) sp) as [c1|e]; [simpl|reflexivity].
  destruct tp as [[x y]|]; simpl; [|reflexivity].
  rewrite draw_crow_foot_frame. reflexivity.
Qed.

Lemma for_each_frame {A} (body : canvas -> A -> res canvas) :
  (forall c l a, body (c ++ l)%list a = shift c (body l a)) ->
  forall xs c l, for_each body (c ++ l)%list xs = shift c (for_each body l xs).
Proof.
  intros Hb xs. induction xs as [|a xs IH]; intros c l; simpl; [reflexivity|].
  rewrite Hb. destruct (body l a) as [l'|e]; simpl; [apply IH | reflexivity].
Qed.

(** A loop that ends normally has painted, item after item, what its body
    paints for that item on an empty canvas. *)
Lemma for_each_concat {A} (body : canvas -> A -> res canvas) :
  (forall c l a, body (c ++ l)%list a = shift c (body l a)) ->
  forall xs d, for_each body [] xs = Ok d ->
  exists es, Forall2 (fun a e => body [] a = Ok e) xs es /\ d = concat es.
Proof.
  intros Hb xs. induction xs as [|a xs IH]; intros d Hd; simpl in Hd.
  - injection Hd as <-. exists []. split; [constructor | reflexivity].
  - destruct (body [] a) as [e|?] eqn:Ea; [simpl in Hd | discriminate].
    rewrite <- (List.app_nil_r e), (for_each_frame body Hb) in Hd.
    destruct (for_each body [] xs) as [d'|?]; [simpl in Hd | discriminate].
    injection Hd as <-. destruct (IH d' eq_refl) as (es & Hes & ->).
    exists (e :: es). split; [constructor; assumption | reflexivity].
Qed.

Lemma for_each_shift {A} (body : canvas -> A -> res canvas) :
  (forall c l a, body (c ++ l)%list a = shift c (body l a)) ->
  forall xs c, for_each body c xs = shift c (for_each body [] xs).
Proof.
  intros Hb xs c. rewrite <- (List.app_nil_r c) at 1. apply for_each_frame, Hb.
Qed.

(** ** Layering *)

Lemma shift_inv_Ok (c : canvas) m d :
  shift c m = Ok d -> exists e, m = Ok e /\ d = c ++ e.
Proof. destruct m as [e|?]; [|discriminate]. intros [= <-]. eauto. Qed.

Lemma note_body_frame (c l : canvas) (n : note) :
  Ok (draw_note (c ++ l) n) = shift c (Ok (draw_note l n)).
Proof. simpl. rewrite draw_note_frame. reflexivity. Qed.

Lemma draw_columns_ops cols (c : canvas) x y i :
  draw_columns c x y i cols = c ++ row_ops x y i cols.
Proof.
  revert c i. induction cols as [|[[cn ct] fk] cols IH]; intros c i; simpl.
  - rewrite app_nil_r. reflexivity.
  - rewrite IH. unfold paint. rewrite <- !app_assoc. reflexivity.
Qed.

Lemma draw_entity_ops (c : canvas) name x y cols :
  poss !! name = Some (x, y) -> dict_get ents name = Ok cols ->
  draw_entity ents poss c name = Ok (c ++ entity_ops x y name cols).
Proof.
  intros Hp Hc. unfold draw_entity, entity_h.
  rewrite (pos_get_Some _ _ Hp), Hc. cbn [mbind res_bind mret res_ret].
  rewrite draw_columns_ops. unfold entity_ops, paint.
  rewrite <- !app_assoc. reflexivity.
Qed.

Lemma draw_entity_inv (c c' : canvas) name :
  draw_entity ents poss c name = Ok c' ->
  exists x y cols,
    poss !! name = Some (x, y) /\ dict_get ents name = Ok cols
    /\ c' = c ++ entity_ops x y name cols.
Proof.
  intros Hd.
  destruct (poss !! name) as [[x y]|] eqn:Hp;
    [|unfold draw_entity in Hd; rewrite (pos_get_None _ Hp) in Hd; discriminate].
  destruct (dict_get ents name) as [cols|e] eqn:Hc;
    [|unfold draw_entity in Hd; rewrite (pos_get_Some _ _ Hp), Hc in Hd; discriminate].
  rewrite (draw_entity_ops c name x y cols Hp Hc) in Hd. injection Hd as <-.
  exists x, y, cols. auto.
Qed.

Lemma draw_note_lines_ops lines (c : canvas) x y i :
  draw_note_lines c x y i lines = c ++ note_text_ops x y i lines.
Proof.
  revert c i. induction lines as [|ln lines IH]; intros c i; simpl.
  - rewrite app_nil_r. reflexivity.
  - rewrite IH. unfold paint. rewrite <- app_assoc. reflexivity.
Qed.

Lemma draw_note_ops (c : canvas) (n : note) : draw_note c n = c ++ note_ops n.
Proof.
  destruct n as [[[x y] w] lines]. unfold draw_note, note_ops.
  rewrite draw_note_lines_ops. unfold paint. rewrite <- app_assoc. reflexivity.
Qed.

Lemma Forall2_note_ops (nts : list note) (ns : list canvas) :
  Forall2 (fun n e => Ok (draw_note [] n) = Ok e) nts ns -> ns = map note_ops nts.
Proof.
  induction 1 as [|n e nts ns Hn _ IH]; [reflexivity|].
  simpl. injection Hn as <-. rewrite IH, draw_note_ops. reflexivity.
Qed.

(** C7.  A run that ends normally has painted, in this order: for each
    route of the table, in turn, the segments of its polyline from the source
    anchor through the waypoints to the target anchor, then the mark at the
    source and the crow's foot at the target; then, for each entity in the
    order of the [entities] dict, its box (shadow, header, rows, border);
    then, for each note, its background and lines.  So every route polyline
    and end cap is on the canvas before any entity box, and every note comes
    after all entity boxes. *)
Theorem layering_order nts (d : canvas) :
  main ents poss nts = Ok d ->
  exists (R : list route) (rs es : list canvas),
    routes ents poss = Ok R
    /\ Forall2 (route_painted ents poss) R rs
    /\ Forall2 (entity_painted ents poss) (map fst ents) es
    /\ d = concat rs ++ concat es ++ concat (map note_ops nts).
Proof.
  unfold main. intros Hm.
  apply bind_inv_Ok in Hm as (R & HR & Hm). unfold render in Hm.
  apply bind_inv_Ok in Hm as (d1 & H1 & Hm).
  apply bind_inv_Ok in Hm as (d2 & H2 & Hm).
  apply bind_inv_Ok in Hm as (d3 & H3 & Hm). injection Hm as <-.
  rewrite (for_each_shift _ draw_entity_frame) in H2.
  apply shift_inv_Ok in H2 as (e2 & H2 & ->).
  rewrite (for_each_shift _ note_body_frame) in H3.
  apply shift_inv_Ok in H3 as (e3 & H3 & ->).
  destruct (for_each_concat _ draw_relationship_frame _ _ H1) as (rs & Hrs & ->).
  destruct (for_each_concat _ draw_entity_frame _ _ H2) as (es & Hes & ->).
  destruct (for_each_concat _ note_body_frame _ _ H3) as (ns & Hns & ->).
  apply Forall2_note_ops in Hns. subst ns.
  exists R, rs, es. rewrite <- List.app_assoc.
  split; [assumption|]. split; [|split; [|reflexivity]].
  - eapply List.Forall2_impl; [|exact Hrs]. intros r ops Hr.
    apply draw_relationship_inv in Hr as (sp & tp & Es & Et & ->).
    exists sp, tp. auto.
  - eapply List.Forall2_impl; [|exact Hes]. intros name ops Hn.
    apply draw_entity_inv in Hn as (x & y & cols & Hp & Hc & ->).
    exists x, y, cols. auto.
Qed.

(** ** The machine and the functional model *)

Lemma step_deterministic nts (s s1 s2 : state num) :
  step ents poss nts s s1 -> step ents poss nts s s2 -> s1 = s2.
Proof.
  intros H1 H2. destruct H1; inversion H2; subst; congruence.
Qed.

Lemma final_no_step nts (s s' : state num) :
  final s -> step ents poss nts s s' -> False.
Proof. intros Hf Hs. destruct Hs; exact Hf. Qed.

Lemma steps_final_unique nts (s f1 f2 : state num) :
  steps ents poss nts s f1 -> final f1 ->
  steps ents poss nts s f2 -> final f2 -> f1 = f2.
Proof.
  intros H1. revert f2. induction H1 as [s|s s' s'' Hs H1 IH]; intros f2 Hf1 H2 Hf2.
  - destruct H2 as [|s s2 s3 Hs2 _]; [reflexivity|].
    destruct (final_no_step _ _ _ Hf1 Hs2).
  - destruct H2 as [s|s s2 s3 Hs2 H2].
    + destruct (final_no_step _ _ _ Hf2 Hs).
    + rewrite (step_deterministic _ _ _ _ Hs2 Hs) in H2. apply IH; assumption.
Qed.

Lemma run_notes nts todo d :
  steps ents poss nts (Notes todo d)
        (outcome (for_each (fun c n => Ok (draw_note c n)) d todo)).
Proof.
  revert d. induction todo as [|n todo IH]; intros d; simpl.
  - eapply steps_step; [constructor | constructor].
  - eapply steps_step; [constructor | apply IH].
Qed.

Lemma run_entities nts todo d :
  steps ents poss nts (Entities todo d)
        (outcome (d' ← for_each (draw_entity ents poss) d todo;
                  for_each (fun c n => Ok (draw_note c n)) d' nts)).
Proof.
  revert d. induction todo as [|name todo IH]; intros d; simpl.
  - eapply steps_step; [constructor | apply run_notes].
  - destruct (draw_entity ents poss d name) as [d'|e] eqn:E; simpl.
    + eapply steps_step; [apply step_ent_ok, E | apply IH].
    + eapply steps_step; [apply step_ent_raise, E | constructor].
Qed.

Lemma run_relationships nts todo d :
  steps ents poss nts (Relationships todo d)
        (outcome (d1 ← for_each (draw_relationship ents poss) d todo;
                  d2 ← for_each (draw_entity ents poss) d1 (map fst ents);
                  for_each (fun c n => Ok (draw_note c n)) d2 nts)).
Proof.
  revert d. induction todo as [|r todo IH]; intros d; simpl.
  - eapply steps_step; [constructor | apply run_entities].
  - destruct (draw_relationship ents poss d r) as [d'|e] eqn:E; simpl.
    + eapply steps_step; [apply step_rel_ok, E | apply IH].
    + eapply steps_step; [apply step_rel_raise, E | constructor].
Qed.

Lemma bind_mret_id {A} (m : res A) : (m ≫= fun a => mret a) = m.
Proof. destruct m; reflexivity. Qed.

Lemma run_main nts : steps ents poss nts Start (outcome (main ents poss nts)).
Proof.
  unfold main. destruct (routes ents poss) as [R|e] eqn:E; simpl.
  - eapply steps_step; [apply step_routes_ok, E|].
    unfold render.
    replace (outcome _) with
      (outcome (d1 ← for_each (draw_relationship ents poss) [] R;
                d2 ← for_each (draw_entity ents poss) d1 (map fst ents);
                for_each (fun c n => Ok (draw_note c n)) d2 nts)).
    + apply run_relationships.
    + f_equal. destruct (for_each (draw_relationship ents poss) [] R); [simpl|reflexivity].
      destruct (for_each (draw_entity ents poss) _ (map fst ents)); [simpl|reflexivity].
      symmetry. apply bind_mret_id.
  - eapply steps_step; [apply step_routes_raise, E | constructor].
Qed.

Lemma outcome_final (m : res canvas) : final (outcome m).
Proof. destruct m; exact I. Qed.

(** The machine and the functional model agree: the script has a complete
    run, it ends where [main] says, and no other end is reachable.  (What
    Pillow makes of the calls, and so the bytes of the image, is outside
    this model.) *)
Lemma run_agrees_with_main nts :
  run_ends_in ents poss nts (outcome (main ents poss nts))
  /\ (forall s1 s2 : state num,
        run_ends_in ents poss nts s1 -> run_ends_in ents poss nts s2 -> s1 = s2)
  /\ (forall d1 d2 : canvas,
        run_ends_in ents poss nts (Saved d1) -> run_ends_in ents poss nts (Saved d2) ->
        d1 = d2).
Proof.
  assert (Hu : forall s1 s2 : state num,
             run_ends_in ents poss nts s1 -> run_ends_in ents poss nts s2 -> s1 = s2).
  { intros s1 s2 [H1 F1] [H2 F2]. exact (steps_final_unique _ _ _ _ H1 F1 H2 F2). }
  split; [split; [apply run_main | apply outcome_final]|].
  split; [exact Hu|].
  intros d1 d2 H1 H2. specialize (Hu _ _ H1 H2). congruence.
Qed.

(** ** Note fonts *)

Lemma prefix_char (a : ascii) (s : string) :
  String.prefix (String a EmptyString) s = true <-> exists rest, s = String a rest.
Proof.
  destruct s as [|b s]; simpl.
  - split; [discriminate | intros [rest Hr]; discriminate].
  - destruct (ascii_dec a b) as [->|Hab].
    + destruct s; split; eauto.
    + split; [discriminate | intros [rest [= Hb _]]; congruence].
Qed.

(** For a one-character needle, [needle in hay] is membership of the
    character. *)
Lemma py_in_char (a : ascii) (s : string) :
  py_in (String a EmptyString) s = true <-> In a (list_ascii_of_string s).
Proof.
  induction s as [|b s IH].
  - simpl. split; [discriminate | tauto].
  - change (py_in (String a EmptyString) (String b s))
      with (String.prefix (String a EmptyString) (String b s)
            || py_in (String a EmptyString) s).
    rewrite orb_true_iff, IH, prefix_char. simpl. split.
    + intros [[rest [= -> _]] | Hin]; [left; reflexivity | right; exact Hin].
    + intros [-> | Hin]; [left; eauto | right; exact Hin].
Qed.

Lemma note_font_bold_iff (i : Z) (ln : string) :
  note_font i ln = font_bold <->
  i = 0%Z
  /\ (forall rest, ln <> String " " rest)
  /\ ~ In ":"%char (list_ascii_of_string ln)
  /\ ~ In "["%char (list_ascii_of_string ln).
Proof.
  unfold note_font.
  rewrite <- (py_in_char ":"), <- (py_in_char "[").
  destruct (Z.eqb_spec i 0) as [Hi|Hi]; simpl.
  2: { split; [discriminate | tauto]. }
  destruct (String.prefix " " ln) eqn:Ep; simpl.
  { apply prefix_char in Ep as [rest ->].
    split; [discriminate | intros (_ & Hn & _); destruct (Hn rest eq_refl)]. }
  assert (Hp : forall rest, ln <> String " " rest).
  { intros rest ->. rewrite (proj2 (prefix_char " " _)) in Ep; [discriminate | eauto]. }
  destruct (py_in ":" ln); simpl; [split; [discriminate | tauto]|].
  destruct (py_in "[" ln); simpl; [split; [discriminate | tauto]|].
  split; [intros _ | reflexivity]. repeat split; auto; discriminate.
Qed.

Lemma note_font_cases (i : Z) (ln : string) :
  note_font i ln = font_bold \/ note_font i ln = font_note.
Proof. unfold note_font. destruct (_ && _); auto. Qed.

Lemma draw_note_lines_lookup (lines : list string) x y i (k : nat) ln :
  lines !! k = Some ln ->
  draw_note_lines ([] : canvas) x y i lines !! k
  = Some (text (x + 8, y + 6 + (i + Z.of_nat k) * 20)%Z ln "#333333"
               (note_font (i + Z.of_nat k) ln)).
Proof.
  revert i k. induction lines as [|l0 lines IH]; intros i k Hk; [discriminate|].
  simpl. change (paint [] ?op) with ([op] ++ ([] : canvas)).
  rewrite draw_note_lines_frame. destruct k as [|k].
  - simpl in *. injection Hk as ->. rewrite Z.add_0_r. reflexivity.
  - rewrite Nat2Z.inj_succ. simpl in Hk. simpl. rewrite (IH _ _ Hk).
    replace (i + 1 + Z.of_nat k)%Z with (i + Z.succ (Z.of_nat k))%Z by lia.
    reflexivity.
Qed.

(** C8, as the code has it.  Line i of a note is painted right after the note's
    background, at (x + 8, y + 6 + 20 i), in [font_bold] exactly when i = 0,
    the line does not start with a space character, and it contains neither
    a colon nor an opening square bracket; otherwise in [font_note]. *)
Theorem note_line_font x y w (lines : list string) (i : nat) ln :
  lines !! i = Some ln ->
  exists f : font_var,
    draw_note ([] : canvas) (x, y, w, lines) !! S i
    = Some (text (x + 8, y + 6 + Z.of_nat i * 20)%Z ln "#333333" f)
    /\ (f = font_bold <->
        i = 0%nat
        /\ (forall rest, ln <> String " " rest)
        /\ ~ In ":"%char (list_ascii_of_string ln)
        /\ ~ In "["%char (list_ascii_of_string ln))
    /\ (f <> font_bold -> f = font_note).
Proof.
  intros Hi. exists (note_font (Z.of_nat i) ln). split; [|split].
  - unfold draw_note. change (paint [] ?op) with ([op] ++ ([] : canvas)).
    rewrite draw_note_lines_frame. simpl.
    rewrite (draw_note_lines_lookup _ _ _ _ _ _ Hi). reflexivity.
  - rewrite note_font_bold_iff. split; intros (H0 & Hrest); (split; [lia | exact Hrest]).
  - destruct (note_font_cases (Z.of_nat i) ln) as [Hf|Hf]; [intros Hn; destruct (Hn Hf) | auto].
Qed.

End Facts.

(** ** Binary64 arithmetic against integers

    [SFmul] and [SFadd] round the exact product and the exact sum to the
    nearest binary64 number.  Rounding never crosses an integer below 2^53:
    if the exact value is at most (at least) such an integer, so is the
    rounded one. *)

Local Open Scope Z_scope.


Lemma scale_eq : scale = 2200.
Proof. reflexivity. Qed.

Opaque scale.

Lemma pow2_pos a : 0 <= a -> 0 < 2 ^ a.
Proof. intros; apply Z.pow_pos_nonneg; lia. Qed.

Lemma pow2_add a b : 0 <= a -> 0 <= b -> 2 ^ (a + b) = 2 ^ a * 2 ^ b.
Proof. intros; apply Z.pow_add_r; lia. Qed.

Lemma pow2_le a b : 0 <= a <= b -> 2 ^ a <= 2 ^ b.
Proof. intros; apply Z.pow_le_mono_r; lia. Qed.

Lemma pow2_lt_inv a b : 0 <= b -> 2 ^ a < 2 ^ b -> a < b.
Proof. intros Hb H. apply (Z.pow_lt_mono_r_iff 2); try lia. Qed.

Lemma fexp_b64 e : fexp 53 1024 e = Z.max (e - 53) (-1074).
Proof. reflexivity. Qed.

Lemma digits2_pos_size p : digits2_pos p = Pos.size p.
Proof. induction p; simpl; congruence. Qed.

Lemma digits2_bounds p :
  2 ^ (Zpos (digits2_pos p) - 1) <= Zpos p < 2 ^ Zpos (digits2_pos p).
Proof.
  rewrite digits2_pos_size. split.
  - pose proof (Pos.size_le p) as H.
    assert (Hz : 2 ^ Zpos (Pos.size p) <= 2 * Zpos p).
    { change 2 with (Zpos 2) at 1. rewrite <- Pos2Z.inj_pow. lia. }
    replace (Zpos (Pos.size p)) with (Zpos (Pos.size p) - 1 + 1) in Hz by lia.
    rewrite pow2_add in Hz by lia. change (2 ^ 1) with 2 in Hz. lia.
  - pose proof (Pos.size_gt p) as H.
    change 2 with (Zpos 2). rewrite <- Pos2Z.inj_pow. lia.
Qed.

Lemma iter_pos_comm {A} (f : A -> A) n x :
  SpecFloat.iter_pos f n (f x) = f (SpecFloat.iter_pos f n x).
Proof. revert x; induction n; intros; simpl; rewrite ?IHn; reflexivity. Qed.

Lemma iter_pos_succ {A} (f : A -> A) n x :
  SpecFloat.iter_pos f (Pos.succ n) x = f (SpecFloat.iter_pos f n x).
Proof.
  revert x; induction n; intros; simpl.
  - rewrite !IHn. rewrite !iter_pos_comm. reflexivity.
  - rewrite !iter_pos_comm. reflexivity.
  - reflexivity.
Qed.

Lemma shr_1_spec mrs :
  0 <= shr_m mrs ->
  shr_m (shr_1 mrs) = shr_m mrs / 2
  /\ shr_r (shr_1 mrs) = Z.odd (shr_m mrs)
  /\ shr_s (shr_1 mrs) = orb (shr_r mrs) (shr_s mrs).
Proof.
  destruct mrs as [m r s]; simpl. intros Hm.
  destruct m as [|p|p]; try lia.
  - repeat split.
  - destruct p; simpl; repeat split.
    + rewrite Pos2Z.inj_xI. apply Z.div_unique with 1; lia.
    + rewrite Pos2Z.inj_xO. apply Z.div_unique with 0; lia.
Qed.

(** [n] right shifts of a mantissa with nothing lost so far: the quotient
    by [2^n], and the two lost-bit flags are set only if a bit was lost. *)
Lemma iter_shr_1_spec (m : Z) (n : positive) :
  0 <= m ->
  let mrs := SpecFloat.iter_pos shr_1 n (Build_shr_record m false false) in
  shr_m mrs = m / 2 ^ Zpos n
  /\ (orb (shr_r mrs) (shr_s mrs) = true -> m mod 2 ^ Zpos n <> 0).
Proof.
  intros Hm. induction n as [|n IH] using Pos.peano_ind; cbv zeta in *.
  - cbn [SpecFloat.iter_pos].
    destruct (shr_1_spec (Build_shr_record m false false) Hm) as (E1 & E2 & E3).
    cbn [shr_m shr_r shr_s] in E1, E2, E3. rewrite E1, E2, E3.
    change (2 ^ 1) with 2. split; [reflexivity|].
    rewrite orb_false_r. intros Ho.
    rewrite Zmod_odd, Ho. lia.
  - rewrite iter_pos_succ. destruct IH as [IH1 IH2].
    set (mrs := SpecFloat.iter_pos shr_1 n _) in *.
    assert (H0 : 0 <= shr_m mrs).
    { rewrite IH1. apply Z.div_pos; [lia | apply pow2_pos; lia]. }
    destruct (shr_1_spec mrs H0) as (E1 & E2 & E3).
    rewrite E1, E2, E3, IH1. rewrite Pos2Z.inj_succ.
    assert (Hp : 0 < 2 ^ Zpos n) by (apply pow2_pos; lia).
    assert (Hs : 2 ^ Z.succ (Zpos n) = 2 ^ Zpos n * 2).
    { unfold Z.succ. rewrite pow2_add by lia. reflexivity. }
    rewrite Hs. split.
    + rewrite Z.div_div by lia. reflexivity.
    + intros Ho Hz.
      apply Z.div_exact in Hz; [|lia].
      set (k := m / (2 ^ Zpos n * 2)) in *.
      assert (Hd : m / 2 ^ Zpos n = 2 * k).
      { symmetry. apply Z.div_unique with 0; lia. }
      assert (Hr : m mod 2 ^ Zpos n = 0).
      { symmetry. apply Z.mod_unique with (2 * k); lia. }
      apply orb_true_iff in Ho. destruct Ho as [Ho | Ho].
      * rewrite Hd in Ho. rewrite Z.odd_mul in Ho. simpl in Ho. discriminate.
      * apply IH2; assumption.
Qed.

(** Truncation of [m * 2^e] to the exponent [e + n]. *)
Lemma trunc_floor m e n :
  0 <= m -> 0 < n -> 0 <= e + scale -> scaled (m / 2 ^ n) (e + n) <= scaled m e.
Proof.
  intros Hm Hn He. unfold scaled.
  replace (e + n + scale) with (n + (e + scale)) by lia.
  rewrite pow2_add by lia.
  assert (Hp : 0 < 2 ^ n) by (apply pow2_pos; lia).
  assert (Hq : 0 < 2 ^ (e + scale)) by (apply pow2_pos; lia).
  pose proof (Z.mul_div_le m (2 ^ n) Hp). nia.
Qed.

Lemma trunc_lower p e c :
  let n := fexp 53 1024 (Zpos (digits2_pos p) + e) - e in
  0 < n -> 0 <= e + scale -> 0 <= c < 2 ^ 53 ->
  c * 2 ^ scale <= scaled (Zpos p) e ->
  c * 2 ^ scale <= scaled (Zpos p / 2 ^ n) (e + n).
Proof.
  intros n Hn He Hc H. unfold scaled in *.
  assert (Hpn : 0 < 2 ^ n) by (apply pow2_pos; lia).
  assert (Hpe : 0 < 2 ^ (e + scale)) by (apply pow2_pos; lia).
  assert (Hps : 0 < 2 ^ scale) by (apply pow2_pos; rewrite scale_eq; lia).
  destruct (digits2_bounds p) as [Hd1 Hd2].
  set (d := Zpos (digits2_pos p)) in *.
  assert (Hd : 0 < d) by (unfold d; lia).
  destruct (Z_le_gt_dec (e + n) 0) as [Hle | Hgt].
  - (* the target exponent is not positive: c is a multiple of its unit *)
    assert (Es : scale = (- (e + n)) + (e + n + scale)) by lia.
    assert (E1 : 2 ^ scale = 2 ^ (- (e + n)) * 2 ^ (e + n + scale)).
    { rewrite Es at 1. apply pow2_add; lia. }
    assert (E2 : 2 ^ (e + n + scale) = 2 ^ n * 2 ^ (e + scale)).
    { replace (e + n + scale) with (n + (e + scale)) by lia. apply pow2_add; lia. }
    set (C := c * 2 ^ (- (e + n))).
    assert (HC : C * 2 ^ n <= Zpos p).
    { unfold C. rewrite E1, E2 in H. nia. }
    assert (HC' : C <= Zpos p / 2 ^ n).
    { apply Z.div_le_lower_bound; lia. }
    rewrite E1. unfold C in HC'.
    assert (0 < 2 ^ (e + n + scale)) by (apply pow2_pos; lia). nia.
  - (* a positive exponent: the truncated mantissa keeps 53 bits *)
    assert (Hn' : n = Z.max (d + e - 53) (-1074) - e) by reflexivity.
    assert (En : n = d - 53) by lia.
    assert (E3 : 2 ^ (d - 1) = 2 ^ 52 * 2 ^ n).
    { replace (d - 1) with (52 + n) by lia. apply pow2_add; lia. }
    assert (Hq : 2 ^ 52 <= Zpos p / 2 ^ n).
    { apply Z.div_le_lower_bound; lia. }
    assert (E4 : 2 ^ (e + n + scale) = 2 ^ (e + n) * 2 ^ scale).
    { apply pow2_add; rewrite ?scale_eq; lia. }
    rewrite E4.
    assert (2 <= 2 ^ (e + n)).
    { change 2 with (2 ^ 1) at 1. apply pow2_le. lia. }
    change (2 ^ 53) with (2 * 2 ^ 52) in Hc.
    assert (0 < 2 ^ 52) by (apply pow2_pos; lia).
    nia.
Qed.

Lemma trunc_upper p e c :
  let n := fexp 53 1024 (Zpos (digits2_pos p) + e) - e in
  0 < n -> 0 <= e + scale -> 0 <= c < 2 ^ 53 ->
  scaled (Zpos p) e <= c * 2 ^ scale ->
  Zpos p mod 2 ^ n <> 0 ->
  scaled (Zpos p / 2 ^ n + 1) (e + n) <= c * 2 ^ scale.
Proof.
  intros n Hn He Hc H Hne. unfold scaled in *.
  assert (Hpn : 0 < 2 ^ n) by (apply pow2_pos; lia).
  assert (Hpe : 0 < 2 ^ (e + scale)) by (apply pow2_pos; lia).
  assert (Hps : 0 < 2 ^ scale) by (apply pow2_pos; rewrite scale_eq; lia).
  destruct (digits2_bounds p) as [Hd1 Hd2].
  set (d := Zpos (digits2_pos p)) in *.
  assert (Hd : 0 < d) by (unfold d; lia).
  (* the value is below 2^53, so the target exponent is not positive *)
  assert (Hmag : d + e <= 53).
  { assert (Hlt : 2 ^ (d - 1 + (e + scale)) < 2 ^ (53 + scale)).
    { rewrite (pow2_add (d - 1) (e + scale)) by lia.
      rewrite (pow2_add 53 scale) by (rewrite ?scale_eq; lia).
      assert (2 ^ (d - 1) * 2 ^ (e + scale) <= Zpos p * 2 ^ (e + scale))
        by (apply Z.mul_le_mono_nonneg_r; lia).
      assert (c * 2 ^ scale < 2 ^ 53 * 2 ^ scale)
        by (apply Z.mul_lt_mono_pos_r; lia).
      lia. }
    apply pow2_lt_inv in Hlt; [lia | rewrite scale_eq; lia]. }
  assert (Hn' : n = Z.max (d + e - 53) (-1074) - e) by reflexivity.
  assert (Hle : e + n <= 0) by lia.
  assert (Es : scale = (- (e + n)) + (e + n + scale)) by lia.
  assert (E1 : 2 ^ scale = 2 ^ (- (e + n)) * 2 ^ (e + n + scale)).
  { rewrite Es at 1. apply pow2_add; lia. }
  assert (E2 : 2 ^ (e + n + scale) = 2 ^ n * 2 ^ (e + scale)).
  { replace (e + n + scale) with (n + (e + scale)) by lia. apply pow2_add; lia. }
  set (C := c * 2 ^ (- (e + n))).
  assert (HC : Zpos p <= C * 2 ^ n).
  { unfold C. rewrite E1, E2 in H. nia. }
  assert (Hdm := Z.div_mod (Zpos p) (2 ^ n) ltac:(lia)).
  assert (Hmb := Z.mod_pos_bound (Zpos p) (2 ^ n) Hpn).
  assert (HC' : Zpos p / 2 ^ n + 1 <= C).
  { assert (Zpos p / 2 ^ n < C); [|lia].
    apply Z.div_lt_upper_bound; [lia|].
    assert (Zpos p <> 2 ^ n * C); [|lia].
    intros Heq. apply Hne. rewrite Heq. rewrite Z.mul_comm. apply Z.mod_mul. lia. }
  rewrite E1. fold C.
  assert (0 < 2 ^ (e + n + scale)) by (apply pow2_pos; lia).
  unfold C in *. nia.
Qed.

Lemma shr_fexp_spec m e :
  0 <= m ->
  let n := fexp 53 1024 (Zdigits2 m + e) - e in
  exists m1 e1 r s,
    shr_fexp 53 1024 m e loc_Exact = (Build_shr_record m1 r s, e1)
    /\ -1074 <= e1
    /\ ((n <= 0 /\ m1 = m /\ e1 = e /\ r = false /\ s = false)
        \/ (0 < n /\ m1 = m / 2 ^ n /\ e1 = e + n
            /\ (orb r s = true -> m mod 2 ^ n <> 0))).
Proof.
  intros Hm n. unfold shr_fexp. fold n. simpl shr_record_of_loc.
  assert (Hf : -1074 <= n + e).
  { unfold n. rewrite fexp_b64. lia. }
  unfold shr. destruct n as [|q|q] eqn:En.
  - exists m, e, false, false. split; [reflexivity|]. split; [lia|]. left. repeat split; lia.
  - destruct (iter_shr_1_spec m q Hm) as [E1 E2]. cbv zeta in E1, E2.
    destruct (SpecFloat.iter_pos shr_1 q _) as [m1 r s]. simpl in E1, E2.
    exists m1, (e + Zpos q), r, s. split; [reflexivity|]. split; [lia|]. right.
    repeat split; try lia; assumption.
  - exists m, e, false, false. split; [reflexivity|]. split; [lia|]. left. repeat split; lia.
Qed.

Lemma round_nearest_even_spec m r s :
  let m' := round_nearest_even m (loc_of_shr_record (Build_shr_record m r s)) in
  m' = m \/ (m' = m + 1 /\ orb r s = true).
Proof.
  destruct r, s; simpl; auto.
  destruct (Z.even m); auto.
Qed.

Lemma scaled_overflow m e c :
  0 < m -> 971 < e -> 0 <= c < 2 ^ 53 -> c * 2 ^ scale < scaled m e.
Proof.
  intros Hm He Hc. unfold scaled.
  assert (Hps : 0 < 2 ^ scale) by (apply pow2_pos; rewrite scale_eq; lia).
  assert (E : 2 ^ (e + scale) = 2 ^ e * 2 ^ scale).
  { apply pow2_add; rewrite ?scale_eq; lia. }
  rewrite E.
  assert (2 ^ 53 <= 2 ^ e) by (apply pow2_le; lia).
  nia.
Qed.

Lemma round_aux_below sx p e c :
  0 <= e + scale -> 0 <= c < 2 ^ 53 ->
  scaled (Zpos p) e <= c * 2 ^ scale ->
  rounds_below sx c (binary_round_aux 53 1024 sx (Zpos p) e loc_Exact).
Proof.
  intros He Hc H. unfold binary_round_aux.
  destruct (shr_fexp_spec (Zpos p) e ltac:(lia)) as (m1 & e1 & r & s & E & Hl1 & Hcase).
  rewrite E. cbn [shr_m].
  destruct (round_nearest_even_spec m1 r s) as [Hr | [Hr Hrs]];
    cbv zeta in Hr; rewrite Hr; clear Hr.
  - (* rounded down *)
    assert (H1 : 0 <= m1 /\ scaled m1 e1 <= c * 2 ^ scale /\ e <= e1).
    { destruct Hcase as [(Hn & -> & -> & _) | (Hn & -> & -> & _)].
      - repeat split; try lia.
      - split; [apply Z.div_pos; [lia | apply pow2_pos; lia]|].
        split; [|lia].
        etransitivity; [apply trunc_floor; lia | exact H]. }
    destruct H1 as (Hm1 & HV1 & Hee).
    destruct (shr_fexp_spec m1 e1 Hm1) as (m2 & e2 & r2 & s2 & E2 & Hl2 & Hcase2).
    rewrite E2. cbn [shr_m].
    assert (H2 : 0 <= m2 /\ scaled m2 e2 <= c * 2 ^ scale).
    { destruct Hcase2 as [(Hn & -> & -> & _) | (Hn & -> & -> & _)].
      - split; assumption.
      - split; [apply Z.div_pos; [lia | apply pow2_pos; lia]|].
        etransitivity; [apply trunc_floor; lia | exact HV1]. }
    destruct H2 as (Hm2 & HV2).
    destruct m2 as [|q|q]; [reflexivity | | lia].
    destruct (Z.leb_spec e2 (1024 - 53)) as [Hle | Hgt].
    + repeat split; assumption.
    + pose proof (scaled_overflow (Zpos q) e2 c ltac:(lia) ltac:(lia) Hc). lia.
  - (* rounded up: some bit was lost *)
    destruct Hcase as [(Hn & _ & _ & -> & ->) | (Hn & -> & -> & Hne)];
      [discriminate|].
    specialize (Hne Hrs).
    pose proof (trunc_upper p e c Hn He Hc H Hne) as HV1.
    set (n := fexp 53 1024 (Zdigits2 (Zpos p) + e) - e) in *.
    assert (Hm1 : 0 <= Zpos p / 2 ^ n + 1).
    { assert (0 <= Zpos p / 2 ^ n); [|lia]. apply Z.div_pos; [lia | apply pow2_pos; lia]. }
    destruct (shr_fexp_spec _ (e + n) Hm1) as (m2 & e2 & r2 & s2 & E2 & Hl2 & Hcase2).
    simpl Zdigits2 in HV1. fold n in HV1.
    rewrite E2. cbn [shr_m].
    assert (H2 : 0 <= m2 /\ scaled m2 e2 <= c * 2 ^ scale).
    { destruct Hcase2 as [(Hn2 & -> & -> & _) | (Hn2 & -> & -> & _)].
      - split; assumption.
      - split; [apply Z.div_pos; [lia | apply pow2_pos; lia]|].
        etransitivity; [apply trunc_floor; lia | exact HV1]. }
    destruct H2 as (Hm2 & HV2).
    destruct m2 as [|q|q]; [reflexivity | | lia].
    destruct (Z.leb_spec e2 (1024 - 53)) as [Hle | Hgt].
    + repeat split; assumption.
    + pose proof (scaled_overflow (Zpos q) e2 c ltac:(lia) ltac:(lia) Hc). lia.
Qed.

Lemma scaled_mono m m' e : 0 <= e + scale -> m <= m' -> scaled m e <= scaled m' e.
Proof.
  intros He Hm. unfold scaled.
  apply Z.mul_le_mono_nonneg_r; [|assumption].
  apply Z.lt_le_incl, pow2_pos; assumption.
Qed.

Lemma scaled_zero_bound c e : 0 <= c -> c * 2 ^ scale <= scaled 0 e -> c = 0.
Proof.
  unfold scaled. intros Hc H.
  assert (Hps : 0 < 2 ^ scale) by (apply pow2_pos; rewrite scale_eq; lia).
  nia.
Qed.

Lemma round_aux_above sx p e c :
  0 <= e + scale -> 0 <= c < 2 ^ 53 ->
  c * 2 ^ scale <= scaled (Zpos p) e ->
  rounds_above sx c (binary_round_aux 53 1024 sx (Zpos p) e loc_Exact).
Proof.
  intros He Hc H. unfold binary_round_aux.
  destruct (shr_fexp_spec (Zpos p) e ltac:(lia)) as (m1 & e1 & r & s & E & Hl1 & Hcase).
  rewrite E. cbn [shr_m].
  assert (H1 : 0 <= m1 /\ c * 2 ^ scale <= scaled m1 e1 /\ e <= e1).
  { destruct Hcase as [(Hn & -> & -> & _) | (Hn & -> & -> & _)].
    - repeat split; try lia.
    - split; [apply Z.div_pos; [lia | apply pow2_pos; lia]|].
      split; [|lia].
      apply (trunc_lower p e c); assumption. }
  destruct H1 as (Hm1 & HV1 & Hee).
  set (m' := round_nearest_even m1 _).
  assert (Hm' : m1 <= m').
  { destruct (round_nearest_even_spec m1 r s) as [Hr | [Hr _]];
      cbv zeta in Hr; fold m' in Hr; lia. }
  assert (HV' : c * 2 ^ scale <= scaled m' e1).
  { etransitivity; [exact HV1 | apply scaled_mono; lia]. }
  clearbody m'.
  destruct (shr_fexp_spec m' e1 ltac:(lia)) as (m2 & e2 & r2 & s2 & E2 & Hl2 & Hcase2).
  rewrite E2. cbn [shr_m].
  assert (H2 : 0 <= m2 /\ c * 2 ^ scale <= scaled m2 e2).
  { destruct Hcase2 as [(Hn & -> & -> & _) | (Hn & -> & -> & _)].
    - split; [lia | assumption].
    - split; [apply Z.div_pos; [lia | apply pow2_pos; lia]|].
      destruct m' as [|q|q]; [| |lia].
      + apply scaled_zero_bound in HV'; [|lia]. subst c.
        rewrite Z.div_0_l by (apply Z.neq_sym, Z.lt_neq, pow2_pos; lia).
        unfold scaled. simpl. reflexivity.
      + apply (trunc_lower q e1 c); try assumption; lia. }
  destruct H2 as (Hm2 & HV2).
  destruct m2 as [|q|q]; [| | lia].
  - split; [reflexivity|]. apply scaled_zero_bound in HV2; lia.
  - destruct (Z.leb e2 (1024 - 53)); [|reflexivity].
    repeat split; assumption.
Qed.

Lemma scaled_pos p e : 0 <= e + scale -> 0 < scaled (Zpos p) e.
Proof. intros. unfold scaled. apply Z.mul_pos_pos; [lia | apply pow2_pos; assumption]. Qed.

Lemma scale_pos : 0 < 2 ^ scale.
Proof. apply pow2_pos. rewrite scale_eq. lia. Qed.

Lemma round_aux_exp_ok s p e :
  0 <= e + scale -> exp_ok (binary_round_aux 53 1024 s (Zpos p) e loc_Exact).
Proof.
  intros He.
  pose proof (round_aux_above s p e 0 He ltac:(lia)) as H.
  pose proof (scaled_pos p e He).
  specialize (H ltac:(lia)).
  destruct (binary_round_aux _ _ _ _ _ _); simpl in *; tauto.
Qed.

Ltac red_rel := cbn [rounds_above rounds_below b64_le_int int_le_b64 exp_ok cond_Zopp] in *.

Lemma round_aux_le s p e c :
  0 <= e + scale -> - 2 ^ 53 < c < 2 ^ 53 ->
  cond_Zopp s (scaled (Zpos p) e) <= c * 2 ^ scale ->
  b64_le_int (binary_round_aux 53 1024 s (Zpos p) e loc_Exact) c.
Proof.
  intros He Hc H. pose proof (scaled_pos p e He) as Hp. pose proof scale_pos as Hs.
  destruct s; cbn [cond_Zopp] in H.
  - destruct (Z_le_gt_dec 0 c) as [Hc0 | Hc0].
    + pose proof (round_aux_above true p e 0 He ltac:(lia) ltac:(lia)) as R.
      destruct (binary_round_aux _ _ _ _ _ _) as [s'|s'| |s' m' e'];
        red_rel; try tauto.
      destruct R as (-> & He' & R). red_rel. nia.
    + pose proof (round_aux_above true p e (- c) He ltac:(lia) ltac:(lia)) as R.
      destruct (binary_round_aux _ _ _ _ _ _) as [s'|s'| |s' m' e'];
        red_rel; try tauto; try lia.
      destruct R as (-> & He' & R). red_rel. lia.
  - assert (Hc0 : 0 <= c) by nia.
    pose proof (round_aux_below false p e c He ltac:(lia) H) as R.
    destruct (binary_round_aux _ _ _ _ _ _) as [s'|s'| |s' m' e'];
      red_rel; try tauto.
    destruct R as (-> & He' & R). red_rel. lia.
Qed.

Lemma round_aux_ge s p e c :
  0 <= e + scale -> - 2 ^ 53 < c < 2 ^ 53 ->
  c * 2 ^ scale <= cond_Zopp s (scaled (Zpos p) e) ->
  int_le_b64 c (binary_round_aux 53 1024 s (Zpos p) e loc_Exact).
Proof.
  intros He Hc H. pose proof (scaled_pos p e He) as Hp. pose proof scale_pos as Hs.
  destruct s; cbn [cond_Zopp] in H.
  - assert (Hc0 : c <= 0) by nia.
    pose proof (round_aux_below true p e (- c) He ltac:(lia) ltac:(lia)) as R.
    destruct (binary_round_aux _ _ _ _ _ _) as [s'|s'| |s' m' e'];
      red_rel; try tauto.
    destruct R as (-> & He' & R). red_rel. lia.
  - destruct (Z_le_gt_dec c 0) as [Hc0 | Hc0].
    + pose proof (round_aux_above false p e 0 He ltac:(lia) ltac:(lia)) as R.
      destruct (binary_round_aux _ _ _ _ _ _) as [s'|s'| |s' m' e'];
        red_rel; try tauto.
      destruct R as (-> & He' & R). red_rel. nia.
    + pose proof (round_aux_above false p e c He ltac:(lia) H) as R.
      destruct (binary_round_aux _ _ _ _ _ _) as [s'|s'| |s' m' e'];
        red_rel; try tauto; try lia.
      destruct R as (-> & He' & R). red_rel. lia.
Qed.

Lemma iter_xO_pow p d : Zpos (Pos.iter xO p d) = Zpos p * 2 ^ Zpos d.
Proof.
  induction d as [|d IH] using Pos.peano_ind.
  - simpl Pos.iter. change (2 ^ 1) with 2. lia.
  - rewrite Pos.iter_succ, Pos2Z.inj_xO, IH, Pos2Z.inj_succ.
    unfold Z.succ. rewrite pow2_add by lia. change (2 ^ 1) with 2. lia.
Qed.

Lemma shl_align_spec p e e' :
  0 <= e' + scale ->
  scaled (Zpos (fst (shl_align p e e'))) (snd (shl_align p e e')) = scaled (Zpos p) e
  /\ snd (shl_align p e e') = Z.min e e'.
Proof.
  intros He'. unfold shl_align.
  destruct (e' - e) as [|d|d] eqn:Ed; cbn [fst snd]; try (split; [reflexivity | lia]).
  split; [|lia].
  unfold scaled. rewrite iter_xO_pow.
  replace (e + scale) with (Zpos d + (e' + scale)) by lia.
  rewrite (pow2_add (Zpos d) (e' + scale)) by lia. ring.
Qed.

Lemma shl_align_fst p e e' :
  e' <= e -> Zpos (fst (shl_align p e e')) = Zpos p * 2 ^ (e - e').
Proof.
  intros Hle. unfold shl_align.
  destruct (e' - e) as [|d|d] eqn:Ed; cbn [fst]; try lia.
  - replace (e - e') with 0 by lia. simpl. lia.
  - rewrite iter_xO_pow. f_equal. f_equal. lia.
Qed.

Lemma binary_round_eq s p e :
  binary_round 53 1024 s p e =
  binary_round_aux 53 1024 s
    (Zpos (fst (shl_align p e (fexp 53 1024 (Zpos (digits2_pos p) + e)))))
    (snd (shl_align p e (fexp 53 1024 (Zpos (digits2_pos p) + e)))) loc_Exact.
Proof. unfold binary_round. destruct (shl_align _ _ _). reflexivity. Qed.

Lemma binary_round_le s p e c :
  0 <= e + scale -> - 2 ^ 53 < c < 2 ^ 53 ->
  cond_Zopp s (scaled (Zpos p) e) <= c * 2 ^ scale ->
  b64_le_int (binary_round 53 1024 s p e) c.
Proof.
  intros He Hc H. rewrite binary_round_eq.
  set (e' := fexp 53 1024 _).
  assert (He' : 0 <= e' + scale).
  { unfold e'. rewrite fexp_b64, scale_eq. lia. }
  destruct (shl_align_spec p e e' He') as [EV Ee].
  apply round_aux_le; [lia | assumption | rewrite EV; assumption].
Qed.

Lemma binary_round_ge s p e c :
  0 <= e + scale -> - 2 ^ 53 < c < 2 ^ 53 ->
  c * 2 ^ scale <= cond_Zopp s (scaled (Zpos p) e) ->
  int_le_b64 c (binary_round 53 1024 s p e).
Proof.
  intros He Hc H. rewrite binary_round_eq.
  set (e' := fexp 53 1024 _).
  assert (He' : 0 <= e' + scale).
  { unfold e'. rewrite fexp_b64, scale_eq. lia. }
  destruct (shl_align_spec p e e' He') as [EV Ee].
  apply round_aux_ge; [lia | assumption | rewrite EV; assumption].
Qed.

Lemma binary_round_exp_ok s p e :
  0 <= e + scale -> exp_ok (binary_round 53 1024 s p e).
Proof.
  intros He. rewrite binary_round_eq.
  set (e' := fexp 53 1024 _).
  assert (He' : 0 <= e' + scale).
  { unfold e'. rewrite fexp_b64, scale_eq. lia. }
  destruct (shl_align_spec p e e' He') as [EV Ee].
  apply round_aux_exp_ok. lia.
Qed.

(** The sum or the integer [z * 2^e], normalised. *)
Lemma binary_normalize_le z e c :
  0 <= e + scale -> - 2 ^ 53 < c < 2 ^ 53 ->
  scaled z e <= c * 2 ^ scale ->
  b64_le_int (binary_normalize 53 1024 z e false) c.
Proof.
  intros He Hc H. pose proof scale_pos.
  destruct z as [|p|p]; cbn [binary_normalize].
  - unfold scaled in H. cbn [b64_le_int]. nia.
  - apply binary_round_le; assumption.
  - apply binary_round_le; try assumption. cbn [cond_Zopp].
    unfold scaled in *. lia.
Qed.

Lemma binary_normalize_ge z e c :
  0 <= e + scale -> - 2 ^ 53 < c < 2 ^ 53 ->
  c * 2 ^ scale <= scaled z e ->
  int_le_b64 c (binary_normalize 53 1024 z e false).
Proof.
  intros He Hc H. pose proof scale_pos.
  destruct z as [|p|p]; cbn [binary_normalize].
  - unfold scaled in H. cbn [int_le_b64]. nia.
  - apply binary_round_ge; assumption.
  - apply binary_round_ge; try assumption. cbn [cond_Zopp].
    unfold scaled in *. lia.
Qed.

Lemma binary_normalize_exp_ok z e :
  0 <= e + scale -> exp_ok (binary_normalize 53 1024 z e false).
Proof.
  intros He. destruct z; cbn [binary_normalize];
    [exact I | apply binary_round_exp_ok; assumption ..].
Qed.

Lemma scaled_0 z : scaled z 0 = z * 2 ^ scale.
Proof. reflexivity. Qed.

Lemma of_Z_le z : - 2 ^ 53 < z < 2 ^ 53 -> b64_le_int (B64.of_Z z) z.
Proof.
  intros Hz. apply binary_normalize_le; [rewrite scale_eq; lia | assumption |].
  rewrite scaled_0. lia.
Qed.

Lemma of_Z_ge z : - 2 ^ 53 < z < 2 ^ 53 -> int_le_b64 z (B64.of_Z z).
Proof.
  intros Hz. apply binary_normalize_ge; [rewrite scale_eq; lia | assumption |].
  rewrite scaled_0. lia.
Qed.

Lemma of_Z_exp_ok z : exp_ok (B64.of_Z z).
Proof. apply binary_normalize_exp_ok. rewrite scale_eq. lia. Qed.

(** The signed value, scaled, of a number that is not infinite. *)
Lemma of_Z_finite z :
  - 2 ^ 53 < z < 2 ^ 53 -> z <> 0 ->
  exists s m e, B64.of_Z z = S754_finite s m e /\ -1074 <= e
                /\ cond_Zopp s (scaled (Zpos m) e) = z * 2 ^ scale.
Proof.
  intros Hz Hne.
  pose proof (of_Z_le z Hz) as H1. pose proof (of_Z_ge z Hz) as H2.
  pose proof (of_Z_exp_ok z) as H3.
  destruct (B64.of_Z z) as [s|s| |s m e]; red_rel; try lia; try tauto.
  - congruence.
  - exists s, m, e. repeat split; try assumption. lia.
Qed.

(** ** Multiplication by a positive integer, addition of an integer *)

Lemma scaled_mul mH eH mf ef h :
  -1074 <= eH -> -1074 <= ef ->
  scaled (Zpos mH) eH = h * 2 ^ scale ->
  scaled (Zpos (mH * mf)) (eH + ef) = h * scaled (Zpos mf) ef.
Proof.
  intros HeH Hef H. unfold scaled in *. rewrite Pos2Z.inj_mul.
  pose proof scale_pos as Hs.
  assert (E : 2 ^ (eH + ef + scale) * 2 ^ scale = 2 ^ (eH + scale) * 2 ^ (ef + scale)).
  { rewrite <- !pow2_add by (rewrite ?scale_eq; lia). f_equal. lia. }
  apply (Z.mul_reg_r _ _ (2 ^ scale)); [lia|].
  transitivity (Zpos mf * (Zpos mH * 2 ^ (eH + scale)) * 2 ^ (ef + scale)).
  - rewrite <- !Z.mul_assoc. rewrite E. ring.
  - rewrite H. ring.
Qed.

Lemma mul_int_spec h f k :
  0 < h < 2 ^ 53 -> - 2 ^ 53 < h * k < 2 ^ 53 -> exp_ok f ->
  exp_ok (SFmul 53 1024 (B64.of_Z h) f)
  /\ (b64_le_int f k -> b64_le_int (SFmul 53 1024 (B64.of_Z h) f) (h * k))
  /\ (int_le_b64 k f -> int_le_b64 (h * k) (SFmul 53 1024 (B64.of_Z h) f)).
Proof.
  intros Hh Hk Hf.
  destruct (of_Z_finite h ltac:(lia) ltac:(lia)) as (s & mH & eH & EH & HeH & HV).
  rewrite EH.
  assert (HVp : 0 < scaled (Zpos mH) eH) by (apply scaled_pos; rewrite scale_eq; lia).
  pose proof scale_pos as Hs.
  destruct s; cbn [cond_Zopp] in HV; [nia|].
  destruct f as [sf|sf| |sf mf ef]; cbn [SFmul xorb]; red_rel.
  - repeat split; intros; nia.
  - repeat split; intros; assumption.
  - contradiction.
  - pose proof (scaled_mul mH eH mf ef h HeH Hf HV) as EV.
    assert (He : 0 <= eH + ef + scale) by (rewrite scale_eq; lia).
    assert (HVf : 0 < scaled (Zpos mf) ef) by (apply scaled_pos; rewrite scale_eq; lia).
    split; [apply round_aux_exp_ok; assumption|].
    split; intros H.
    + apply round_aux_le; [assumption | lia |].
      rewrite EV. destruct sf; cbn [cond_Zopp] in *; nia.
    + apply round_aux_ge; [assumption | lia |].
      rewrite EV. destruct sf; cbn [cond_Zopp] in *; nia.
Qed.

Lemma scaled_align s m e ez :
  0 <= ez + scale -> ez <= e ->
  scaled (cond_Zopp s (Zpos (fst (shl_align m e ez)))) ez = cond_Zopp s (scaled (Zpos m) e).
Proof.
  intros Hz Hle. rewrite shl_align_fst by assumption. unfold scaled.
  replace (e + scale) with ((e - ez) + (ez + scale)) by lia.
  rewrite (pow2_add (e - ez) (ez + scale)) by lia.
  destruct s; cbn [cond_Zopp]; ring.
Qed.

Lemma scaled_add z1 z2 e : scaled (z1 + z2) e = scaled z1 e + scaled z2 e.
Proof. unfold scaled. ring. Qed.

Lemma add_int_spec a x c :
  - 2 ^ 53 < a < 2 ^ 53 -> - 2 ^ 53 < a + c < 2 ^ 53 -> exp_ok x ->
  exp_ok (SFadd 53 1024 (B64.of_Z a) x)
  /\ (b64_le_int x c -> b64_le_int (SFadd 53 1024 (B64.of_Z a) x) (a + c))
  /\ (int_le_b64 c x -> int_le_b64 (a + c) (SFadd 53 1024 (B64.of_Z a) x)).
Proof.
  intros Ha Hc Hx. pose proof scale_pos as Hs.
  destruct (Z.eq_dec a 0) as [-> | Hne].
  - change (B64.of_Z 0) with (S754_zero false).
    destruct x as [sx|sx| |sx mx ex]; cbn [SFadd]; red_rel; try contradiction.
    + destruct sx; red_rel; repeat split; intros; lia.
    + repeat split; intros; assumption.
    + repeat split; intros; lia.
  - destruct (of_Z_finite a Ha Hne) as (s & mA & eA & EA & HeA & HV).
    rewrite EA.
    destruct x as [sx|sx| |sx mx ex]; cbn [SFadd]; red_rel; try contradiction.
    + repeat split; intros; nia.
    + repeat split; intros; assumption.
    + set (ez := Z.min eA ex).
      assert (Hz : 0 <= ez + scale) by (unfold ez; rewrite scale_eq; lia).
      assert (EV : scaled (cond_Zopp s (Zpos (fst (shl_align mA eA ez)))
                      + cond_Zopp sx (Zpos (fst (shl_align mx ex ez)))) ez
                   = a * 2 ^ scale + cond_Zopp sx (scaled (Zpos mx) ex)).
      { rewrite scaled_add, !scaled_align by (unfold ez; lia). rewrite HV. reflexivity. }
      split; [apply binary_normalize_exp_ok; assumption|].
      split; intros H.
      * apply binary_normalize_le; [assumption | lia |]. rewrite EV. lia.
      * apply binary_normalize_ge; [assumption | lia |]. rewrite EV. lia.
Qed.


(** ** Rounding to nearest, by value *)

Lemma grid_pos U : 0 < grid U.
Proof. unfold grid. apply pow2_pos. rewrite scale_eq. lia. Qed.

Lemma rne_bounds U :
  0 <= U -> (U / grid U) * grid U <= rne U <= (U / grid U + 1) * grid U.
Proof.
  intros HU. pose proof (grid_pos U) as HG. unfold rne. cbv zeta.
  destruct (2 * (U mod grid U) <? grid U); [nia|].
  destruct ((2 * (U mod grid U) =? grid U) && Z.even (U / grid U)); nia.
Qed.

Lemma rne_same_grid U1 U2 :
  0 <= U1 <= U2 -> grid U1 = grid U2 -> rne U1 <= rne U2.
Proof.
  intros HU HG. pose proof (grid_pos U2) as Hp.
  pose proof (rne_bounds U1 ltac:(lia)) as [L1 H1].
  pose proof (rne_bounds U2 ltac:(lia)) as [L2 H2].
  rewrite HG in *.
  set (G := grid U2) in *.
  assert (Hq : U1 / G <= U2 / G) by (apply Z.div_le_mono; lia).
  destruct (Z.eq_dec (U1 / G) (U2 / G)) as [Eq | Nq]; [|nia].
  assert (Hr : U1 mod G <= U2 mod G).
  { pose proof (Z.div_mod U1 G ltac:(lia)). pose proof (Z.div_mod U2 G ltac:(lia)). nia. }
  unfold rne. cbv zeta. rewrite HG. fold G. rewrite <- Eq.
  destruct (Z.ltb_spec (2 * (U1 mod G)) G) as [A1 | A1];
    destruct (Z.ltb_spec (2 * (U2 mod G)) G) as [A2 | A2]; try lia; try nia.
  - destruct ((2 * (U2 mod G) =? G) && Z.even (U1 / G)); nia.
  - destruct (Z.eqb_spec (2 * (U1 mod G)) G) as [B1 | B1];
      destruct (Z.eqb_spec (2 * (U2 mod G)) G) as [B2 | B2]; cbn [andb];
      try lia; destruct (Z.even (U1 / G)); nia.
Qed.

Lemma rne_mono U1 U2 : 0 < U1 <= U2 -> rne U1 <= rne U2.
Proof.
  intros HU.
  set (k1 := Z.max (Z.log2 U1 + 1 - 53) (scale - 1074)).
  set (k2 := Z.max (Z.log2 U2 + 1 - 53) (scale - 1074)).
  assert (Hl : Z.log2 U1 <= Z.log2 U2) by (apply Z.log2_le_mono; lia).
  assert (Hk : k1 <= k2) by (unfold k1, k2; lia).
  destruct (Z.eq_dec k1 k2) as [Ek | Nk].
  { apply rne_same_grid; [lia|]. unfold grid. fold k1 k2. congruence. }
  assert (Hs : 0 <= scale - 1074) by (rewrite scale_eq; lia).
  assert (Ek2 : k2 = Z.log2 U2 - 52) by (unfold k1, k2 in *; lia).
  assert (Hll : Z.log2 U1 < Z.log2 U2) by (unfold k1, k2 in *; lia).
  pose proof (Z.log2_spec U1 ltac:(lia)) as [_ S1].
  pose proof (Z.log2_spec U2 ltac:(lia)) as [S2 _].
  pose proof (Z.log2_nonneg U1) as N1.
  set (P := 2 ^ Z.log2 U2) in *.
  assert (HP1 : U1 < P).
  { unfold P. eapply Z.lt_le_trans; [exact S1|]. apply pow2_le. lia. }
  pose proof (rne_bounds U1 ltac:(lia)) as [_ H1].
  pose proof (rne_bounds U2 ltac:(lia)) as [L2 _].
  pose proof (grid_pos U1) as G1p. pose proof (grid_pos U2) as G2p.
  assert (EP1 : P = 2 ^ (Z.log2 U2 - k1) * grid U1).
  { unfold P, grid. fold k1. rewrite <- pow2_add by lia. f_equal. lia. }
  assert (EP2 : P = 2 ^ 52 * grid U2).
  { unfold P, grid. fold k2. rewrite <- pow2_add by lia. f_equal. lia. }
  assert (A : (U1 / grid U1 + 1) * grid U1 <= P).
  { assert (U1 / grid U1 < 2 ^ (Z.log2 U2 - k1)).
    { apply Z.div_lt_upper_bound; [lia|]. rewrite Z.mul_comm. lia. }
    rewrite EP1. nia. }
  assert (B : P <= (U2 / grid U2) * grid U2).
  { assert (2 ^ 52 <= U2 / grid U2).
    { apply Z.div_le_lower_bound; [lia|]. rewrite Z.mul_comm. lia. }
    rewrite EP2. nia. }
  lia.
Qed.

Lemma iter_shr_1_full (m : Z) (n : positive) :
  0 <= m ->
  let mrs := SpecFloat.iter_pos shr_1 n (Build_shr_record m false false) in
  let rem := m mod 2 ^ Zpos n in
  shr_m mrs = m / 2 ^ Zpos n
  /\ (shr_r mrs = true <-> 2 ^ (Zpos n - 1) <= rem)
  /\ (shr_s mrs = true <-> rem <> 0 /\ rem <> 2 ^ (Zpos n - 1)).
Proof.
  intros Hm. induction n as [|n IH] using Pos.peano_ind; cbv zeta in *.
  - cbn [SpecFloat.iter_pos].
    destruct (shr_1_spec (Build_shr_record m false false) Hm) as (E1 & E2 & E3).
    cbn [shr_m shr_r shr_s] in E1, E2, E3. rewrite E1, E2, E3.
    change (2 ^ 1) with 2. change (2 ^ (1 - 1)) with 1.
    pose proof (Zmod_odd m) as Ho. pose proof (Z.mod_pos_bound m 2 ltac:(lia)).
    split; [reflexivity|]. cbn [orb].
    destruct (Z.odd m); split; split; intros; try lia; try discriminate; try reflexivity.
  - rewrite iter_pos_succ. destruct IH as (IH1 & IH2 & IH3).
    set (mrs := SpecFloat.iter_pos shr_1 n _) in *.
    assert (Hp : 0 < 2 ^ Zpos n) by (apply pow2_pos; lia).
    assert (H0 : 0 <= shr_m mrs).
    { rewrite IH1. apply Z.div_pos; lia. }
    destruct (shr_1_spec mrs H0) as (E1 & E2 & E3).
    rewrite E1, E2, E3, IH1. rewrite Pos2Z.inj_succ.
    assert (Hs : 2 ^ Z.succ (Zpos n) = 2 ^ Zpos n * 2).
    { unfold Z.succ. rewrite pow2_add by lia. reflexivity. }
    replace (Z.succ (Zpos n) - 1) with (Zpos n) by lia.
    rewrite Hs.
    pose proof (Z.rem_mul_r m (2 ^ Zpos n) 2 ltac:(lia) ltac:(lia)) as Hrem.
    pose proof (Z.mod_pos_bound m (2 ^ Zpos n) Hp) as Hb.
    pose proof (Zmod_odd (m / 2 ^ Zpos n)) as Ho.
    assert (Hh : 0 < 2 ^ (Zpos n - 1)) by (apply pow2_pos; lia).
    split; [rewrite Z.div_div by lia; reflexivity|].
    rewrite Hrem. split.
    + destruct (Z.odd (m / 2 ^ Zpos n)); split; intros; try lia; try discriminate; reflexivity.
    + rewrite orb_true_iff, IH2, IH3.
      destruct (Z.odd (m / 2 ^ Zpos n)); lia.
Qed.

Lemma shr_fexp_full m e :
  0 <= m ->
  let n := fexp 53 1024 (Zdigits2 m + e) - e in
  exists q e1 r s,
    shr_fexp 53 1024 m e loc_Exact = (Build_shr_record q r s, e1)
    /\ ((n <= 0 /\ q = m /\ e1 = e /\ r = false /\ s = false)
        \/ (0 < n /\ q = m / 2 ^ n /\ e1 = e + n
            /\ (r = true <-> 2 ^ (n - 1) <= m mod 2 ^ n)
            /\ (s = true <-> m mod 2 ^ n <> 0 /\ m mod 2 ^ n <> 2 ^ (n - 1)))).
Proof.
  intros Hm n. unfold shr_fexp. fold n. cbn [shr_record_of_loc].
  unfold shr. destruct n as [|k|k] eqn:En.
  - exists m, e, false, false. split; [reflexivity|]. left. repeat split; lia.
  - destruct (iter_shr_1_full m k Hm) as (E1 & E2 & E3). cbv zeta in E1, E2, E3.
    destruct (SpecFloat.iter_pos shr_1 k _) as [q r s]. cbn [shr_m shr_r shr_s] in E1, E2, E3.
    exists q, (e + Zpos k), r, s. split; [reflexivity|]. right.
    split; [lia|]. split; [assumption|]. split; [reflexivity|]. split; assumption.
  - exists m, e, false, false. split; [reflexivity|]. left. repeat split; lia.
Qed.

(** The rounding decision read off the two lost-bit flags. *)
Lemma round_nearest_even_full q r s rem n :
  0 < n -> 0 <= rem < 2 ^ n ->
  (r = true <-> 2 ^ (n - 1) <= rem) ->
  (s = true <-> rem <> 0 /\ rem <> 2 ^ (n - 1)) ->
  round_nearest_even q (loc_of_shr_record (Build_shr_record q r s))
  = if 2 * rem <? 2 ^ n then q
    else if (2 * rem =? 2 ^ n) && Z.even q then q else q + 1.
Proof.
  intros Hn Hrem Hr Hs.
  assert (E : 2 ^ n = 2 * 2 ^ (n - 1)).
  { replace n with (1 + (n - 1)) at 1 by lia. rewrite pow2_add by lia. reflexivity. }
  assert (Hh : 0 < 2 ^ (n - 1)) by (apply pow2_pos; lia).
  destruct r.
  - assert (Hr' : 2 ^ (n - 1) <= rem) by (apply Hr; reflexivity).
    destruct (Z.ltb_spec (2 * rem) (2 ^ n)) as [A | A]; [lia|].
    destruct s.
    + assert (Hs' : rem <> 0 /\ rem <> 2 ^ (n - 1)) by (apply Hs; reflexivity).
      destruct (Z.eqb_spec (2 * rem) (2 ^ n)) as [B | B]; [lia|]. reflexivity.
    + assert (Hs' : rem = 2 ^ (n - 1)).
      { destruct (Z.eq_dec rem (2 ^ (n - 1))) as [Eq | Ne]; [exact Eq|].
        assert (false = true); [|discriminate]. apply Hs. lia. }
      destruct (Z.eqb_spec (2 * rem) (2 ^ n)) as [B | B]; [|lia].
      cbn [loc_of_shr_record round_nearest_even andb]. reflexivity.
  - assert (Hr' : rem < 2 ^ (n - 1)).
    { destruct (Z_lt_ge_dec rem (2 ^ (n - 1))) as [Lt | Ge]; [exact Lt|].
      assert (false = true); [|discriminate]. apply Hr. lia. }
    destruct (Z.ltb_spec (2 * rem) (2 ^ n)) as [A | A]; [|lia].
    destruct s; reflexivity.
Qed.

Lemma log2_digits p : Z.log2 (Zpos p) = Zpos (digits2_pos p) - 1.
Proof.
  pose proof (digits2_bounds p) as [H1 H2].
  apply Z.log2_unique; [lia|].
  replace (Z.succ (Zpos (digits2_pos p) - 1)) with (Zpos (digits2_pos p)) by lia. lia.
Qed.

Lemma grid_scaled p e :
  0 <= e + scale ->
  grid (scaled (Zpos p) e) = 2 ^ (fexp 53 1024 (Zpos (digits2_pos p) + e) + scale).
Proof.
  intros He. unfold grid, scaled.
  rewrite Z.log2_mul_pow2 by lia. rewrite log2_digits, fexp_b64.
  f_equal. lia.
Qed.

Lemma rne_multiple U : 0 <= U -> U mod grid U = 0 -> rne U = U.
Proof.
  intros HU Hm. pose proof (grid_pos U) as HG. unfold rne. cbv zeta. rewrite Hm.
  destruct (Z.ltb_spec (2 * 0) (grid U)); [|lia].
  pose proof (Z.div_mod U (grid U) ltac:(lia)). lia.
Qed.

(** [binary_round_aux] on an exact [p * 2^e]: the nearest binary64 value,
    ties to even, unless it overflows. *)
Lemma round_aux_rne sx p e :
  0 <= e + scale ->
  match binary_round_aux 53 1024 sx (Zpos p) e loc_Exact with
  | S754_zero s => s = sx /\ rne (scaled (Zpos p) e) = 0
  | S754_finite s m' e' =>
      s = sx /\ -1074 <= e' /\ scaled (Zpos m') e' = rne (scaled (Zpos p) e)
  | S754_infinity s => s = sx
  | S754_nan => False
  end.
Proof.
  intros He. pose proof scale_eq as Hsc.
  set (U := scaled (Zpos p) e).
  pose proof (grid_scaled p e He) as HG. fold U in HG.
  set (d := Zpos (digits2_pos p)) in *.
  set (E := fexp 53 1024 (d + e)) in *.
  assert (HE : E = Z.max (d + e - 53) (-1074)) by (unfold E; apply fexp_b64).
  destruct (digits2_bounds p) as [Hd1 Hd2]. fold d in Hd1, Hd2.
  assert (Hd : 0 < d) by (unfold d; lia).
  assert (Hpe : 0 < 2 ^ (e + scale)) by (apply pow2_pos; lia).
  (* the value after the first shift and the rounding: m' * 2^E = rne U *)
  assert (Hfirst : exists m' e1,
            (let '(mrs, e') := shr_fexp 53 1024 (Zpos p) e loc_Exact in
             (round_nearest_even (shr_m mrs) (loc_of_shr_record mrs), e')) = (m', e1)
            /\ 0 <= m' <= 2 ^ 53 /\ -1074 <= e1 /\ e <= e1
            /\ scaled m' e1 = rne U
            /\ (m' = 2 ^ 53 -> -1074 < e1 + 1)
            /\ fexp 53 1024 (53 + e1) = e1).
  { destruct (shr_fexp_full (Zpos p) e ltac:(lia)) as (q & e1 & r & s & Es & Hcase).
    rewrite Es. cbn [shr_m].
    simpl Zdigits2 in Hcase. fold d in Hcase. fold E in Hcase.
    destruct Hcase as [(Hn & -> & -> & -> & ->) | (Hn & -> & -> & Hr & Hs)].
    - cbn [loc_of_shr_record round_nearest_even].
      exists (Zpos p), e. split; [reflexivity|].
      assert (d <= 53) by lia.
      assert (Zpos p < 2 ^ 53).
      { eapply Z.lt_le_trans; [exact Hd2 | apply pow2_le; lia]. }
      split; [lia|]. split; [lia|]. split; [lia|]. split.
      + symmetry. apply rne_multiple; [unfold U, scaled; lia|].
        fold U. rewrite HG. unfold U, scaled.
        replace (e + scale) with ((e - E) + (E + scale)) by lia.
        rewrite (pow2_add (e - E) (E + scale)) by lia.
        rewrite Z.mul_assoc. apply Z.mod_mul.
        apply Z.neq_sym, Z.lt_neq, pow2_pos. lia.
      + split; [lia|]. rewrite fexp_b64. lia.
    - set (n := E - e) in *.
      assert (Hpn : 0 < 2 ^ n) by (apply pow2_pos; lia).
      pose proof (Z.mod_pos_bound (Zpos p) (2 ^ n) Hpn) as Hrem.
      rewrite (round_nearest_even_full _ r s (Zpos p mod 2 ^ n) n Hn Hrem Hr Hs).
      set (q := Zpos p / 2 ^ n) in *. set (rem := Zpos p mod 2 ^ n) in *.
      assert (Hq0 : 0 <= q) by (apply Z.div_pos; lia).
      assert (Hq : q < 2 ^ 53).
      { apply Z.div_lt_upper_bound; [lia|].
        eapply Z.lt_le_trans; [exact Hd2|].
        rewrite <- pow2_add by lia. apply pow2_le. lia. }
      assert (EG : grid U = 2 ^ n * 2 ^ (e + scale)).
      { rewrite HG. replace (E + scale) with (n + (e + scale)) by (unfold n; lia).
        apply pow2_add; lia. }
      assert (EUq : U / grid U = q).
      { rewrite EG. unfold U, scaled. apply Z.div_mul_cancel_r; lia. }
      assert (EUr : U mod grid U = rem * 2 ^ (e + scale)).
      { rewrite EG. unfold U, scaled. apply Z.mul_mod_distr_r; lia. }
      eexists _, (e + n). split; [reflexivity|].
      assert (Hrne : rne U = (if 2 * rem <? 2 ^ n then q
                              else if (2 * rem =? 2 ^ n) && Z.even q then q else q + 1)
                             * grid U).
      { unfold rne. cbv zeta. rewrite EUq, EUr, EG.
        destruct (Z.ltb_spec (2 * rem) (2 ^ n)) as [A | A];
          destruct (Z.ltb_spec (2 * (rem * 2 ^ (e + scale))) (2 ^ n * 2 ^ (e + scale)))
            as [A' | A']; try nia; try reflexivity.
        destruct (Z.eqb_spec (2 * rem) (2 ^ n)) as [B | B];
          destruct (Z.eqb_spec (2 * (rem * 2 ^ (e + scale))) (2 ^ n * 2 ^ (e + scale)))
            as [B' | B']; try nia; cbn [andb]; try destruct (Z.even q); reflexivity. }
      set (m' := if 2 * rem <? 2 ^ n then q
                 else if (2 * rem =? 2 ^ n) && Z.even q then q else q + 1) in *.
      assert (Hm' : q <= m' <= q + 1).
      { unfold m'. destruct (2 * rem <? 2 ^ n); [lia|].
        destruct ((2 * rem =? 2 ^ n) && Z.even q); lia. }
      split; [lia|]. split; [unfold n; lia|]. split; [lia|]. split.
      + rewrite Hrne, HG. unfold scaled. f_equal. f_equal. unfold n. lia.
      + split; [unfold n; lia|]. rewrite fexp_b64. unfold n. lia. }
  destruct Hfirst as (m' & e1 & E1 & Hm' & He1 & Hee & HV & _ & Hfix).
  unfold binary_round_aux.
  destruct (shr_fexp 53 1024 (Zpos p) e loc_Exact) as [mrs e'] eqn:Es.
  injection E1 as E1a E1b. rewrite E1a, E1b. clear Es E1a E1b mrs e'.
  (* the second shift renormalises 2^53 and changes nothing else *)
  destruct (shr_fexp_spec m' e1 ltac:(lia)) as (m2 & e2 & r2 & s2 & E2 & Hl2 & Hcase2).
  rewrite E2. cbn [shr_m].
  assert (H2 : 0 <= m2 /\ scaled m2 e2 = rne U).
  { destruct Hcase2 as [(Hn & -> & -> & _) | (Hn & -> & -> & _)].
    - split; [lia | assumption].
    - destruct m' as [|p'|p']; [simpl in Hn; rewrite fexp_b64 in Hn; lia | | lia].
      simpl Zdigits2 in Hn.
      destruct (digits2_bounds p') as [Hp1 Hp2].
      set (d' := Zpos (digits2_pos p')) in *.
      rewrite fexp_b64 in Hn.
      assert (Hd' : 54 <= d') by lia.
      assert (Hge : 2 ^ 53 <= Zpos p').
      { eapply Z.le_trans; [|exact Hp1]. apply pow2_le. lia. }
      assert (Ep : Zpos p' = 2 ^ 53) by lia.
      assert (Ed : d' = 54).
      { assert (2 ^ (d' - 1) < 2 ^ 54).
        { eapply Z.le_lt_trans; [exact Hp1|]. rewrite Ep. reflexivity. }
        apply pow2_lt_inv in H; lia. }
      simpl Zdigits2. fold d'. rewrite fexp_b64.
      replace (Z.max (d' + e1 - 53) (-1074) - e1) with 1 by lia.
      rewrite Ep. change (2 ^ 53 / 2 ^ 1) with (2 ^ 52).
      split; [apply Z.lt_le_incl, pow2_pos; lia|].
      rewrite <- HV, Ep. unfold scaled.
      replace (e1 + 1 + scale) with (1 + (e1 + scale)) by lia.
      rewrite (pow2_add 1 (e1 + scale)) by lia.
      change (2 ^ 53) with (2 ^ 52 * 2 ^ 1). ring. }
  destruct H2 as [Hm2 HV2].
  destruct m2 as [|q2|q2]; [| | lia].
  - split; [reflexivity|]. rewrite <- HV2. unfold scaled. reflexivity.
  - destruct (Z.leb e2 (1024 - 53)); [|reflexivity].
    repeat split; assumption.
Qed.

Lemma rne_0 : rne 0 = 0.
Proof. apply rne_multiple; [lia|]. apply Z.mod_0_l. pose proof (grid_pos 0). lia. Qed.

Lemma rne_nonneg U : 0 <= U -> 0 <= rne U.
Proof.
  intros HU. pose proof (rne_bounds U HU) as [L _]. pose proof (grid_pos U).
  assert (0 <= U / grid U) by (apply Z.div_pos; lia). nia.
Qed.

Lemma rne_mono0 U1 U2 : 0 <= U1 <= U2 -> rne U1 <= rne U2.
Proof.
  intros HU. destruct (Z.eq_dec U1 0) as [-> | Hne].
  - rewrite rne_0. apply rne_nonneg. lia.
  - apply rne_mono. lia.
Qed.

Lemma rne_signed_mono z1 z2 : z1 <= z2 -> rne_signed z1 <= rne_signed z2.
Proof.
  intros Hz. unfold rne_signed.
  destruct (Z.leb_spec 0 z1) as [A1 | A1]; destruct (Z.leb_spec 0 z2) as [A2 | A2]; try lia.
  - apply rne_mono0. lia.
  - pose proof (rne_nonneg (- z1) ltac:(lia)). pose proof (rne_nonneg z2 ltac:(lia)). lia.
  - pose proof (rne_mono0 (- z2) (- z1) ltac:(lia)). lia.
Qed.

Lemma rne_signed_cond s U :
  0 <= U -> cond_Zopp s (rne U) = rne_signed (cond_Zopp s U).
Proof.
  intros HU. unfold rne_signed. destruct s; cbn [cond_Zopp].
  - destruct (Z.leb_spec 0 (- U)) as [A | A].
    + assert (U = 0) by lia. subst U. rewrite rne_0. reflexivity.
    + rewrite Z.opp_involutive. reflexivity.
  - destruct (Z.leb_spec 0 U); [reflexivity | lia].
Qed.

(** What rounding [p * 2^e] with sign [sx] gives, by value. *)
Lemma round_aux_value sx p e :
  0 <= e + scale ->
  let r := binary_round_aux 53 1024 sx (Zpos p) e loc_Exact in
  exp_ok r
  /\ (b64_real r -> b64_scaled r = rne_signed (cond_Zopp sx (scaled (Zpos p) e))).
Proof.
  intros He r. pose proof (round_aux_rne sx p e He) as H. fold r in H.
  pose proof (scaled_pos p e He) as Hp.
  rewrite <- rne_signed_cond by lia.
  destruct r as [s|s| |s m' e']; cbn [exp_ok b64_real b64_scaled]; try tauto.
  - destruct H as [-> H]. rewrite H. split; [exact I|]. intros _. destruct sx; reflexivity.
  - destruct H as (-> & He' & H). rewrite H. split; [assumption | reflexivity].
Qed.

Lemma binary_round_value sx p e :
  0 <= e + scale ->
  let r := binary_round 53 1024 sx p e in
  exp_ok r
  /\ (b64_real r -> b64_scaled r = rne_signed (cond_Zopp sx (scaled (Zpos p) e))).
Proof.
  intros He. rewrite binary_round_eq.
  set (e' := fexp 53 1024 _).
  assert (He' : 0 <= e' + scale).
  { unfold e'. rewrite fexp_b64, scale_eq. lia. }
  destruct (shl_align_spec p e e' He') as [EV Ee].
  rewrite <- EV. apply round_aux_value. lia.
Qed.

Lemma binary_normalize_value z e :
  0 <= e + scale ->
  let r := binary_normalize 53 1024 z e false in
  exp_ok r /\ (b64_real r -> b64_scaled r = rne_signed (scaled z e)).
Proof.
  intros He. destruct z as [|p|p]; cbn [binary_normalize].
  - split; [exact I|]. intros _. cbn [b64_scaled]. unfold scaled, rne_signed.
    rewrite Z.mul_0_l. cbn [Z.leb Z.compare]. symmetry. apply rne_0.
  - apply (binary_round_value false p e He).
  - pose proof (binary_round_value true p e He) as H. cbv zeta in H |- *.
    cbn [cond_Zopp] in H. unfold scaled in *.
    replace (Z.neg p * 2 ^ (e + scale)) with (- (Zpos p * 2 ^ (e + scale))) by lia.
    exact H.
Qed.

Lemma b64_le_int_real x c : b64_real x -> (b64_le_int x c <-> b64_scaled x <= c * 2 ^ scale).
Proof.
  pose proof scale_pos. destruct x; cbn [b64_real b64_le_int b64_scaled]; try tauto.
  intros _. split; intros; nia.
Qed.

Lemma int_le_b64_real x c : b64_real x -> (int_le_b64 c x <-> c * 2 ^ scale <= b64_scaled x).
Proof.
  pose proof scale_pos. destruct x; cbn [b64_real int_le_b64 b64_scaled]; try tauto.
  intros _. split; intros; nia.
Qed.

Lemma bounded_real x lo hi : int_le_b64 lo x -> b64_le_int x hi -> b64_real x.
Proof.
  destruct x as [s|s| |s m e]; cbn [int_le_b64 b64_le_int b64_real]; try tauto.
  intros -> H. discriminate.
Qed.

Lemma mul_int_value h f :
  0 < h < 2 ^ 53 -> exp_ok f -> b64_real f ->
  let r := SFmul 53 1024 (B64.of_Z h) f in
  b64_real r -> b64_scaled r = rne_signed (h * b64_scaled f).
Proof.
  intros Hh Hf Hr.
  destruct (of_Z_finite h ltac:(lia) ltac:(lia)) as (s & mH & eH & EH & HeH & HV).
  rewrite EH.
  assert (HVp : 0 < scaled (Zpos mH) eH) by (apply scaled_pos; rewrite scale_eq; lia).
  pose proof scale_pos as Hs.
  destruct s; cbn [cond_Zopp] in HV; [nia|].
  destruct f as [sf|sf| |sf mf ef]; cbn [SFmul xorb b64_real exp_ok] in *; try contradiction.
  - intros _. cbn [b64_scaled]. rewrite Z.mul_0_r. unfold rne_signed. cbn [Z.leb Z.compare].
    symmetry. apply rne_0.
  - pose proof (scaled_mul mH eH mf ef h HeH Hf HV) as EV.
    assert (He : 0 <= eH + ef + scale) by (rewrite scale_eq; lia).
    destruct (round_aux_value sf (mH * mf) (eH + ef) He) as [_ Hval].
    intros Hreal. rewrite (Hval Hreal), EV. cbn [b64_scaled].
    f_equal. destruct sf; cbn [cond_Zopp]; ring.
Qed.

Lemma add_int_value a x :
  - 2 ^ 53 < a < 2 ^ 53 -> exp_ok x -> b64_real x ->
  let r := SFadd 53 1024 (B64.of_Z a) x in
  b64_real r ->
  b64_scaled r = if a =? 0 then b64_scaled x else rne_signed (a * 2 ^ scale + b64_scaled x).
Proof.
  intros Ha Hx Hr. pose proof scale_pos as Hs.
  destruct (Z.eqb_spec a 0) as [-> | Hne].
  - change (B64.of_Z 0) with (S754_zero false).
    destruct x as [sx|sx| |sx mx ex]; cbn [SFadd b64_real] in *; try contradiction.
    + destruct sx; reflexivity.
    + reflexivity.
  - destruct (of_Z_finite a Ha Hne) as (s & mA & eA & EA & HeA & HV).
    assert (Hfix : rne_signed (a * 2 ^ scale) = a * 2 ^ scale).
    { destruct (binary_normalize_value a 0 ltac:(rewrite scale_eq; lia)) as [_ Hv].
      change (binary_normalize 53 1024 a 0 false) with (B64.of_Z a) in Hv.
      rewrite EA in Hv. cbn [b64_real b64_scaled] in Hv.
      rewrite scaled_0 in Hv. rewrite <- (Hv I). exact HV. }
    rewrite EA.
    destruct x as [sx|sx| |sx mx ex]; cbn [SFadd b64_real exp_ok] in *; try contradiction.
    + intros _. cbn [b64_scaled]. rewrite Z.add_0_r, Hfix. exact HV.
    + set (ez := Z.min eA ex).
      assert (Hz : 0 <= ez + scale) by (unfold ez; rewrite scale_eq; lia).
      assert (EV : scaled (cond_Zopp s (Zpos (fst (shl_align mA eA ez)))
                           + cond_Zopp sx (Zpos (fst (shl_align mx ex ez)))) ez
                   = a * 2 ^ scale + cond_Zopp sx (scaled (Zpos mx) ex)).
      { rewrite scaled_add, !scaled_align by (unfold ez; lia). rewrite HV. reflexivity. }
      destruct (binary_normalize_value
                  (cond_Zopp s (Zpos (fst (shl_align mA eA ez)))
                   + cond_Zopp sx (Zpos (fst (shl_align mx ex ez)))) ez Hz) as [_ Hv].
      intros Hreal. rewrite (Hv Hreal), EV. reflexivity.
Qed.

(** The moving coordinate is weakly increasing in the fraction. *)
Lemma coord_mono (a h : Z) (f g : spec_float) :
  - 2 ^ 40 <= a <= 2 ^ 40 -> 0 < h <= 2 ^ 41 -> exp_ok f -> exp_ok g ->
  int_le_b64 (-1024) f -> b64_le f g -> b64_le_int g 1024 ->
  b64_le (nint a +! nint h *! f)%num (nint a +! nint h *! g)%num.
Proof.
  intros Ha Hh Hf Hg Hlo (Rf & Rg & Hfg) Hhi. pose proof scale_pos as Hs.
  assert (E40 : 2 ^ 40 = 1099511627776) by reflexivity.
  assert (E41 : 2 ^ 41 = 2199023255552) by reflexivity.
  assert (E53 : 2 ^ 53 = 9007199254740992) by reflexivity.
  rewrite E40 in Ha. rewrite E41 in Hh.
  (* both fractions lie between -1024 and 1024 *)
  apply (int_le_b64_real f _ Rf) in Hlo. apply (b64_le_int_real g _ Rg) in Hhi.
  assert (Hlo' : int_le_b64 (-1024) g) by (apply (int_le_b64_real g _ Rg); lia).
  assert (Hhi' : b64_le_int f 1024) by (apply (b64_le_int_real f _ Rf); lia).
  apply (int_le_b64_real f _ Rf) in Hlo. apply (b64_le_int_real g _ Rg) in Hhi.
  assert (Hh53 : 0 < h < 2 ^ 53) by (rewrite E53; lia).
  assert (Ha53 : - 2 ^ 53 < a < 2 ^ 53) by (rewrite E53; lia).
  (* the products *)
  destruct (mul_int_spec h f 1024 Hh53 ltac:(rewrite E53; lia) Hf) as (Ef1 & Uf & _).
  destruct (mul_int_spec h f (-1024) Hh53 ltac:(rewrite E53; lia) Hf) as (_ & _ & Lf).
  destruct (mul_int_spec h g 1024 Hh53 ltac:(rewrite E53; lia) Hg) as (Eg1 & Ug & _).
  destruct (mul_int_spec h g (-1024) Hh53 ltac:(rewrite E53; lia) Hg) as (_ & _ & Lg).
  specialize (Uf Hhi'). specialize (Lf Hlo). specialize (Ug Hhi). specialize (Lg Hlo').
  set (mf := SFmul 53 1024 (B64.of_Z h) f) in *.
  set (mg := SFmul 53 1024 (B64.of_Z h) g) in *.
  pose proof (bounded_real mf _ _ Lf Uf) as Rmf.
  pose proof (bounded_real mg _ _ Lg Ug) as Rmg.
  assert (Hm : b64_scaled mf <= b64_scaled mg).
  { unfold mf, mg. rewrite !mul_int_value by assumption.
    apply rne_signed_mono. nia. }
  (* the sums *)
  destruct (add_int_spec a mf (h * 1024) Ha53 ltac:(rewrite E53; lia) Ef1) as (_ & Uyf & _).
  destruct (add_int_spec a mf (h * -1024) Ha53 ltac:(rewrite E53; lia) Ef1) as (_ & _ & Lyf).
  destruct (add_int_spec a mg (h * 1024) Ha53 ltac:(rewrite E53; lia) Eg1) as (_ & Uyg & _).
  destruct (add_int_spec a mg (h * -1024) Ha53 ltac:(rewrite E53; lia) Eg1) as (_ & _ & Lyg).
  specialize (Uyf Uf). specialize (Lyf Lf). specialize (Uyg Ug). specialize (Lyg Lg).
  change (nint a +! nint h *! f)%num with (SFadd 53 1024 (B64.of_Z a) mf).
  change (nint a +! nint h *! g)%num with (SFadd 53 1024 (B64.of_Z a) mg).
  pose proof (bounded_real _ _ _ Lyf Uyf) as Ryf.
  pose proof (bounded_real _ _ _ Lyg Uyg) as Ryg.
  split; [exact Ryf|]. split; [exact Ryg|].
  rewrite (add_int_value a mf Ha53 Ef1 Rmf Ryf), (add_int_value a mg Ha53 Eg1 Rmg Ryg).
  destruct (a =? 0); [exact Hm|]. apply rne_signed_mono. lia.
Qed.







(** ** Anchors *)

Local Open Scope Q_scope.

Lemma inject_Z_sub (a b : Z) : inject_Z (a - b) == inject_Z a - inject_Z b.
Proof. unfold Z.sub. rewrite inject_Z_plus, inject_Z_opp. reflexivity. Qed.

Lemma inject_Z_lt (a b : Z) : (a < b)%Z -> inject_Z a < inject_Z b.
Proof. intros Hab. unfold Qlt, inject_Z. simpl. lia. Qed.

Local Close Scope Q_scope.

Lemma b64_le_int_mono x c c' : b64_le_int x c -> c <= c' -> b64_le_int x c'.
Proof.
  pose proof scale_pos. destruct x; cbn [b64_le_int]; intros; try assumption; try lia; nia.
Qed.

Lemma int_le_b64_mono x c c' : int_le_b64 c x -> c' <= c -> int_le_b64 c' x.
Proof.
  pose proof scale_pos. destruct x; cbn [int_le_b64]; intros; try assumption; try lia; nia.
Qed.


Lemma b64_number_exp_ok f : b64_number f -> exp_ok f.
Proof.
  intros [Hv Hn]. destruct f as [s|s| |s m e]; cbn [exp_ok]; try exact I; [congruence|].
  cbn [valid_binary] in Hv. unfold bounded, canonical_mantissa in Hv.
  apply andb_prop in Hv as [Hc _]. apply Z.eqb_eq in Hc.
  change (fexp B64.prec B64.emax) with (fexp 53 1024) in Hc.
  rewrite fexp_b64 in Hc. lia.
Qed.





(** ** The script's own data *)

(** Worked values, for the two boxes of the first route. *)
Example box_Conversation : box entities positions "Conversation" = Ok (470, 460, 790, 708)%Z.
Proof. vm_compute. reflexivity. Qed.

Example box_Message : box entities positions "Message" = Ok (80, 500, 400, 724)%Z.
Proof. vm_compute. reflexivity. Qed.

Example entity_h_Conversation : entity_h entities "Conversation" = Ok 248%Z.
Proof. vm_compute. reflexivity. Qed.

(** In machine arithmetic too, fractions 0.0 and 1.0 give the corners of
    every side of every entity of the script. *)
Lemma edge_corners_binary64 :
  forallb (fun name => forallb (corners_agree_b64 name) ["L"; "R"; "T"; "B"])
          (map fst entities) = true.
Proof. vm_compute. reflexivity. Qed.

Lemma known_nameb_spec name : known_nameb name = true -> known_name name.
Proof.
  unfold known_nameb, known_name. rewrite andb_true_iff, existsb_exists.
  intros [(k & Hk & E) Hp]. apply String.eqb_eq in E as ->.
  split; [exact Hk|]. destruct (positions !! k); [eauto | discriminate].
Qed.

Lemma Forall_known_names {num} (R : list (route num)) :
  forallb (fun r => known_nameb (src r) && known_nameb (tgt r)) R = true ->
  Forall (fun r => known_name (src r) /\ known_name (tgt r)) R.
Proof.
  rewrite forallb_forall, List.Forall_forall. intros Hb r Hr.
  specialize (Hb r Hr). apply andb_true_iff in Hb as [Hs Ht].
  split; apply known_nameb_spec; assumption.
Qed.

(** C6.  The static data is referentially intact: entity names and position
    names are each listed once, the two key sets are equal, and every entity
    named by a route of [routes()] is a key of both maps. *)
Theorem static_data_referentially_intact :
  NoDup (map fst entities)
  /\ NoDup (map fst positions_items)
  /\ dom positions = list_to_set (map fst entities)
  /\ (forall num (H : PyNum num),
        exists R : list (route num),
          routes entities positions = Ok R
          /\ Forall (fun r => known_name (src r) /\ known_name (tgt r)) R).
Proof.
  split; [|split; [|split]].
  - compute_done.
  - compute_done.
  - compute_done.
  - intros num H. eexists. split; [vm_compute; reflexivity|].
    apply Forall_known_names. vm_compute. reflexivity.
Qed.

(** ** Orthogonality of the route table *)

(** C1.  The route table is not orthogonal throughout.  Its first route,
    Conversation L 0.3 to Message R 0.3 with no waypoint, runs from
    (470, 534.4) to (400, 567.2), a diagonal segment; in all, 9 of the 26
    routes have a diagonal segment, on the rationals and in binary64 alike. *)
Theorem routes_not_all_orthogonal :
  (exists (r : route Q) R' sx sy tx ty,
     routes entities positions = Ok (r :: R')
     /\ r = Route "Conversation" "L" (nlit 3 10) "Message" "R" (nlit 3 10) [] "H" "R"
     /\ route_points entities positions r = Ok [Some (sx, sy); Some (tx, ty)]
     /\ (sx == 470 /\ sy == 5344 # 10 /\ tx == 400 /\ ty == 5672 # 10)%Q
     /\ route_orthogonal entities positions r = false)
  /\ orthogonality_flags (num:=Q)
     = Ok [false; false; true; true; true; false; true; true; true; false;
           true; false; true; false; true; true; false; true; true; false;
           false; true; true; true; true; true]
  /\ orthogonality_flags (num:=spec_float)
     = Ok [false; false; true; true; true; false; true; true; true; false;
           true; false; true; false; true; true; false; true; true; false;
           false; true; true; true; true; true].
Proof.
  split; [|split; vm_compute; reflexivity].
  do 6 eexists.
  split; [vm_compute; reflexivity|].
  split; [reflexivity|].
  split; [vm_compute; reflexivity|].
  split; [|vm_compute; reflexivity].
  repeat split; vm_compute; reflexivity.
Qed.

(** ** Counterexample and instances *)

(** C8 as stated fails: a first line that holds a closing bracket, or one
    that is indented with a tab, and nothing that the script tests, is
    painted in bold. *)
Lemma first_line_bold_despite_bracket_or_tab :
  (draw_note (num:=Q) [] (0, 0, 100, ["x]"])%Z
   = [rectangle (0, 0, 100, 32)%Z (Some NOTE_BG) (Some NOTE_BORDER);
      text (8, 6)%Z "x]" "#333333" font_bold]
   /\ claimed_bold 0 "x]" = false)
  /\ (draw_note (num:=Q) [] (0, 0, 100, [String "009" "x"])%Z
      = [rectangle (0, 0, 100, 32)%Z (Some NOTE_BG) (Some NOTE_BORDER);
         text (8, 6)%Z (String "009" "x") "#333333" font_bold]
      /\ claimed_bold 0 (String "009" "x") = false).
Proof. repeat split; reflexivity. Qed.

Lemma box_height_exact_witness :
  entity_h three_attrs "E" = Ok 104%Z
  /\ box three_attrs {["E" := (10, 20)%Z]} "E" = Ok (10, 20, 330, 124)%Z.
Proof.
  destruct (box_height_exact three_attrs {["E" := (10, 20)%Z]} "E"
              [("id", "int", false); ("name", "string", false); ("ownerID", "int", true)]
              10 20) as (_ & Hb & _ & _ & Hh).
  - reflexivity.
  - vm_compute. reflexivity.
  - split; [apply Hh; reflexivity | exact Hb].
Defined.



Lemma missing_position_fails_loudly_witness :
  box entities positions "Ghost" = Raise (KeyError "Ghost")
  /\ raises (render (num:=Q) entities positions notes
               [Route "Conversation" "L" (nlit 3 10) "Ghost" "R" (nlit 3 10) [] "H" "R"]).
Proof.
  destruct (missing_position_fails_loudly (num:=Q) entities positions notes "Ghost")
    as (Hb & _ & _ & _ & _ & Hr & _).
  - vm_compute. reflexivity.
  - split; [exact Hb|].
    apply (Hr _ (Route "Conversation" "L" (nlit 3 10) "Ghost" "R" (nlit 3 10) [] "H" "R")).
    + left. reflexivity.
    + right. reflexivity.
Defined.

Lemma layering_order_witness :
  exists (R : list (route spec_float)) (rs es : list (canvas spec_float)),
    routes entities positions = Ok R
    /\ Forall2 (route_painted entities positions) R rs
    /\ Forall2 (entity_painted entities positions) (map fst entities) es
    /\ saved_canvas = concat rs ++ concat es ++ concat (map note_ops notes).
Proof.
  apply (layering_order entities positions notes saved_canvas).
  vm_compute. reflexivity.
Defined.

Lemma note_line_font_witness :
  exists f : font_var,
    draw_note (num:=Q) [] (1250, 640, 250, ["Model Parameters"; "  temperature"])%Z !! 1%nat
    = Some (text (1258, 646)%Z "Model Parameters" "#333333" f)
    /\ f = font_bold.
Proof.
  destruct (note_line_font (num:=Q) 1250 640 250 ["Model Parameters"; "  temperature"]
              0%nat "Model Parameters" eq_refl) as (f & Hd & Hb & _).
  exists f. split; [exact Hd|]. apply Hb.
  split; [reflexivity|]. split; [discriminate|].
  split; apply (bool_decide_unpack _); vm_compute; exact I.
Defined.

(** * Further properties of the drawing procedures *)

Section MoreFacts.
Context {num : Type} `{PyNum num}.
Variable ents : list (string * list attr).
Variable poss : gmap string (Z * Z).

Local Abbreviation canvas := (canvas num).
Local Abbreviation route := (route num).
Local Abbreviation pt := (@pt num).

(** ** Polylines *)

Lemma paint_length (c : canvas) op : length (paint c op) = S (length c).
Proof. unfold paint. rewrite length_app. simpl. lia. Qed.

Lemma segments_length (pts : list pt) : length (segments pts) = (length pts - 1)%nat.
Proof.
  induction pts as [|p pts IH]; [reflexivity|].
  destruct pts as [|q pts]; [reflexivity|].
  change (segments (p :: q :: pts))
    with (line (Some p) (Some q) LINE_COLOR (Some 1) :: segments (q :: pts)).
  simpl length in *. lia.
Qed.

Lemma segments_lookup (pts : list pt) i p q :
  pts !! i = Some p -> pts !! S i = Some q ->
  segments pts !! i = Some (line (Some p) (Some q) LINE_COLOR (Some 1)).
Proof.
  revert i. induction pts as [|p0 pts IH]; intros i Hp Hq; [discriminate|].
  destruct pts as [|q0 pts]; [discriminate|].
  change (segments (p0 :: q0 :: pts))
    with (line (Some p0) (Some q0) LINE_COLOR (Some 1) :: segments (q0 :: pts)).
  destruct i as [|i].
  - simpl in *. congruence.
  - apply (IH i Hp Hq).
Qed.

Lemma draw_ortho_line_None_in (points : list (option pt)) (c : canvas) :
  (2 <= length points)%nat -> In None points ->
  draw_ortho_line c points = Raise ValueError.
Proof.
  revert c. induction points as [|p points IH]; intros c Hl Hin; [simpl in Hl; lia|].
  destruct points as [|q points]; [simpl in Hl; lia|].
  destruct p as [p|]; [|reflexivity].
  destruct q as [q|]; [|reflexivity].
  change (draw_ortho_line c (Some p :: Some q :: points))
    with (draw_ortho_line (paint c (line (Some p) (Some q) LINE_COLOR (Some 1)))
            (Some q :: points)).
  destruct Hin as [Hin | [Hin | Hin]]; [discriminate | discriminate |].
  apply IH.
  - destruct points; [contradiction | simpl; lia].
  - right. exact Hin.
Qed.

(** X1.  Given points, [draw_ortho_line] leaves what is on the canvas and
    paints one segment for each pair of consecutive points, in order:
    len(points) - 1 segments, none for an empty list or a single point, and
    segment i joins points[i] to points[i+1].  Given a list of two or more
    elements one of which is None, it raises ValueError (from
    [draw_ctx.line]). *)
Theorem draw_ortho_line_segments (points : list (option pt)) (c : canvas) :
  (forall pts : list pt, points = map Some pts ->
     exists segs : canvas,
       draw_ortho_line c points = Ok (c ++ segs)
       /\ length segs = (length points - 1)%nat
       /\ (forall i p q, points !! i = Some p -> points !! S i = Some q ->
             segs !! i = Some (line p q LINE_COLOR (Some 1))))
  /\ ((2 <= length points)%nat -> In None points ->
      draw_ortho_line c points = Raise ValueError).
Proof.
  split; [|apply draw_ortho_line_None_in].
  intros pts ->. exists (segments pts).
  split; [apply draw_ortho_line_Some|].
  split; [rewrite segments_length, length_map; reflexivity|].
  intros i p q Hp Hq.
  assert (Hmap : forall j o, map Some pts !! j = Some o ->
                   exists a : pt, o = Some a /\ pts !! j = Some a).
  { clear. induction pts as [|a pts IH]; intros j o Hj; [discriminate|].
    destruct j as [|j]; [injection Hj as <-; eauto | apply (IH j o Hj)]. }
  apply Hmap in Hp as (a & -> & Ha). apply Hmap in Hq as (b & -> & Hb).
  apply segments_lookup; assumption.
Qed.

(** ** Entity boxes *)

Lemma draw_columns_length (cols : list attr) (c : canvas) x y i :
  length (draw_columns c x y i cols) = (length c + 4 * length cols)%nat.
Proof.
  revert c i. induction cols as [|[[cn ct] fk] cols IH]; intros c i; simpl; [lia|].
  rewrite IH, !paint_length. lia.
Qed.

Lemma draw_columns_unfold cn ct (fk : bool) (cols : list attr) x y i :
  draw_columns ([] : canvas) x y i ((cn, ct, fk) :: cols)
  = [rectangle (x, i * ROW_H + (y + HEADER_H), x + BOX_W, i * ROW_H + (y + HEADER_H) + ROW_H)%Z
               (Some (if fk then FK_PINK else ROW_WHITE)) (Some BORDER);
     line (ipt (x + COL_W) (i * ROW_H + (y + HEADER_H)))
          (ipt (x + COL_W) (i * ROW_H + (y + HEADER_H) + ROW_H)) BORDER None;
     text (x + 6, i * ROW_H + (y + HEADER_H) + 3)%Z cn "black" font;
     text (x + COL_W + 6, i * ROW_H + (y + HEADER_H) + 3)%Z ct "black" font]
    ++ draw_columns [] x y (i + 1) cols.
Proof.
  replace (i * ROW_H + (y + HEADER_H))%Z with (y + HEADER_H + i * ROW_H)%Z by lia.
  cbn [draw_columns].
  change (paint (paint (paint (paint [] ?a) ?b) ?c) ?d) with ([a; b; c; d] ++ ([] : canvas)).
  apply draw_columns_frame.
Qed.

(** The four calls for row [k], counted from row index [i]. *)
Lemma draw_columns_lookup (cols : list attr) x y i (k : nat) cn ct (fk : bool) :
  cols !! k = Some (cn, ct, fk) ->
  let ry := ((i + Z.of_nat k) * ROW_H + (y + HEADER_H))%Z in
  let ops := draw_columns ([] : canvas) x y i cols in
  ops !! (4 * k)%nat
  = Some (rectangle (x, ry, x + BOX_W, ry + ROW_H)%Z
                    (Some (if fk then FK_PINK else ROW_WHITE)) (Some BORDER))
  /\ ops !! (4 * k + 1)%nat
     = Some (line (ipt (x + COL_W) ry) (ipt (x + COL_W) (ry + ROW_H)) BORDER None)
  /\ ops !! (4 * k + 2)%nat = Some (text (x + 6, ry + 3)%Z cn "black" font)
  /\ ops !! (4 * k + 3)%nat = Some (text (x + COL_W + 6, ry + 3)%Z ct "black" font).
Proof.
  revert i k. induction cols as [|[[cn0 ct0] fk0] cols IH]; intros i k Hk; [discriminate|].
  cbv zeta. rewrite draw_columns_unfold. destruct k as [|k].
  - injection Hk as -> -> ->. rewrite Z.add_0_r. repeat split; reflexivity.
  - simpl in Hk. specialize (IH (i + 1)%Z k Hk). cbv zeta in IH.
    replace (i + 1 + Z.of_nat k)%Z with (i + Z.of_nat (S k))%Z in IH by lia.
    replace (4 * S k)%nat with (4 + 4 * k)%nat by lia.
    exact IH.
Qed.

(** X5.  For an entity with a position (x, y) and n attributes,
    [draw_entity] paints 4 + 4 n calls on top of the canvas: the shadow, the
    header band, the entity name in bold, then for row k its 24-pixel band
    starting 30 + 24 k below y (pink if the attribute is a foreign key, white
    otherwise), its divider, its name and its type, and last the outer
    border, whose bottom edge is 2 pixels below the last row. *)
Theorem draw_entity_layout name (cols : list attr) x y :
  dict_get ents name = Ok cols ->
  poss !! name = Some (x, y) ->
  let n := Z.of_nat (length cols) in
  exists ops : canvas,
    (forall c, draw_entity ents poss c name = Ok (c ++ ops))
    /\ length ops = (4 + 4 * length cols)%nat
    /\ ops !! 0%nat
       = Some (rectangle (x + 3, y + 3, x + 320 + 3, y + (32 + 24 * n) + 3)%Z
                         (Some "#dddddd") None)
    /\ ops !! 1%nat
       = Some (rectangle (x, y, x + 320, y + 30)%Z (Some HEADER_GREEN) (Some BORDER))
    /\ ops !! 2%nat = Some (text (x + 8, y + 5)%Z name "black" font_bold)
    /\ (forall (k : nat) cn ct (fk : bool),
          cols !! k = Some (cn, ct, fk) ->
          let ry := (y + 30 + 24 * Z.of_nat k)%Z in
          ops !! (3 + 4 * k)%nat
          = Some (rectangle (x, ry, x + 320, ry + 24)%Z
                            (Some (if fk then FK_PINK else ROW_WHITE)) (Some BORDER))
          /\ ops !! (3 + 4 * k + 1)%nat
             = Some (line (ipt (x + 220) ry) (ipt (x + 220) (ry + 24)) BORDER None)
          /\ ops !! (3 + 4 * k + 2)%nat = Some (text (x + 6, ry + 3)%Z cn "black" font)
          /\ ops !! (3 + 4 * k + 3)%nat = Some (text (x + 226, ry + 3)%Z ct "black" font))
    /\ ops !! (3 + 4 * length cols)%nat
       = Some (rectangle (x, y, x + 320, y + (30 + 24 * n + 2))%Z None (Some BORDER)).
Proof.
  intros Hc Hp n.
  set (h := (HEADER_H + n * ROW_H + 2)%Z).
  set (head := [rectangle (x + 3, y + 3, x + BOX_W + 3, y + h + 3)%Z (Some "#dddddd") None;
                rectangle (x, y, x + BOX_W, y + HEADER_H)%Z (Some HEADER_GREEN) (Some BORDER);
                text (x + 8, y + 5)%Z name "black" font_bold] : canvas).
  set (rows := draw_columns ([] : canvas) x y 0 cols).
  set (border := rectangle (x, y, x + BOX_W, y + h)%Z None (Some BORDER) : draw_op num).
  assert (Hrows : length rows = (4 * length cols)%nat).
  { unfold rows. rewrite draw_columns_length. reflexivity. }
  exists (head ++ rows ++ [border]). split; [|split; [|split; [|split; [|split; [|split]]]]].
  - intros c. unfold draw_entity. rewrite (pos_get_Some _ _ _ Hp). simpl.
    rewrite Hc. simpl. rewrite (entity_h_eq _ _ _ Hc). simpl. fold n. fold h.
    change (paint (paint (paint c ?a) ?b) ?d) with (paint (paint (paint c a) b) d).
    unfold paint at 2 3 4.
    rewrite <- !List.app_assoc. simpl.
    change (c ++ ?a :: ?b :: ?d :: []) with (c ++ head ++ []).
    rewrite (List.app_assoc c head []), draw_columns_frame.
    unfold paint. rewrite <- !List.app_assoc. reflexivity.
  - rewrite !length_app, Hrows. simpl. lia.
  - unfold h, n. replace (32 + 24 * Z.of_nat (length cols))%Z
      with (HEADER_H + Z.of_nat (length cols) * ROW_H + 2)%Z by (unfold HEADER_H, ROW_H; lia).
    reflexivity.
  - reflexivity.
  - reflexivity.
  - intros k cn ct fk Hk ry.
    destruct (draw_columns_lookup cols x y 0 k cn ct fk Hk) as (H0 & H1 & H2 & H3).
    replace ((0 + Z.of_nat k) * ROW_H + (y + HEADER_H))%Z with ry in H0, H1, H2, H3
      by (unfold ry, ROW_H, HEADER_H; lia).
    fold rows in H0, H1, H2, H3.
    assert (Hlt : (4 * k + 3 < length rows)%nat).
    { apply lookup_lt_Some in H3. exact H3. }
    change (3 + 4 * k + 1)%nat with (3 + (4 * k + 1))%nat.
    change (3 + 4 * k + 2)%nat with (3 + (4 * k + 2))%nat.
    change (3 + 4 * k + 3)%nat with (3 + (4 * k + 3))%nat.
    change (head ++ rows ++ [border]) with (head ++ (rows ++ [border])).
    rewrite !(lookup_app_r head) by (simpl; lia).
    replace (3 + 4 * k - length head)%nat with (4 * k)%nat by (simpl; lia).
    replace (3 + (4 * k + 1) - length head)%nat with (4 * k + 1)%nat by (simpl; lia).
    replace (3 + (4 * k + 2) - length head)%nat with (4 * k + 2)%nat by (simpl; lia).
    replace (3 + (4 * k + 3) - length head)%nat with (4 * k + 3)%nat by (simpl; lia).
    rewrite !lookup_app_l by lia.
    replace (x + COL_W + 6)%Z with (x + 226)%Z in H3 by (unfold COL_W; lia).
    split; [exact H0|]. split; [exact H1|]. split; [exact H2 | exact H3].
  - rewrite (lookup_app_r head) by (simpl; lia).
    rewrite lookup_app_r by (simpl; lia).
    replace (3 + 4 * length cols - length head - length rows)%nat with 0%nat by (simpl; lia).
    replace (y + (30 + 24 * n + 2))%Z with (y + h)%Z by (unfold h, HEADER_H, ROW_H; lia).
    reflexivity.
Qed.

(** ** Notes *)

Lemma draw_note_lines_length (lines : list string) (c : canvas) x y i :
  length (draw_note_lines c x y i lines) = (length c + length lines)%nat.
Proof.
  revert c i. induction lines as [|ln lines IH]; intros c i; simpl; [lia|].
  rewrite IH, paint_length. lia.
Qed.

(** X6.  [draw_note] paints the background rectangle, 20 n + 12 pixels high
    for n lines (12 for no line, 92 for four), and then one text call per
    line; line i is written at (x + 8, y + 6 + 20 i), and its 20-pixel slot
    lies between the top of the background and 6 pixels above its bottom. *)
Theorem draw_note_layout (c : canvas) x y w (lines : list string) :
  let n := Z.of_nat (length lines) in
  exists texts : canvas,
    draw_note c (x, y, w, lines)
    = c ++ rectangle (x, y, x + w, y + (20 * n + 12))%Z (Some NOTE_BG) (Some NOTE_BORDER)
           :: texts
    /\ length texts = length lines
    /\ (forall (i : nat) ln,
          lines !! i = Some ln ->
          let ty := (y + 6 + 20 * Z.of_nat i)%Z in
          texts !! i = Some (text (x + 8, ty)%Z ln "#333333" (note_font (Z.of_nat i) ln))
          /\ (y < ty /\ ty + 20 <= y + (20 * n + 12) - 6)%Z).
Proof.
  intros n. exists (draw_note_lines ([] : canvas) x y 0 lines). split; [|split].
  - unfold draw_note. fold n.
    replace (n * 20 + 12)%Z with (20 * n + 12)%Z by lia.
    unfold paint. rewrite <- (List.app_nil_r (c ++ _)), draw_note_lines_frame.
    rewrite <- List.app_assoc. reflexivity.
  - rewrite draw_note_lines_length. reflexivity.
  - intros i ln Hi ty. split.
    + rewrite (draw_note_lines_lookup lines x y 0 i ln Hi). unfold ty.
      replace ((0 + Z.of_nat i) * 20)%Z with (20 * Z.of_nat i)%Z by lia.
      reflexivity.
    + apply lookup_lt_Some in Hi. unfold ty, n. lia.
Qed.

(** ** What a relationship paints *)

Lemma one_mark_of_length side (sp : pt) :
  valid_side side -> length (one_mark_of side sp) = 1%nat.
Proof. destruct sp as [x y]. intros [-> | [-> | [-> | ->]]]; reflexivity. Qed.

Lemma crow_foot_of_length toward (tp : pt) :
  length (crow_foot_of toward tp) = if valid_towardb toward then 3%nat else 0%nat.
Proof.
  destruct tp as [x y]. unfold crow_foot_of, valid_towardb.
  destruct (String.eqb toward "L"), (String.eqb toward "R"),
           (String.eqb toward "U"), (String.eqb toward "D"); reflexivity.
Qed.

Lemma edge_Some_valid_side name side (frac : num) (p : pt) :
  edge ents poss name side frac = Ok (Some p) -> valid_side side.
Proof.
  intros He. apply valid_sideb_spec.
  destruct (valid_sideb side) eqn:E; [reflexivity|].
  assert (Hn : ~ valid_side side).
  { intros Hv. apply valid_sideb_spec in Hv. congruence. }
  unfold edge in He. apply bind_inv_Ok in He as (b & Hb & He).
  rewrite (edge_on_invalid_side _ _ _ Hn) in He. discriminate.
Qed.

(** X7.  When [draw_relationship] returns, both anchors exist (both sides
    are among L, R, T, B) and it has painted, on top of the canvas and in
    this order: the segments of the polyline from the source anchor through
    the waypoints to the target anchor, one more than there are waypoints;
    the tick at the source; the three prongs of the crow's foot when
    [crow_dir] is one of L, R, U, D.  An unknown [crow_dir] silently loses
    the foot.  An unknown side is not silent: with both boxes present the
    None anchor reaches [draw_ctx.line], which raises ValueError. *)
Theorem draw_relationship_paints (c : canvas) (r : route) :
  (forall c', draw_relationship ents poss c r = Ok c' ->
     exists sp tp : pt,
       edge ents poss (src r) (src_side r) (src_frac r) = Ok (Some sp)
       /\ edge ents poss (tgt r) (tgt_side r) (tgt_frac r) = Ok (Some tp)
       /\ valid_side (src_side r) /\ valid_side (tgt_side r)
       /\ c' = c ++ segments (sp :: waypoints r ++ [tp])
                 ++ one_mark_of (src_side r) sp
                 ++ crow_foot_of (crow_dir r) tp
       /\ length (segments (sp :: waypoints r ++ [tp])) = S (length (waypoints r))
       /\ length (one_mark_of (src_side r) sp) = 1%nat
       /\ length (crow_foot_of (crow_dir r) tp)
          = if valid_towardb (crow_dir r) then 3%nat else 0%nat)
  /\ (is_Ok (box ents poss (src r)) -> is_Ok (box ents poss (tgt r)) ->
      ~ (valid_side (src_side r) /\ valid_side (tgt_side r)) ->
      draw_relationship ents poss c r = Raise ValueError).
Proof.
  split.
  - intros c' Hd. apply draw_relationship_inv in Hd as (sp & tp & Es & Et & ->).
    pose proof (edge_Some_valid_side _ _ _ _ Es) as Hs.
    pose proof (edge_Some_valid_side _ _ _ _ Et) as Ht.
    exists sp, tp. repeat split; try assumption.
    + rewrite segments_length. simpl. rewrite length_app. simpl. lia.
    + apply one_mark_of_length, Hs.
    + apply crow_foot_of_length.
  - intros [bs Hbs] [bt Hbt] Hn.
    pose proof (edge_eq ents poss (src r) (src_side r) (src_frac r) bs Hbs) as Es.
    pose proof (edge_eq ents poss (tgt r) (tgt_side r) (tgt_frac r) bt Hbt) as Et.
    apply (draw_relationship_None ents poss c r _ _ Es Et).
    destruct (edge_on bs (src_side r) (src_frac r)) as [sp|] eqn:E1; [|auto].
    destruct (edge_on bt (tgt_side r) (tgt_frac r)) as [tp|] eqn:E2; [|auto].
    exfalso. apply Hn. split.
    + apply (edge_Some_valid_side (src r) _ (src_frac r) sp). rewrite Es. reflexivity.
    + apply (edge_Some_valid_side (tgt r) _ (tgt_frac r) tp). rewrite Et. reflexivity.
Qed.

(** ** The route table for every schema and layout *)

Lemma box_raise_key name e : box ents poss name = Raise e -> e = KeyError name.
Proof.
  unfold box, entity_h, pos_get, dict_get.
  destruct (poss !! name) as [[x y]|]; simpl; [|congruence].
  destruct (List.find _ ents) as [kv|]; simpl; [discriminate | congruence].
Qed.

Lemma edge_is_Ok_box name side (frac : num) p :
  edge ents poss name side frac = Ok p -> is_Ok (box ents poss name).
Proof.
  unfold edge. intros He. apply bind_inv_Ok in He as (b & Hb & _). exists b. exact Hb.
Qed.

Lemma edge_boxed name side (frac : num) :
  is_Ok (box ents poss name) -> valid_side side ->
  exists x y, edge ents poss name side frac = Ok (Some (x, y)).
Proof.
  intros [b Hb] Hs. destruct (edge_on_valid_side b side frac Hs) as [[x y] Hp].
  exists x, y. rewrite (edge_eq _ _ _ _ _ _ Hb), Hp. reflexivity.
Qed.

Lemma on_Ok_bind_edge {B} (P : B -> Prop) name side (frac : num) (k : option pt -> res B) :
  valid_side side ->
  (forall x y, edge ents poss name side frac = Ok (Some (x, y)) -> on_Ok P (k (Some (x, y)))) ->
  on_Ok P (edge ents poss name side frac ≫= k).
Proof.
  intros Hs Hk b Hb. apply bind_inv_Ok in Hb as (p & Hp & Hb).
  destruct (edge_boxed name side frac (edge_is_Ok_box _ _ _ _ Hp) Hs) as (x & y & E).
  rewrite E in Hp. injection Hp as <-. exact (Hk x y E b Hb).
Qed.

Lemma on_Ok_bind_Ok {A B} (P : B -> Prop) (a : A) (k : A -> res B) :
  on_Ok P (k a) -> on_Ok P (Ok a ≫= k).
Proof. trivial. Qed.

Lemma on_Ok_bind_item0 {B} (P : B -> Prop) (x y : num) (k : num -> res B) :
  on_Ok P (k x) -> on_Ok P (item0 (Some (x, y)) ≫= k).
Proof. trivial. Qed.

Lemma on_Ok_bind_item1 {B} (P : B -> Prop) (x y : num) (k : num -> res B) :
  on_Ok P (k y) -> on_Ok P (item1 (Some (x, y)) ≫= k).
Proof. trivial. Qed.

Lemma on_Ok_mret {A} (P : A -> Prop) (a : A) : P a -> on_Ok P (mret a).
Proof. intros Ha b [= <-]. exact Ha. Qed.

Ltac side_ok := unfold valid_side; auto 6.

(** Walk through the body of [routes()]: each [edge] call returned a point,
    which is kept as an equation; what is left is the table itself. *)
Ltac walk_routes :=
  unfold routes; cbv zeta;
  repeat first
    [ apply on_Ok_bind_edge;
      [side_ok | let E := fresh "E" in intros ? ? E; try rewrite E]
    | apply on_Ok_bind_Ok
    | apply on_Ok_bind_item0
    | apply on_Ok_bind_item1 ];
  apply on_Ok_mret; cbv [append app].

Ltac rewrite_edges :=
  repeat match goal with
         | E : edge _ _ ?n ?s ?f = Ok _ |- context [edge _ _ ?n ?s ?f] => rewrite E
         end.

Ltac split_Forall HF :=
  repeat (let Hx := fresh "Hx" in apply List.Forall_cons_iff in HF as [Hx HF]).

Lemma routes_inv :
  on_Ok (fun R : list route =>
           map ends_of R = route_ends
           /\ Forall (fun name => is_Ok (box ents poss name)) anchor_names)
        (routes ents poss).
Proof.
  walk_routes. split; [reflexivity|].
  unfold anchor_names. repeat (apply List.Forall_cons; [eapply edge_is_Ok_box; eassumption|]).
  apply List.Forall_nil.
Qed.

Lemma is_Ok_bind_edge {B} name side (frac : num) (k : option pt -> res B) :
  is_Ok (box ents poss name) -> valid_side side ->
  (forall x y, is_Ok (k (Some (x, y)))) ->
  is_Ok (edge ents poss name side frac ≫= k).
Proof.
  intros Hb Hs Hk. destruct (edge_boxed name side frac Hb Hs) as (x & y & ->). apply Hk.
Qed.

Lemma is_Ok_bind_item0 {B} (x y : num) (k : num -> res B) :
  is_Ok (k x) -> is_Ok (item0 (Some (x, y)) ≫= k).
Proof. trivial. Qed.

Lemma is_Ok_bind_item1 {B} (x y : num) (k : num -> res B) :
  is_Ok (k y) -> is_Ok (item1 (Some (x, y)) ≫= k).
Proof. trivial. Qed.

Lemma routes_is_Ok :
  Forall (fun name => is_Ok (box ents poss name)) anchor_names -> is_Ok (routes ents poss).
Proof.
  intros HF. unfold anchor_names in HF. split_Forall HF.
  unfold routes. cbv zeta.
  repeat first [ apply is_Ok_bind_edge; [assumption | side_ok | intros ? ?]
               | apply is_Ok_bind_item0
               | apply is_Ok_bind_item1 ].
  eexists. reflexivity.
Qed.

Lemma raises_anchor_bind_edge {B} name side (frac : num) (k : option pt -> res B) :
  In name anchor_names -> valid_side side ->
  (forall x y, raises_anchor ents poss (k (Some (x, y)))) ->
  raises_anchor ents poss (edge ents poss name side frac ≫= k).
Proof.
  intros Hin Hs Hk e. destruct (box ents poss name) as [b|e0] eqn:Eb.
  - destruct (edge_boxed name side frac (ex_intro _ b Eb) Hs) as (x & y & ->). apply Hk.
  - unfold edge. rewrite Eb. intros [= <-].
    exists name. split; [exact Hin|]. split; [apply (box_raise_key _ _ Eb) | exact Eb].
Qed.

Lemma raises_anchor_bind_item0 {B} (x y : num) (k : num -> res B) :
  raises_anchor ents poss (k x) -> raises_anchor ents poss (item0 (Some (x, y)) ≫= k).
Proof. trivial. Qed.

Lemma raises_anchor_bind_item1 {B} (x y : num) (k : num -> res B) :
  raises_anchor ents poss (k y) -> raises_anchor ents poss (item1 (Some (x, y)) ≫= k).
Proof. trivial. Qed.

Ltac in_list_tac := unfold anchor_names; simpl; repeat (first [left; reflexivity | right]).

Lemma routes_raises_anchor : raises_anchor ents poss (routes ents poss).
Proof.
  unfold routes. cbv zeta.
  repeat first [ apply raises_anchor_bind_edge; [in_list_tac | side_ok | intros ? ?]
               | apply raises_anchor_bind_item0
               | apply raises_anchor_bind_item1 ].
  intros e He. discriminate.
Qed.

(** X3.  Whatever the schema and the layout, [routes()] returns exactly when
    each of the twelve entities whose anchors it computes has a box (a
    position and a schema entry).  When it returns, the table has the same 26
    routes with the same ends, sides and end-cap directions: only waypoints
    depend on the layout.  When it raises, the exception is the KeyError of
    one of the twelve that has no box. *)
Theorem routes_returns_iff :
  (is_Ok (routes ents poss)
   <-> Forall (fun name => is_Ok (box ents poss name)) anchor_names)
  /\ (forall R : list route, routes ents poss = Ok R -> map ends_of R = route_ends)
  /\ (forall e, routes ents poss = Raise e ->
        exists name, In name anchor_names /\ e = KeyError name
                     /\ box ents poss name = Raise e).
Proof.
  split; [split|split].
  - intros [R HR]. apply (routes_inv R HR).
  - apply routes_is_Ok.
  - intros R HR. apply (routes_inv R HR).
  - apply routes_raises_anchor.
Qed.

(** ** Routes with waypoints *)

Ltac route_orthogonal_tac Hrefl :=
  cbn [waypoints];
  first
    [ intros Hn; exfalso; apply Hn; reflexivity
    | intros _; unfold route_orthogonal, route_points;
      cbn [src src_side src_frac tgt tgt_side tgt_frac waypoints];
      rewrite_edges; simpl; rewrite ?Hrefl, ?orb_true_r; reflexivity ].

Lemma routes_waypoints_orthogonal :
  (forall x : num, (x =?! x)%num = true) ->
  on_Ok (Forall (fun r : route => waypoints r <> [] -> route_orthogonal ents poss r = true))
        (routes ents poss).
Proof.
  intros Hrefl. walk_routes.
  repeat (apply List.Forall_cons; [route_orthogonal_tac Hrefl|]).
  apply List.Forall_nil.
Qed.

(** X2.  Whatever the schema and the layout, every route of [routes()] that
    has at least one waypoint is orthogonal, for any arithmetic in which a
    number equals itself: its waypoints are built from the coordinates of its
    own two anchors.  Only routes without waypoints can be diagonal. *)
Theorem waypoint_routes_orthogonal (R : list route) (r : route) :
  (forall x : num, (x =?! x)%num = true) ->
  routes ents poss = Ok R ->
  In r R ->
  waypoints r <> [] ->
  route_orthogonal ents poss r = true.
Proof.
  intros Hrefl HR Hin Hw.
  pose proof (routes_waypoints_orthogonal Hrefl R HR) as HF.
  rewrite List.Forall_forall in HF. exact (HF r Hin Hw).
Qed.

(** ** When the run completes *)

Lemma is_Ok_bind {A B} (m : res A) (k : A -> res B) :
  is_Ok m -> (forall a, is_Ok (k a)) -> is_Ok (m ≫= k).
Proof. intros [a ->] Hk. apply Hk. Qed.

Lemma for_each_Ok_Forall {A} (body : canvas -> A -> res canvas) (l : list A) c d :
  for_each body c l = Ok d -> Forall (fun a => exists c0, is_Ok (body c0 a)) l.
Proof.
  revert c. induction l as [|a l IH]; intros c Hd; [apply List.Forall_nil|].
  simpl in Hd. apply bind_inv_Ok in Hd as (c' & Ha & Hd).
  apply List.Forall_cons; [exists c, c'; exact Ha | exact (IH c' Hd)].
Qed.

Lemma for_each_is_Ok {A} (body : canvas -> A -> res canvas) (l : list A) :
  Forall (fun a => forall c, is_Ok (body c a)) l -> forall c, is_Ok (for_each body c l).
Proof.
  induction 1 as [|a l Ha _ IH]; intros c; simpl; [eexists; reflexivity|].
  apply is_Ok_bind; [apply Ha | exact IH].
Qed.

Lemma draw_relationship_Ok_boxes c (r : route) :
  is_Ok (draw_relationship ents poss c r) ->
  is_Ok (box ents poss (src r)) /\ is_Ok (box ents poss (tgt r)).
Proof.
  intros [c' Hd]. unfold draw_relationship in Hd.
  apply bind_inv_Ok in Hd as (sp & Hs & Hd).
  apply bind_inv_Ok in Hd as (tp & Ht & _).
  split; eapply edge_is_Ok_box; eassumption.
Qed.

Lemma draw_relationship_is_Ok c (r : route) :
  is_Ok (box ents poss (src r)) -> is_Ok (box ents poss (tgt r)) ->
  route_sides_valid r ->
  is_Ok (draw_relationship ents poss c r).
Proof.
  intros Hs Ht [Vs Vt].
  destruct (edge_boxed (src r) (src_side r) (src_frac r) Hs Vs) as (sx & sy & Es).
  destruct (edge_boxed (tgt r) (tgt_side r) (tgt_frac r) Ht Vt) as (tx & ty & Et).
  rewrite (draw_relationship_ops ents poss c r _ _ Es Et).
  eexists. reflexivity.
Qed.

Lemma dict_get_In (name : string) : In name (map fst ents) -> is_Ok (dict_get ents name).
Proof.
  unfold dict_get. intros Hin.
  destruct (List.find (fun kv => String.eqb (fst kv) name) ents) as [kv|] eqn:Ef;
    [eexists; reflexivity|].
  apply in_map_iff in Hin as ([k v] & Hk & Hin). simpl in Hk. subst k.
  pose proof (List.find_none _ _ Ef _ Hin) as Hn. simpl in Hn.
  rewrite String.eqb_refl in Hn. discriminate.
Qed.

Lemma draw_entity_Ok_pos c name :
  is_Ok (draw_entity ents poss c name) -> is_Some (poss !! name).
Proof.
  intros [c' Hd]. unfold draw_entity, pos_get in Hd.
  destruct (poss !! name) as [p|]; [eauto | discriminate].
Qed.

Lemma draw_entity_is_Ok c name :
  is_Some (poss !! name) -> In name (map fst ents) -> is_Ok (draw_entity ents poss c name).
Proof.
  intros [[x y] Hp] Hin. destruct (dict_get_In name Hin) as [cols Hc].
  unfold draw_entity. rewrite (pos_get_Some _ _ _ Hp). simpl. rewrite Hc. simpl.
  rewrite (entity_h_eq _ _ _ Hc). eexists. reflexivity.
Qed.

(** X4.  The script runs to completion and saves its image exactly when
    each of the 17 entities that the route table connects has a position and
    a schema entry, and every entity of the schema has a position.  Notes
    never make it fail. *)
Theorem main_returns_iff nts :
  is_Ok (main ents poss nts)
  <-> Forall (fun name => is_Ok (box ents poss name)) route_names
      /\ Forall (fun name => is_Some (poss !! name)) (map fst ents).
Proof.
  split.
  - intros [d Hm]. unfold main in Hm.
    apply bind_inv_Ok in Hm as (R & HR & Hm).
    destruct (routes_inv R HR) as [HE _]. unfold render in Hm.
    apply bind_inv_Ok in Hm as (d1 & H1 & Hm).
    apply bind_inv_Ok in Hm as (d2 & H2 & _).
    apply for_each_Ok_Forall in H1, H2. split.
    + assert (HQ : Forall (fun e : string * string * string * string * string * string =>
                             is_Ok (box ents poss (fst (fst (fst (fst (fst e))))))
                             /\ is_Ok (box ents poss (snd (fst (fst (fst e))))))
                          (map ends_of R)).
      { apply List.Forall_map. revert H1. apply List.Forall_impl.
        intros r [c0 Hr]. exact (draw_relationship_Ok_boxes c0 r Hr). }
      rewrite HE in HQ. unfold route_ends in HQ.
      repeat (let Hx := fresh "Hx" in
              apply List.Forall_cons_iff in HQ as [Hx HQ]; cbn [fst snd] in Hx;
              destruct Hx as [? ?]).
      unfold route_names. repeat (apply List.Forall_cons; [assumption|]).
      apply List.Forall_nil.
    + revert H2. apply List.Forall_impl. intros name [c0 Hn].
      exact (draw_entity_Ok_pos c0 name Hn).
  - intros [HB HP].
    assert (HA : Forall (fun name => is_Ok (box ents poss name)) anchor_names).
    { unfold route_names in HB. split_Forall HB.
      unfold anchor_names. repeat (apply List.Forall_cons; [assumption|]).
      apply List.Forall_nil. }
    destruct (routes_is_Ok HA) as [R HR].
    destruct (routes_inv R HR) as [HE _].
    unfold main. rewrite HR. change (is_Ok (render ents poss nts R)).
    unfold render. cbv zeta.
    apply is_Ok_bind.
    { apply for_each_is_Ok.
      assert (HQ : Forall (fun e : string * string * string * string * string * string =>
                             is_Ok (box ents poss (fst (fst (fst (fst (fst e))))))
                             /\ is_Ok (box ents poss (snd (fst (fst (fst e)))))
                             /\ valid_side (snd (fst (fst (fst (fst e)))))
                             /\ valid_side (snd (fst (fst e))))
                          (map ends_of R)).
      { rewrite HE. unfold route_names in HB. split_Forall HB. unfold route_ends.
        repeat (apply List.Forall_cons;
                [cbn [fst snd]; split; [assumption|]; split; [assumption|]; split; side_ok|]).
        apply List.Forall_nil. }
      apply List.Forall_map in HQ. revert HQ. apply List.Forall_impl.
      intros r (Hs & Ht & Vs & Vt) c.
      apply draw_relationship_is_Ok; [exact Hs | exact Ht | split; assumption]. }
    intros d1. apply is_Ok_bind.
    { apply for_each_is_Ok. apply List.Forall_forall. intros name Hin c.
      rewrite List.Forall_forall in HP. apply draw_entity_is_Ok; [apply HP, Hin | exact Hin]. }
    intros d2. apply is_Ok_bind; [|intros d3; eexists; reflexivity].
    apply for_each_is_Ok. apply List.Forall_forall. intros n _ c. eexists. reflexivity.
Qed.

End MoreFacts.

(** ** Anchors move along their side *)

(** X8.  In binary64, for an entity with a box (coordinates within 2^40)
    and fractions -1024 <= f <= g <= 1024, the anchor at [g] is at or after
    the anchor at [f] along the side: the coordinate fixed by the side is the
    same number, the other one does not decrease.  It need not increase: 0.3
    and the double after it give the same anchor on the left side of
    Conversation. *)
Theorem edge_weakly_monotone ents poss name b side (f g : spec_float) :
  box ents poss name = Ok b ->
  box_in_range b ->
  valid_side side ->
  b64_number f -> b64_number g ->
  int_le_b64 (-1024) f -> b64_le f g -> b64_le_int g 1024 ->
  exists p q : spec_float * spec_float,
    edge ents poss name side f = Ok (Some p)
    /\ edge ents poss name side g = Ok (Some q)
    /\ (if side_is_vertical side
        then fst p = fst q /\ b64_le (snd p) (snd q)
        else snd p = snd q /\ b64_le (fst p) (fst q))
    /\ (b64_le (nlit 3 10) after_three_tenths
        /\ ~ b64_le after_three_tenths (nlit 3 10)
        /\ edge (num:=spec_float) entities positions "Conversation" "L" (nlit 3 10)
           = edge entities positions "Conversation" "L" after_three_tenths).
Proof.
  intros Hb Hr Hs Hf Hg Hlo Hfg Hhi. destruct b as [[[x1 y1] x2] y2].
  destruct (box_inv _ _ _ _ _ _ _ Hb) as [Hx Hy].
  apply b64_number_exp_ok in Hf, Hg.
  rewrite !(edge_eq _ _ _ _ _ _ Hb).
  assert (E40 : 2 ^ 40 = 1099511627776) by reflexivity.
  assert (E41 : 2 ^ 41 = 2199023255552) by reflexivity.
  destruct Hr as (Hx1 & Hx2 & Hy1 & Hy2). rewrite E40 in Hx1, Hx2, Hy1, Hy2.
  pose proof (coord_mono y1 (y2 - y1) f g ltac:(rewrite E40; lia)
                ltac:(rewrite E41; lia) Hf Hg Hlo Hfg Hhi) as My.
  pose proof (coord_mono x1 (x2 - x1) f g ltac:(rewrite E40; lia)
                ltac:(rewrite E41; lia) Hf Hg Hlo Hfg Hhi) as Mx.
  assert (Hex : b64_le (nlit 3 10) after_three_tenths
                /\ ~ b64_le after_three_tenths (nlit 3 10)
                /\ edge (num:=spec_float) entities positions "Conversation" "L" (nlit 3 10)
                   = edge entities positions "Conversation" "L" after_three_tenths).
  { split; [|split].
    - vm_compute. repeat split; discriminate.
    - intros (_ & _ & H). vm_compute in H. apply H. reflexivity.
    - vm_compute. reflexivity. }
  destruct Hs as [-> | [-> | [-> | ->]]];
    cbn [edge_on String.eqb Ascii.eqb Bool.eqb side_is_vertical orb];
    (eexists; eexists; split; [reflexivity|]; split; [reflexivity|]);
    cbn [fst snd]; (split; [split; [reflexivity | assumption] | exact Hex]).
Qed.

(** ** Font loading *)

(** X9.  Font loading is all or nothing.  If the three TrueType loads all
    return, the three names are bound to them; if any one raises, all three
    names are bound to the default font, also those whose own file loaded.
    So the bold font differs from the note font exactly when all three loads
    return. *)
Theorem load_fonts_all_or_nothing (readable : string -> Z -> bool) :
  let ok := readable "arial.ttf" 16%Z && readable "arialbd.ttf" 18%Z
            && readable "arial.ttf" 14%Z in
  (ok = true ->
   load_fonts readable
   = (TrueType "arial.ttf" 16, TrueType "arialbd.ttf" 18, TrueType "arial.ttf" 14))
  /\ (ok = false -> load_fonts readable = (DefaultFont, DefaultFont, DefaultFont))
  /\ (ok = false -> forall v, font_of readable v = DefaultFont)
  /\ (font_of readable font_bold = font_of readable font_note <-> ok = false).
Proof.
  cbv zeta. unfold font_of, load_fonts, truetype, FONT_SIZE, HEADER_FONT_SIZE, NOTE_FONT_SIZE.
  destruct (readable "arial.ttf" 16%Z), (readable "arialbd.ttf" 18%Z),
           (readable "arial.ttf" 14%Z); simpl;
    (split; [try discriminate; reflexivity|]);
    (split; [try discriminate; reflexivity|]);
    (split; [try discriminate; intros _ [| |]; reflexivity|]);
    split; try discriminate; try reflexivity.
Qed.

(** ** Instances *)

Lemma draw_entity_layout_witness :
  exists ops : canvas Q,
    draw_entity entities positions [] "RolePolicy" = Ok ops
    /\ length ops = 20%nat
    /\ ops !! 19%nat = Some (rectangle (80, 1260, 400, 1388)%Z None (Some BORDER)).
Proof.
  destruct (draw_entity_layout (num:=Q) entities positions "RolePolicy"
              [("roleID", "int", false); ("policyID", "int", false);
               ("createdAt", "datetime", false); ("updatedAt", "datetime", false)]
              80 1260) as (ops & Hd & Hl & _ & _ & _ & _ & Hb).
  - reflexivity.
  - vm_compute. reflexivity.
  - exists ops. split; [exact (Hd [])|]. split; [exact Hl | exact Hb].
Defined.

Lemma waypoint_routes_orthogonal_witness :
  route_orthogonal entities positions fifth_route = true.
Proof.
  apply (waypoint_routes_orthogonal (num:=Q) entities positions script_routes fifth_route).
  - intros x. apply Qeq_bool_refl.
  - vm_compute. reflexivity.
  - vm_compute. do 4 right. left. reflexivity.
  - vm_compute. discriminate.
Defined.

Lemma edge_weakly_monotone_witness :
  exists p q : spec_float * spec_float,
    edge entities positions "Conversation" "L" (nlit 3 10) = Ok (Some p)
    /\ edge entities positions "Conversation" "L" (nlit 7 10) = Ok (Some q)
    /\ fst p = fst q /\ b64_le (snd p) (snd q).
Proof.
  destruct (edge_weakly_monotone entities positions "Conversation"
              (470, 460, 790, 708) "L" (nlit 3 10) (nlit 7 10))
    as (p & q & Hp & Hq & Hm & _).
  - vm_compute. reflexivity.
  - vm_compute. repeat split; discriminate.
  - left. reflexivity.
  - split; [vm_compute; reflexivity | vm_compute; discriminate].
  - split; [vm_compute; reflexivity | vm_compute; discriminate].
  - vm_compute. discriminate.
  - vm_compute. repeat split; discriminate.
  - vm_compute. discriminate.
  - exists p, q. split; [exact Hp|]. split; [exact Hq|]. exact Hm.
Defined.

(** ** End caps and the boxes they sit on *)

Local Open Scope Q_scope.

Lemma box_dims ents poss name x1 y1 x2 y2 :
  box ents poss name = Ok (x1, y1, x2, y2) ->
  (x2 = x1 + 320 /\ y1 + 32 <= y2)%Z.
Proof.
  unfold box, entity_h. intros Hb.
  apply bind_inv_Ok in Hb as ([x y] & _ & Hb).
  apply bind_inv_Ok in Hb as (h & Hh & Hb).
  apply bind_inv_Ok in Hh as (cols & _ & Hh).
  injection Hh as <-. injection Hb as <- <- <- <-.
  unfold BOX_W, COL_W, TYPE_W, HEADER_H, ROW_H. lia.
Qed.

Lemma inject_Z_le (a b : Z) : (a <= b)%Z -> inject_Z a <= inject_Z b.
Proof. intros Hab. unfold Qle, inject_Z. simpl. lia. Qed.

Lemma edge_on_Some_valid (b : Z * Z * Z * Z) side (f : Q) p :
  edge_on b side f = Some p -> valid_side side.
Proof.
  destruct b as [[[x1 y1] x2] y2]. unfold edge_on, valid_side.
  destruct (String.eqb_spec side "L"); [auto|].
  destruct (String.eqb_spec side "R"); [auto|].
  destruct (String.eqb_spec side "T"); [auto|].
  destruct (String.eqb_spec side "B"); [auto 6 | discriminate].
Qed.

(** Of the two coordinates of an anchor, keep the one that is fixed by its
    side (an edge of the box) and forget how the other was computed. *)
Ltac anchor_on_edge He :=
  simpl in He;
  let Hax := fresh "Hax" in
  let Hay := fresh "Hay" in
  injection He as Hax Hay;
  match goal with
  | Hq : inject_Z _ = ?v |- _ => subst v
  end;
  match goal with
  | Hq : _ = ?v |- _ => is_var v; clear Hq
  end.

Ltac expose_pixels :=
  change (inject_Z 12) with 12 in *; change (inject_Z 8) with 8 in *;
  change (inject_Z 10) with 10 in *; change (inject_Z 7) with 7 in *.

(** X10.  The one mark is painted outside the source box: for an entity with
    a box and an anchor on one of its sides, both ends of the tick lie
    outside the closed rectangle of the box, whatever [one_dir] and the
    fraction are, so the entity painted later does not cover it. *)
Theorem one_mark_outside_box ents poss name b side d (f : Q) (a : Q * Q) :
  box ents poss name = Ok b ->
  edge ents poss name side f = Ok (Some a) ->
  exists p q : Q * Q,
    draw_source_mark [] d side (Some a)
    = Ok [line (Some p) (Some q) LINE_COLOR (Some 2%Z)]
    /\ ~ in_box b p /\ ~ in_box b q.
Proof.
  intros Hb He. rewrite (edge_eq _ _ _ _ _ _ Hb) in He. injection He as He.
  pose proof (edge_on_Some_valid _ _ _ _ He) as Hs.
  destruct b as [[[x1 y1] x2] y2]. destruct a as [ax ay].
  destruct (box_inv _ _ _ _ _ _ _ Hb) as [Hx Hy]. apply inject_Z_lt in Hx, Hy.
  rewrite (draw_source_mark_one_dir _ d "H").
  destruct Hs as [-> | [-> | [-> | ->]]]; anchor_on_edge He;
    (eexists; eexists; split; [reflexivity|]);
    unfold in_box; simpl; expose_pixels;
    split; intros [[? ?] [? ?]]; lra.
Qed.

Lemma foot_inward_cases side toward :
  foot_inward side toward = true ->
  (side = "R" /\ toward = "R") \/ (side = "L" /\ toward = "L")
  \/ (side = "T" /\ toward = "U") \/ (side = "B" /\ toward = "D").
Proof.
  unfold foot_inward. rewrite !orb_true_iff, !andb_true_iff, !String.eqb_eq. tauto.
Qed.

Lemma foot_outward_cases side toward :
  foot_outward side toward = true ->
  (side = "R" /\ toward = "L") \/ (side = "L" /\ toward = "R")
  \/ (side = "T" /\ toward = "D") \/ (side = "B" /\ toward = "U").
Proof.
  unfold foot_outward. rewrite !orb_true_iff, !andb_true_iff, !String.eqb_eq. tauto.
Qed.

(** X11.  Where the crow's foot falls depends on [crow_dir] against the
    target side.  With the pairs (R, R), (L, L), (T, U), (B, D) the three
    prongs run from the anchor into the target box: when the anchor is at
    least 7 pixels from the ends of its side, every prong ends inside the
    closed rectangle of the box.  With the pairs (R, L), (L, R), (T, D),
    (B, U) every prong ends outside it. *)
Theorem crow_foot_side_of_box ents poss name b side toward (f : Q) (a : Q * Q) :
  box ents poss name = Ok b ->
  edge ents poss name side f = Ok (Some a) ->
  (foot_inward side toward = true ->
   clear_of_corners b side a ->
   Forall (line_end_in b) (draw_crow_foot [] (fst a) (snd a) toward))
  /\ (foot_outward side toward = true ->
      Forall (line_end_out b) (draw_crow_foot [] (fst a) (snd a) toward))
  /\ (foot_inward side toward || foot_outward side toward = true ->
      length (draw_crow_foot ([] : canvas Q) (fst a) (snd a) toward) = 3%nat).
Proof.
  intros Hb He. rewrite (edge_eq _ _ _ _ _ _ Hb) in He. injection He as He.
  destruct b as [[[x1 y1] x2] y2].
  destruct (box_dims _ _ _ _ _ _ _ Hb) as [Hw Hh].
  assert (HW : inject_Z x2 == inject_Z x1 + 320).
  { rewrite Hw, inject_Z_plus. reflexivity. }
  assert (HH : inject_Z y1 + 32 <= inject_Z y2).
  { apply inject_Z_le in Hh. rewrite inject_Z_plus in Hh. exact Hh. }
  destruct a as [ax ay]. split; [|split].
  - intros Hin Hc. apply foot_inward_cases in Hin.
    destruct Hin as [[-> ->] | [[-> ->] | [[-> ->] | [-> ->]]]];
      anchor_on_edge He; unfold clear_of_corners in Hc; simpl in Hc;
      unfold draw_crow_foot, paint; simpl; expose_pixels;
      repeat (apply List.Forall_cons; [unfold line_end_in, in_box; lra|]);
      apply List.Forall_nil.
  - intros Hout. apply foot_outward_cases in Hout.
    destruct Hout as [[-> ->] | [[-> ->] | [[-> ->] | [-> ->]]]];
      anchor_on_edge He; unfold draw_crow_foot, paint; simpl; expose_pixels;
      repeat (apply List.Forall_cons;
              [unfold line_end_out, in_box; intros [[? ?] [? ?]]; lra|]);
      apply List.Forall_nil.
  - intros Hio. apply orb_true_iff in Hio as [Hin | Hout].
    + apply foot_inward_cases in Hin.
      destruct Hin as [[-> ->] | [[-> ->] | [[-> ->] | [-> ->]]]]; reflexivity.
    + apply foot_outward_cases in Hout.
      destruct Hout as [[-> ->] | [[-> ->] | [[-> ->] | [-> ->]]]]; reflexivity.
Qed.

Local Close Scope Q_scope.

Lemma one_mark_outside_box_witness :
  exists p q : Q * Q,
    draw_source_mark [] "H" "L" (Some (nint 470, (460 + 248 * (3 # 10))%Q))
    = Ok [line (Some p) (Some q) LINE_COLOR (Some 2%Z)]
    /\ ~ in_box (470, 460, 790, 708)%Z p /\ ~ in_box (470, 460, 790, 708)%Z q.
Proof.
  apply (one_mark_outside_box entities positions "Conversation" (470, 460, 790, 708)%Z
           "L" "H" (3 # 10)%Q).
  - vm_compute. reflexivity.
  - reflexivity.
Defined.

Lemma crow_foot_side_of_box_witness :
  Forall (line_end_in (80, 500, 400, 724)%Z)
         (draw_crow_foot [] (nint 400) (500 + 224 * (3 # 10))%Q "R").
Proof.
  destruct (crow_foot_side_of_box entities positions "Message" (80, 500, 400, 724)%Z
              "R" "R" (3 # 10)%Q (nint 400, (500 + 224 * (3 # 10))%Q)) as (Hin & _ & _).
  - vm_compute. reflexivity.
  - reflexivity.
  - apply Hin; [reflexivity|]. split; discriminate.
Defined.
